(** * skyproj: HEALPix rasterisation helpers and the sky grid helper

    A shallow embedding of [skyproj/hpx_utils.py] and [skyproj/skygrid.py].

    Conventions of the embedding.
    - A Python/numpy floating-point number is modelled by an exact rational
      ([Q]); rounding error is not modelled.  A dense map value, which may be
      a NaN or an infinity, is a [float64] (below).
    - An integer array index or pixel id is a [Z] or a [nat]; the 32-bit
      counter of [healpix_bin] wraps around as numpy's [int32] does.
    - A call that may raise returns a [result]; the exceptions are the
      constructors of [exn].
    - Functions of other packages (hpgeom, numpy's trigonometry, matplotlib's
      locators) and of the modules of the package that are not embedded
      here ([utils.wrap_values], [skycrs.proj], [mpl_utils]) are Section
      variables: every theorem holds for whatever they compute. *)

From Stdlib Require Import ZArith QArith Qround Qminmax Qabs Lqa Lia List Bool.
From Stdlib Require Import Permutation Sorted.
From Stdlib Require String.
Import ListNotations.

Import String.StringSyntax.
Delimit Scope string_scope with string.

Open Scope Q_scope.

(** ** Results and exceptions *)

Inductive exn : Type :=
| NoValidPixelsError          (* "No valid pixels; zoom is not available." *)
| ValueError_not_unique       (* "The pixels array must be unique." *)
| ValueError_empty_reduction  (* max() of a zero-size array *)
| ValueError_linspace         (* negative number of samples *)
| IndexError
| UnboundLocalError
| RuntimeError_update_lim     (* "Must first call update_lim(axis)" *)
| ValueError_nan_to_int       (* int() of a NaN *)
| TypeError                   (* None is not callable *)
| NotImplementedError
| CollaboratorError.          (* raised inside an external collaborator *)

Inductive result (A : Type) : Type :=
| Ok (a : A)
| Raise (e : exn).

Arguments Ok {A} a.
Arguments Raise {A} e.

Definition bind {A B : Type} (r : result A) (k : A -> result B) : result B :=
  match r with
  | Ok a => k a
  | Raise e => Raise e
  end.

Notation "x <- r ;; k" := (bind r (fun x => k))
  (at level 61, r at next level, right associativity).

Definition of_option {A : Type} (e : exn) (o : option A) : result A :=
  match o with
  | Some a => Ok a
  | None => Raise e
  end.

(** ** numpy helpers on rationals *)

Module Np.

(** The comparisons [x < y] and [x <= y] as booleans. *)
Definition ltb (x y : Q) : bool := negb (Qle_bool y x).
Definition leb (x y : Q) : bool := Qle_bool x y.

(** [x % m] of Python and numpy on floats: the result has the sign of [m]. *)
Definition fmod (x m : Q) : Q := x - m * inject_Z (Qfloor (x / m)).

(** [np.min] and [np.max] of a non-empty array. *)
Definition min (l : list Q) : Q :=
  match l with
  | [] => 0
  | x :: r => fold_left Qmin r x
  end.

Definition max (l : list Q) : Q :=
  match l with
  | [] => 0
  | x :: r => fold_left Qmax r x
  end.

Fixpoint insert (x : Q) (l : list Q) : list Q :=
  match l with
  | [] => [x]
  | y :: r => if Qle_bool x y then x :: l else y :: insert x r
  end.

Definition sort (l : list Q) : list Q := fold_right insert [] l.

(** [np.median]: the middle element of the sorted array, or the mean of the
    two middle elements when the length is even. *)
Definition median (l : list Q) : Q :=
  let s := sort l in
  let n := length s in
  if Nat.even n
  then (nth (n / 2 - 1) s 0 + nth (n / 2) s 0) / 2
  else nth (n / 2) s 0.

(** [np.clip(x, lo, None)] and [np.clip(x, None, hi)]. *)
Definition clip_lo (x lo : Q) : Q := Qmax x lo.
Definition clip_hi (x hi : Q) : Q := Qmin x hi.
Definition clip (x lo hi : Q) : Q := Qmin (Qmax x lo) hi.

(** [int(x)]: truncation towards zero. *)
Definition int (x : Q) : Z :=
  if Qle_bool 0 x then Qfloor x else Qceiling x.

(** [np.linspace(a, b, n)], which refuses a negative [n]. *)
Definition linspace (a b : Q) (n : Z) : result (list Q) :=
  if (n <? 0)%Z then Raise ValueError_linspace
  else
    let k := Z.to_nat n in
    let step := (b - a) / inject_Z (n - 1) in
    Ok (map (fun i => a + inject_Z (Z.of_nat i) * step) (seq 0 k)).

End Np.

(** ** hpx_utils.py *)

Module HpxUtils.

Definition range : Type := (Q * Q)%type.

Definition width (r : range) : Q := snd r - fst r.

(** The small constant the module uses at the poles and at the seam. *)
Definition tiny : Q := 1 # 100000.

Section PixelsRange.

(** [hpg.pixel_to_angle(nside, pix, nest)], for one pixel: (lon, lat). *)
Variable pixel_to_angle : Z -> bool -> Z -> Q * Q.
(** [hpg.max_pixel_radius(nside)], in degrees. *)
Variable max_pixel_radius : Z -> Q.
(** [np.cos(np.deg2rad(x))]. *)
Variable cosd : Q -> Q.
(** [utils.wrap_values(x)] with its default wrap angle. *)
Variable wrap_values : Q -> Q.

(** Line 49: the longitudes re-wrapped around [wrap]. *)
Definition lon_wrap (wrap : Q) (lon : list Q) : list Q :=
  map (fun l => Np.fmod (l + wrap) 360 - wrap) lon.

(** Lines 41-42. *)
Definition eps_lon (nside : Z) (lat : list Q) : Q :=
  max_pixel_radius nside / cosd (Np.median lat).

(** Line 50: the longitude bound before the overrun check. *)
Definition lon_bound (nside : Z) (wrap : Q) (lon lat : list Q) : range :=
  let lw := lon_wrap wrap lon in
  (Np.min lw - eps_lon nside lat, Np.max lw + eps_lon nside lat).

(** Lines 53-59: the if / elif / elif chain that sets [full_range]. *)
Definition full_range (wrap : Q) (lon_range : range) : bool :=
  if Np.ltb (fst lon_range) (wrap - 360) && Np.ltb (wrap - 360) (snd lon_range)
  then true
  else if Np.ltb (fst lon_range) (wrap + 360) && Np.ltb (wrap + 360) (snd lon_range)
  then true
  else if Np.leb 359 (snd lon_range - fst lon_range)
  then true
  else false.

(** Lines 62-63. *)
Definition full_lon_range (wrap : Q) : range :=
  let lon_0 := wrap_values (Np.fmod (wrap + 180) 360) in
  (lon_0 - 180, lon_0 + 180 - tiny).

Definition lat_bound (nside : Z) (lat : list Q) : range :=
  let eps := max_pixel_radius nside in
  (Np.clip_lo (Np.min lat - eps) (-90 + tiny),
   Np.clip_hi (Np.max lat + eps) (90 - tiny)).

Definition healpix_pixels_range (nside : Z) (pixels : list Z) (wrap : Q) (nest : bool)
  : result (range * range) :=
  match pixels with
  | [] => Raise NoValidPixelsError
  | _ :: _ =>
      let ll := map (pixel_to_angle nside nest) pixels in
      let lon := map fst ll in
      let lat := map snd ll in
      let lat_range := lat_bound nside lat in
      let lon_range := lon_bound nside wrap lon lat in
      let lon_range :=
        if full_range wrap lon_range then full_lon_range wrap else lon_range in
      Ok (lon_range, lat_range)
  end.

End PixelsRange.

(** *** Two-dimensional arrays

    A numpy array of shape [(nrows, ncols)]; [cells] holds its rows.  The
    shape is kept beside the rows because an array without rows still has a
    number of columns. *)

Record array2 (A : Type) : Type := mkArray2 {
  nrows : nat;
  ncols : nat;
  cells : list (list A)
}.

Arguments mkArray2 {A} nrows ncols cells.
Arguments nrows {A} a.
Arguments ncols {A} a.
Arguments cells {A} a.

Definition shape {A : Type} (a : array2 A) : nat * nat := (nrows a, ncols a).

(** The rows agree with the shape. *)
Definition well_shaped {A : Type} (a : array2 A) : Prop :=
  length (cells a) = nrows a /\ Forall (fun row => length row = ncols a) (cells a).

(** [a[r, c]]. *)
Definition cell {A : Type} (a : array2 A) (r c : nat) : option A :=
  match nth_error (cells a) r with
  | Some row => nth_error row c
  | None => None
  end.

Definition amap {A B : Type} (f : A -> B) (a : array2 A) : array2 B :=
  mkArray2 (nrows a) (ncols a) (map (map f) (cells a)).

Fixpoint zip_with {A B C : Type} (f : A -> B -> C) (l : list A) (m : list B) : list C :=
  match l, m with
  | x :: l', y :: m' => f x y :: zip_with f l' m'
  | _, _ => []
  end.

(** An elementwise operation on two arrays of one shape. *)
Definition amap2 {A B C : Type} (f : A -> B -> C) (a : array2 A) (b : array2 B) : array2 C :=
  mkArray2 (nrows a) (ncols a) (zip_with (zip_with f) (cells a) (cells b)).

(** [a[1:, 1:]] and [a[:-1, :-1]]. *)
Definition drop_first {A : Type} (a : array2 A) : array2 A :=
  mkArray2 (nrows a - 1) (ncols a - 1) (map (@tl A) (tl (cells a))).

Definition drop_last {A : Type} (a : array2 A) : array2 A :=
  mkArray2 (nrows a - 1) (ncols a - 1) (map (@removelast A) (removelast (cells a))).

(** [np.meshgrid(x, y)]: both arrays have [len(y)] rows and [len(x)] columns. *)
Definition meshgrid (x y : list Q) : array2 Q * array2 Q :=
  (mkArray2 (length y) (length x) (map (fun _ => x) y),
   mkArray2 (length y) (length x) (map (fun v => map (fun _ => v) x) y)).

(** The flattened array, for reductions such as [a.max()]. *)
Definition flatten {A : Type} (a : array2 A) : list A := concat (cells a).

(** *** Map values

    A value of a map is a double that may be NaN or infinite. *)

Inductive float64 : Type :=
| Finite (q : Q)
| NaN
| PosInf
| NegInf.

Definition isnan (v : float64) : bool :=
  match v with
  | NaN => true
  | _ => false
  end.

(** The comparison [x == y] of two doubles (a NaN equals nothing). *)
Definition float_eqb (x y : float64) : bool :=
  match x, y with
  | Finite a, Finite b => Qeq_bool a b
  | PosInf, PosInf => true
  | NegInf, NegInf => true
  | _, _ => false
  end.

(** [np.isclose(x, y)] with numpy's default tolerances: two finite numbers
    are close when |x - y| <= atol + rtol * |y|; otherwise they must be
    equal. *)
Definition rtol : Q := 1 # 100000.
Definition atol : Q := 1 # 100000000.

Definition isclose (x y : float64) : bool :=
  match x, y with
  | Finite a, Finite b => Np.leb (Qabs (a - b)) (atol + rtol * Qabs b)
  | _, _ => float_eqb x y
  end.

(** [np.ma.array(values, mask=mask)]: a true mask entry marks an invalid cell. *)
Record masked_array (A : Type) : Type := mkMasked {
  data : array2 A;
  mask : array2 bool
}.

Arguments mkMasked {A} data mask.
Arguments data {A} m.
Arguments mask {A} m.

(** [a[i]] for one integer index of numpy: a negative index counts from the
    end, and an index outside [-n, n) raises. *)
Definition np_index {A : Type} (a : list A) (i : Z) : result A :=
  let n := Z.of_nat (length a) in
  if ((0 <=? i) && (i <? n))%Z%bool then of_option IndexError (nth_error a (Z.to_nat i))
  else if ((- n <=? i) && (i <? 0))%Z%bool
       then of_option IndexError (nth_error a (Z.to_nat (n + i)))
  else Raise IndexError.

Fixpoint sequence {A : Type} (l : list (result A)) : result (list A) :=
  match l with
  | [] => Ok []
  | r :: l' => x <- r ;; xs <- sequence l' ;; Ok (x :: xs)
  end.

(** An array whose cells are computed one by one; the first exception ends
    the computation. *)
Definition traverse {A B : Type} (g : A -> result B) (a : array2 A) : result (array2 B) :=
  rows <- sequence (map (fun row => sequence (map g row)) (cells a)) ;;
  Ok (mkArray2 (nrows a) (ncols a) rows).

(** [a[idx]] for an array [idx] of indices. *)
Definition np_take {A : Type} (a : list A) (idx : array2 Z) : result (array2 A) :=
  traverse (np_index a) idx.

Section Rasters.

(** [hpg.angle_to_pixel(nside, lon, lat, nest)] at one position. *)
Variable angle_to_pixel : Z -> bool -> Q -> Q -> Z.
(** [hpg.npixel_to_nside(npix)], which refuses an invalid pixel count. *)
Variable npixel_to_nside : Z -> result Z.
(** [hpg.UNSEEN]. *)
Variable UNSEEN : Q.

(** Lines 95-96, 145-146 and 196-197: the mesh. *)
Definition raster_mesh (lon_range lat_range : range) (xsize : Z) (aspect : Q)
  : result (array2 Q * array2 Q) :=
  xs <- Np.linspace (fst lon_range) (snd lon_range) xsize ;;
  ys <- Np.linspace (fst lat_range) (snd lat_range) (Np.int (aspect * inject_Z xsize)) ;;
  Ok (meshgrid xs ys).

(** The number of rows of the mesh: [int(aspect*xsize)]. *)
Definition mesh_rows (xsize : Z) (aspect : Q) : nat :=
  Z.to_nat (Np.int (aspect * inject_Z xsize)).

(** Lines 99-100, 149-150 and 200-201: the centres of the mesh cells. *)
Definition centers (a : array2 Q) : array2 Q :=
  amap2 (fun u v => (u + v) / 2) (drop_first a) (drop_last a).

(** Lines 145-157. *)
Definition hpxmap_to_xy (hpxmap : list float64) (lon_range lat_range : range)
    (nest : bool) (xsize : Z) (aspect : Q)
  : result (array2 Q * array2 Q * masked_array float64) :=
  mesh <- raster_mesh lon_range lat_range xsize aspect ;;
  let '(lon_raster, lat_raster) := mesh in
  let clon := centers lon_raster in
  let clat := centers lat_raster in
  nside <- npixel_to_nside (Z.of_nat (length hpxmap)) ;;
  let pix_raster := amap2 (angle_to_pixel nside nest) clon clat in
  values <- np_take hpxmap pix_raster ;;
  let mask := amap (fun v => isclose v (Finite UNSEEN) || isnan v) values in
  Ok (lon_raster, lat_raster, mkMasked values mask).

(** *** hspmap_to_xy

    A [healsparse.HealSparseMap] as the function uses it: the lookup
    [get_values_pos(lon, lat, valid_mask)] at one position, and the kind of
    values it yields.  A wide-mask map yields the bytes of a bit field, a
    boolean map a boolean, any other map a number; the latter two carry the
    map's [_sentinel]. *)

Inductive HealSparseMap : Type :=
| WideMaskMap (get_values_pos : Q -> Q -> bool -> list Z)
| BoolMap (get_values_pos : Q -> Q -> bool -> bool) (sentinel : bool)
| NumberMap (get_values_pos : Q -> Q -> bool -> float64) (sentinel : float64).

(** The rasterised values: integers (of a wide mask or a boolean map) or
    doubles. *)
Inductive raster_values : Type :=
| IntRaster (m : masked_array Z)
| FloatRaster (m : masked_array float64).

Definition raster_shape (v : raster_values) : nat * nat :=
  match v with
  | IntRaster m => shape (data m)
  | FloatRaster m => shape (data m)
  end.

(** [np.any(values, axis=2).astype(np.int32)] for one cell. *)
Definition any_bit (bytes : list Z) : Z :=
  if existsb (fun b => negb (b =? 0)%Z) bytes then 1%Z else 0%Z.

(** Lines 95-117. *)
Definition hspmap_to_xy (hspmap : HealSparseMap) (lon_range lat_range : range)
    (xsize : Z) (aspect : Q) (valid_mask : bool)
  : result (array2 Q * array2 Q * raster_values) :=
  mesh <- raster_mesh lon_range lat_range xsize aspect ;;
  let '(lon_raster, lat_raster) := mesh in
  let clon := centers lon_raster in
  let clat := centers lat_raster in
  match hspmap with
  | WideMaskMap get =>
      let values := amap any_bit (amap2 (fun lon lat => get lon lat valid_mask) clon clat) in
      let mask := amap (fun v => (v =? 0)%Z) values in
      Ok (lon_raster, lat_raster, IntRaster (mkMasked values mask))
  | BoolMap get sentinel =>
      let values := amap2 (fun lon lat => get lon lat valid_mask) clon clat in
      let mask := amap (fun v => Bool.eqb v sentinel) values in
      let values := amap (fun v : bool => if v then 1%Z else 0%Z) values in
      Ok (lon_raster, lat_raster, IntRaster (mkMasked values mask))
  | NumberMap get sentinel =>
      let values := amap2 (fun lon lat => get lon lat valid_mask) clon clat in
      let mask := amap (fun v => isclose v sentinel || isnan v) values in
      Ok (lon_raster, lat_raster, FloatRaster (mkMasked values mask))
  end.

(** *** healpix_to_xy *)

(** [np.unique]: the sorted distinct elements. *)
Fixpoint uinsert (x : Z) (l : list Z) : list Z :=
  match l with
  | [] => [x]
  | y :: r =>
      if (x <? y)%Z then x :: l
      else if (x =? y)%Z then l
      else y :: uinsert x r
  end.

Definition unique (l : list Z) : list Z := fold_right uinsert [] l.

(** [np.argsort]: the positions of the array in increasing order of their
    elements. *)
Fixpoint insert_index (key : nat -> Z) (i : nat) (st : list nat) : list nat :=
  match st with
  | [] => [i]
  | j :: r => if (key i <=? key j)%Z then i :: st else j :: insert_index key i r
  end.

Definition argsort (a : list Z) : list nat :=
  fold_right (insert_index (fun i => nth i a 0%Z)) [] (seq 0 (length a)).

(** The binary search of [np.searchsorted] (side 'left') between [lo] and
    [hi]; [fuel] bounds the number of halvings. *)
Fixpoint bisect_left (key : nat -> Z) (v : Z) (lo hi fuel : nat) : nat :=
  match fuel with
  | O => lo
  | S fuel' =>
      if (lo <? hi)%nat then
        let mid := (lo + (hi - lo) / 2)%nat in
        if (key mid <? v)%Z then bisect_left key v (S mid) hi fuel'
        else bisect_left key v lo mid fuel'
      else lo
  end.

(** [a[st[k]]]: the element at place [k] of the sorted order. *)
Definition sorted_key (a : list Z) (st : list nat) (k : nat) : Z :=
  nth (nth k st O) a 0%Z.

(** [np.searchsorted(a, v, sorter=st)]. *)
Definition searchsorted (a : list Z) (st : list nat) (v : Z) : nat :=
  bisect_left (sorted_key a st) v 0 (length a) (length a).

(** [a.max()], which raises on an array without elements. *)
Definition amax (l : list Z) : result Z :=
  match l with
  | [] => Raise ValueError_empty_reduction
  | x :: r => Ok (fold_left Z.max r x)
  end.

(** Lines 208-210 for one cell: the place in the sorted order after the
    clamp. *)
Definition clamped (pixels : list Z) (raster_max pixels_max : Z) (i : nat) : nat :=
  if (pixels_max <? raster_max)%Z
  then (if (i =? length pixels)%nat then (length pixels - 1)%nat else i)
  else i.

(** [a[idx]] for an array [idx] of positions. *)
Definition take_nat {A : Type} (a : list A) (idx : array2 nat) : result (array2 A) :=
  traverse (fun i => of_option IndexError (nth_error a i)) idx.

Section ExplicitPixels.

(** The element type of [values] and the zero of [np.zeros]. *)
Variable V : Type.
Variable zero : V.

(** The cells that [np.where] selected ([sel] is true) take the element of
    [values] at their position in [src]; the others keep the zero. *)
Definition scatter_values (values : list V) (sel : array2 bool) (src : array2 nat)
  : result (array2 V) :=
  traverse (fun p : bool * nat =>
              if fst p then of_option IndexError (nth_error values (snd p)) else Ok zero)
           (amap2 pair sel src).

(** Lines 192-220. *)
Definition healpix_to_xy (nside : Z) (pixels : list Z) (values : list V)
    (lon_range lat_range : range) (nest : bool) (xsize : Z) (aspect : Q)
  : result (array2 Q * array2 Q * masked_array V) :=
  let test := unique pixels in
  if negb (length test =? length pixels)%nat then Raise ValueError_not_unique
  else
    mesh <- raster_mesh lon_range lat_range xsize aspect ;;
    let '(lon_raster, lat_raster) := mesh in
    let clon := centers lon_raster in
    let clat := centers lat_raster in
    let pix_raster := amap2 (angle_to_pixel nside nest) clon clat in
    let st := argsort pixels in
    let sub1 := amap (searchsorted pixels st) pix_raster in
    raster_max <- amax (flatten pix_raster) ;;
    pixels_max <- amax pixels ;;
    let sub1 :=
      if (pixels_max <? raster_max)%Z
      then amap (fun i => if (i =? length pixels)%nat then (length pixels - 1)%nat else i) sub1
      else sub1 in
    sorted_pos <- take_nat st sub1 ;;
    found <- take_nat pixels sorted_pos ;;
    let sub2 := amap2 Z.eqb found pix_raster in
    let mask := amap negb sub2 in
    values_raster <- scatter_values values sub2 sorted_pos ;;
    Ok (lon_raster, lat_raster, mkMasked values_raster mask).

End ExplicitPixels.

End Rasters.

(** *** healpix_bin *)

(** The value of a 32-bit signed integer after an addition. *)
Definition wrap_int32 (z : Z) : Z := ((z + 2147483648) mod 4294967296 - 2147483648)%Z.

(** The position an index of numpy denotes in an array of length [n]. *)
Definition position (n : nat) (i : Z) : result nat :=
  let m := Z.of_nat n in
  if ((0 <=? i) && (i <? m))%Z%bool then Ok (Z.to_nat i)
  else if ((- m <=? i) && (i <? 0))%Z%bool then Ok (Z.to_nat (m + i))
  else Raise IndexError.

Fixpoint update {A : Type} (f : A -> A) (k : nat) (l : list A) : list A :=
  match l, k with
  | [], _ => []
  | x :: r, O => f x :: r
  | x :: r, S k' => x :: update f k' r
  end.

(** [np.add.at(a, idx, b)]: for every index in turn, [a[idx[k]] += b[k]]. *)
Fixpoint add_at {A : Type} (add : A -> A -> A) (a : list A) (idx : list Z) (b : list A)
  : result (list A) :=
  match idx, b with
  | i :: idx', x :: b' =>
      k <- position (length a) i ;;
      add_at add (update (fun y => add y x) k a) idx' b'
  | _, _ => Ok a
  end.

Definition add_int32 (x y : Z) : Z := wrap_int32 (x + y).

Section Binning.

Variable angle_to_pixel : Z -> bool -> Q -> Q -> Z.
(** [hpg.nside_to_npixel(nside)]. *)
Variable nside_to_npixel : Z -> Z.
Variable UNSEEN : Q.

(** A value array as long as the index array, or a single value for all of
    its entries. *)
Definition broadcast {A : Type} (n : nat) (b : list A) : result (list A) :=
  if (length b =? n)%nat then Ok b
  else match b with
       | [x] => Ok (repeat x n)
       | _ => Raise CollaboratorError
       end.

(** Lines 244-259. *)
Definition healpix_bin (lon lat : list Q) (C : option (list Q)) (nside : Z) (nest : bool)
  : result (list Q) :=
  if negb (length lon =? length lat)%nat then Raise CollaboratorError
  else
    let pix := zip_with (angle_to_pixel nside nest) lon lat in
    let npix := Z.to_nat (nside_to_npixel nside) in
    count <- add_at add_int32 (repeat 0%Z npix) pix (repeat 1%Z (length pix)) ;;
    let good := map (fun c => (0 <? c)%Z) count in
    hpxmap <-
      match C with
      | Some c =>
          c' <- broadcast (length pix) c ;;
          sums <- add_at Qplus (repeat 0 npix) pix c' ;;
          Ok (zip_with (fun (s : Q) (n : Z) => if (0 <? n)%Z then s / inject_Z n else s)
                       sums count)
      | None => Ok (map inject_Z count)
      end ;;
    Ok (zip_with (fun (g : bool) (h : Q) => if g then h else UNSEEN) good hpxmap).

End Binning.

(** What [np.add.at] leaves at position [k]: the additions of the values
    whose index is [k], in the order of the index array. *)
Fixpoint accumulated {A : Type} (add : A -> A -> A) (k : Z) (idx : list Z) (b : list A)
    (init : A) : A :=
  match idx, b with
  | i :: idx', x :: b' =>
      accumulated add k idx' b' (if (i =? k)%Z then add init x else init)
  | _, _ => init
  end.

(** The number of samples of pixel [p], and the sum of their values. *)
Definition samples_in (pix : list Z) (p : Z) : Z := Z.of_nat (count_occ Z.eq_dec pix p).

Fixpoint sum_in (pix : list Z) (c : list Q) (p : Z) : Q :=
  match pix, c with
  | i :: pix', x :: c' => (if (i =? p)%Z then x else 0) + sum_in pix' c' p
  | _, _ => 0
  end.

(** *** Predicates of the statements below *)

(** The exceptions a computation may raise. *)
Definition raises {A : Type} (P : exn -> Prop) (r : result A) : Prop :=
  match r with
  | Ok _ => True
  | Raise e => P e
  end.

(** The shapes of a mesh and of the raster cut from it. *)
Definition raster_dims (xsize : Z) (aspect : Q) (lon_raster lat_raster : array2 Q)
    (values_shape : nat * nat) : Prop :=
  shape lon_raster = (mesh_rows xsize aspect, Z.to_nat xsize) /\
  shape lat_raster = (mesh_rows xsize aspect, Z.to_nat xsize) /\
  well_shaped lon_raster /\ well_shaped lat_raster /\
  values_shape = (mesh_rows xsize aspect - 1, Z.to_nat xsize - 1)%nat.

Definition well_masked {A : Type} (m : masked_array A) : Prop :=
  well_shaped (data m) /\ well_shaped (mask m) /\ shape (mask m) = shape (data m).

Definition well_formed_raster (v : raster_values) : Prop :=
  match v with
  | IntRaster m => well_masked m
  | FloatRaster m => well_masked m
  end.

(** Strictly increasing, and ordered by a key. *)
Definition increasing (l : list Z) : Prop := StronglySorted Z.lt l.

Definition by_key (key : nat -> Z) (i j : nat) : Prop := (key i <= key j)%Z.

(** The [i]-th of the [n] samples of [np.linspace(fst r, snd r, n)]. *)
Definition linspace_node (r : range) (n : Z) (i : nat) : Q :=
  fst r + inject_Z (Z.of_nat i) * ((snd r - fst r) / inject_Z (n - 1)).

End HpxUtils.

(** ** skygrid.py *)

Module SkyGrid.

Import HpxUtils.

Definition point : Type := (Q * Q)%type.

(** *** matplotlib's Bbox: two corner points *)

Record Bbox : Type := mkBbox {
  p0 : point;
  p1 : point
}.

Definition from_extents (x0 y0 x1 y1 : Q) : Bbox := mkBbox (x0, y0) (x1, y1).

Definition bbox_min (b : Bbox) : point :=
  (Qmin (fst (p0 b)) (fst (p1 b)), Qmin (snd (p0 b)) (snd (p1 b))).

Definition bbox_max (b : Bbox) : point :=
  (Qmax (fst (p0 b)) (fst (p1 b)), Qmax (snd (p0 b)) (snd (p1 b))).

(** [Bbox.expanded(sw, sh)]: the box scaled about its centre. *)
Definition expanded (sw sh : Q) (b : Bbox) : Bbox :=
  let w := fst (p1 b) - fst (p0 b) in
  let h := snd (p1 b) - snd (p0 b) in
  let deltaw := (sw * w - w) / 2 in
  let deltah := (sh * h - h) / 2 in
  mkBbox (fst (p0 b) - deltaw, snd (p0 b) - deltah)
         (fst (p1 b) + deltaw, snd (p1 b) + deltah).

(** *** _find_line_box_crossings *)

(** [(a, b)[sl]] for the two slices of the outer loop: [slice(None)] keeps
    the pair, [slice(None, None, -1)] swaps it. *)
Definition pick (swap : bool) (p : point) : point :=
  if swap then (snd p, fst p) else p.

(** The consecutive pairs [(xys[i], xys[i+1])]. *)
Definition segments (xys : list point) : list (point * point) :=
  combine xys (tl xys).

(** A crossing: its position and the angle of the polyline there. *)
Definition crossing : Type := (point * Q)%type.

Section Crossings.

(** [np.degrees(np.arctan2(dy, dx))]. *)
Variable arctan2_degrees : Q -> Q -> Q.

(** Lines 62-71: the crossings of the line [u = u0]. *)
Definition side_crossings (swap : bool) (u0 : Q) (inside : Q -> bool)
    (vmin vmax : Q) (xys : list point) : list crossing :=
  flat_map
    (fun seg : point * point =>
       let '(a, b) := seg in
       let '(ua, va) := pick swap a in
       let '(ub, vb) := pick swap b in
       if xorb (inside ua) (inside ub) then
         let v := va + (u0 - ua) * (vb - va) / (ub - ua) in
         if Np.leb vmin v && Np.leb v vmax
         then [(pick swap (u0, v), arctan2_degrees (snd b - snd a) (fst b - fst a))]
         else []
       else [])
    (segments xys).

(** Lines 54-72: the crossings with the left, right, bottom and top side. *)
Definition _find_line_box_crossings (xys : list point) (bbox : Bbox) : list (list crossing) :=
  flat_map
    (fun swap : bool =>
       let '(umin, vmin) := pick swap (bbox_min bbox) in
       let '(umax, vmax) := pick swap (bbox_max bbox) in
       [side_crossings swap umin (fun u => Np.ltb umin u) vmin vmax xys;
        side_crossings swap umax (fun u => Np.ltb u umax) vmin vmax xys])
    [false; true].

End Crossings.

(** *** The grid helper *)

(** The projection object: its [name] and [radius]. *)
Record Projection : Type := mkProjection {
  name : String.string;
  radius : Q
}.

(** What [update_lim] reads from the axis it is given. *)
Record Axis : Type := mkAxis {
  get_xlim : Q * Q;
  get_ylim : Q * Q;
  get_extent : Q * Q * Q * Q     (* lon_min, lon_max, lat_min, lat_max *)
}.

(** The 2 x N array of [transform_xy]: one column, an (x, y) pair, per
    position. *)
Definition line : Type := list point.

Record tick : Type := mkTick {
  level : Q;
  loc : crossing;
  label : String.string
}.

Record side_ticks : Type := mkSideTicks {
  left : list tick;
  right : list tick;
  bottom : list tick;
  top : list tick
}.

Record axis_info : Type := mkAxisInfo {
  lines : list (list line);      (* [[l] for l in lines] *)
  ticks : side_ticks
}.

Record grid_info : Type := mkGridInfo {
  extremes : Q * Q * Q * Q;
  lon : axis_info;
  lat : axis_info
}.

(** [angle_helper.LocatorD(n, include_last)]. *)
Record Locator : Type := mkLocator {
  locator_n : Z;
  include_last : bool
}.

(** The attributes of a [SkyGridHelper] that its methods read or write (the
    tick formatters and label options are never read by them). *)
Record SkyGridHelper : Type := mkHelper {
  _projection : Projection;
  _wrap : Q;
  _n_grid_lon_default : option Z;
  _n_grid_lat_default : option Z;
  _grid_locator_lon : option Locator;
  _grid_locator_lat : option Locator;
  _full_circle : bool;
  _delta_cut : Q;
  _grid_info : option grid_info;
  _old_limits : option (Q * Q * Q * Q)
}.

Definition set_locators (lo la : Locator) (self : SkyGridHelper) : SkyGridHelper :=
  mkHelper (_projection self) (_wrap self) (_n_grid_lon_default self)
           (_n_grid_lat_default self) (Some lo) (Some la) (_full_circle self)
           (_delta_cut self) (_grid_info self) (_old_limits self).

Definition set_grid_info (gi : grid_info) (self : SkyGridHelper) : SkyGridHelper :=
  mkHelper (_projection self) (_wrap self) (_n_grid_lon_default self)
           (_n_grid_lat_default self) (_grid_locator_lon self) (_grid_locator_lat self)
           (_full_circle self) (_delta_cut self) (Some gi) (_old_limits self).

Definition set_old_limits (l : Q * Q * Q * Q) (self : SkyGridHelper) : SkyGridHelper :=
  mkHelper (_projection self) (_wrap self) (_n_grid_lon_default self)
           (_n_grid_lat_default self) (_grid_locator_lon self) (_grid_locator_lat self)
           (_full_circle self) (_delta_cut self) (_grid_info self) (Some l).

(** A method: it may change the helper, and returns or raises. *)
Definition method (A : Type) : Type := SkyGridHelper -> SkyGridHelper * result A.

(** A grid line as [get_gridlines] returns it: a column may hold the NaNs
    that [_cut_grid_line_jumps] inserted. *)
Definition cut_line : Type := list (float64 * float64).

Definition finite_point (p : point) : float64 * float64 :=
  (Finite (fst p), Finite (snd p)).

(** [np.hypot(dx, dy) > c]. *)
Definition hypot_gt (dx dy c : Q) : bool :=
  if Np.ltb c 0 then true else Np.ltb (c * c) (dx * dx + dy * dy).

(** [np.insert(a, split + 1, np.nan)] on both rows: a NaN column after
    every column whose successor is further than [delta_cut] away; [jumps]
    tells which. *)
Fixpoint insert_nan (a : line) (jumps : list bool) : cut_line :=
  match a, jumps with
  | p :: a', j :: jumps' =>
      if j then finite_point p :: (NaN, NaN) :: insert_nan a' jumps'
      else finite_point p :: insert_nan a' jumps'
  | _, _ => map finite_point a
  end.

Section Helper.

(** [np.cos(np.deg2rad(x))]. *)
Variable cosd : Q -> Q.
Variable arctan2_degrees : Q -> Q -> Q.
(** [skycrs.proj] for a projection and a wrap angle, stacked as
    [transform_xy] does: the (x, y) of every given (lon, lat). *)
Variable proj : Projection -> Q -> list Q -> list Q -> result line.
(** [ExtremeFinderWrapped(20, 20, wrap)] applied to the inverse transform of
    a projection and to x1, y1, x2, y2. *)
Variable extreme_finder : Projection -> Q -> Q -> Q -> Q -> Q -> result (Q * Q * Q * Q).
(** A call of [LocatorD(n, include_last)] with a minimum and a maximum: the
    levels, their number and the factor. *)
Variable call_locator : Locator -> Q -> Q -> result (list Q * nat * Q).

(** Lines 291-298.  A local variable that was never assigned is [None]; to
    read it raises.  A division by zero yields an infinity, which the clip
    brings back, or a NaN, which [int] refuses. *)
Definition _compute_n_grid_from_extent (extent : Q * Q * Q * Q)
    (n_grid_lat_default n_grid_lon_default : option Z) : result (Z * Z) :=
  let '(e0, e1, e2, e3) := extent in
  let n_grid_lat : option Z :=
    match n_grid_lat_default with
    | None => Some 6%Z
    | Some _ => None
    end in
  n_grid_lon <-
    match n_grid_lon_default with
    | None =>
        let latscale := cosd ((e2 + e3) / 2) in
        let num := Qabs (e1 - e0) * latscale in
        let den := e3 - e2 in
        ratio <-
          (if Qeq_bool den 0 then
             if Qeq_bool num 0 then Ok None
             else if Np.ltb 0 num then Ok (Some (5 # 3)) else Ok (Some (1 # 3))
           else Ok (Some (Np.clip (num / den) (1 # 3) (5 # 3)))) ;;
        n <- of_option UnboundLocalError n_grid_lat ;;
        match ratio with
        | Some r => Ok (Some (Qceiling (r * inject_Z n)))
        | None => Raise ValueError_nan_to_int
        end
    | Some _ => Ok None
    end ;;
  n_lon <- of_option UnboundLocalError n_grid_lon ;;
  n_lat <- of_option UnboundLocalError n_grid_lat ;;
  Ok (n_lon, n_lat).

(** Lines 254-255. *)
Definition transform_xy (self : SkyGridHelper) (lon lat : list Q) : result line :=
  proj (_projection self) (_wrap self) lon lat.

(** Lines 244-252. *)
Definition _get_raw_grid_lines (self : SkyGridHelper) (lon_values lat_values : list Q)
    (lon_min lon_max lat_min lat_max : Q) : result (list line * list line) :=
  lons_i <- Np.linspace lon_min lon_max 100 ;;
  lats_i <- Np.linspace lat_min lat_max 100 ;;
  lon_lines <- sequence (map (fun l => transform_xy self (map (fun _ => l) lats_i) lats_i)
                             lon_values) ;;
  lat_lines <- sequence (map (fun l => transform_xy self lons_i (map (fun _ => l) lons_i))
                             lat_values) ;;
  Ok (lon_lines, lat_lines).

(** Lines 222-236 for one line: its crossings filed under the four sides. *)
Definition add_ticks (bb : Bbox) (t : side_ticks) (entry : line * Q) : side_ticks :=
  let '(l, lev) := entry in
  let all_crossings := _find_line_box_crossings arctan2_degrees l bb in
  let mk := map (fun c => mkTick lev c "lab"%string) in
  mkSideTicks (left t ++ mk (nth 0 all_crossings []))
              (right t ++ mk (nth 1 all_crossings []))
              (bottom t ++ mk (nth 2 all_crossings []))
              (top t ++ mk (nth 3 all_crossings [])).

(** Lines 218-236: the entry of the grid info for one of the two axes.  The
    loop runs over [zip(lines, values, levs)], and there is one line per
    value. *)
Definition make_axis_info (bb : Bbox) (levs : list Q) (ls : list line) : axis_info :=
  mkAxisInfo (map (fun l => [l]) ls)
             (fold_left (add_ticks bb) (combine ls levs) (mkSideTicks [] [] [] [])).

(** Lines 188-238. *)
Definition get_grid_info (self : SkyGridHelper) (x1 y1 x2 y2 : Q) : result grid_info :=
  ex <- extreme_finder (_projection self) (_wrap self) x1 y1 x2 y2 ;;
  let '(lon_min, lon_max, lat_min, lat_max) := ex in
  loc_lon <- of_option TypeError (_grid_locator_lon self) ;;
  r_lon <- call_locator loc_lon lon_min lon_max ;;
  let '(lon_levs, lon_n, lon_factor) := r_lon in
  loc_lat <- of_option TypeError (_grid_locator_lat self) ;;
  r_lat <- call_locator loc_lat lat_min lat_max ;;
  let '(lat_levs, lat_n, lat_factor) := r_lat in
  let lon_values := map (fun l => l / lon_factor) (firstn lon_n lon_levs) in
  let lat_values := map (fun l => l / lat_factor) (firstn lat_n lat_levs) in
  raw <- _get_raw_grid_lines self lon_values lat_values lon_min lon_max lat_min lat_max ;;
  let '(lon_lines, lat_lines) := raw in
  let bb := expanded (1 + (2 # 10000000000)) (1 + (2 # 10000000000))
                     (from_extents x1 y1 x2 y2) in
  Ok (mkGridInfo ex (make_axis_info bb lon_levs lon_lines)
                    (make_axis_info bb lat_levs lat_lines)).

(** Lines 181-182. *)
Definition _update_grid (x1 y1 x2 y2 : Q) : method unit :=
  fun self =>
    match get_grid_info self x1 y1 x2 y2 with
    | Ok gi => (set_grid_info gi self, Ok tt)
    | Raise e => (self, Raise e)
    end.

(** [self._old_limits != (x1, x2, y1, y2)]. *)
Definition limits_differ (old : option (Q * Q * Q * Q)) (x1 x2 y1 y2 : Q) : bool :=
  match old with
  | None => true
  | Some (o1, o2, o3, o4) =>
      negb (Qeq_bool o1 x1 && Qeq_bool o2 x2 && Qeq_bool o3 y1 && Qeq_bool o4 y2)
  end.

(** Lines 157-179. *)
Definition update_lim (axis : Axis) : method unit :=
  fun self =>
    let '(x1, x2) := get_xlim axis in
    let '(y1, y2) := get_ylim axis in
    if limits_differ (_old_limits self) x1 x2 y1 y2 then
      match _compute_n_grid_from_extent (get_extent axis)
              (_n_grid_lat_default self) (_n_grid_lon_default self) with
      | Raise e => (self, Raise e)
      | Ok (n_grid_lon, n_grid_lat) =>
          let include_last_lon := Qeq_bool (_wrap self) 180 && negb (_full_circle self) in
          let self := set_locators (mkLocator n_grid_lon include_last_lon)
                                   (mkLocator n_grid_lat true) self in
          match _update_grid x1 y1 x2 y2 self with
          | (self, Ok _) => (set_old_limits (x1, x2, y1, y2) self, Ok tt)
          | (self, Raise e) => (self, Raise e)
          end
      end
    else (self, Ok tt).

(** Lines 130-155. *)
Definition _cut_grid_line_jumps (self : SkyGridHelper) (gl : list line)
  : result (list cut_line) :=
  match gl with
  | [] => Raise IndexError
  | l :: _ =>
      let jumps :=
        map (fun seg : point * point =>
               hypot_gt (fst (snd seg) - fst (fst seg)) (snd (snd seg) - snd (fst seg))
                        (_delta_cut self))
            (segments l) in
      if existsb (fun j => j) jumps
      then Ok [insert_nan l jumps]
      else Ok (map (map finite_point) gl)
  end.

Definition cut_all (self : SkyGridHelper) (gls : list (list line)) : result (list cut_line) :=
  parts <- sequence (map (_cut_grid_line_jumps self) gls) ;;
  Ok (concat parts).

(** Lines 115-128. *)
Definition get_gridlines (axis : String.string) : method (list cut_line) :=
  fun self =>
    match _grid_info self with
    | None => (self, Raise RuntimeError_update_lim)
    | Some gi =>
        (self,
         lon_part <- (if String.eqb axis "both" || String.eqb axis "x"
                      then cut_all self (lines (lon gi)) else Ok []) ;;
         lat_part <- (if String.eqb axis "both" || String.eqb axis "y"
                      then cut_all self (lines (lat gi)) else Ok []) ;;
         Ok (lon_part ++ lat_part))
    end.

(** Lines 266-268. *)
Definition get_tick_iterator : method unit :=
  fun self => (self, Raise NotImplementedError).

(** Lines 78-113: the constructor, which raises when its [update_lim] does. *)
Definition __init__ (axis : Axis) (projection : Projection) (wrap : Q)
    (n_grid_lon_default n_grid_lat_default : option Z) (full_circle : bool)
  : result SkyGridHelper :=
  let delta_cut := if String.eqb (name projection) "cyl" then 80 else (1 # 2) * radius projection in
  let self := mkHelper projection wrap n_grid_lon_default n_grid_lat_default
                       None None full_circle delta_cut None None in
  match update_lim axis self with
  | (self, Ok _) => Ok self
  | (_, Raise e) => Raise e
  end.

(** *** The public interface

    What a caller may do with a constructed helper. *)

Inductive call : Type :=
| CallUpdateLim (axis : Axis)
| CallGetGridlines (axis : String.string)
| CallGetGridInfo (x1 y1 x2 y2 : Q)
| CallTransformXY (lon lat : list Q)
| CallGetTickIterator.

(** The helper after a call (whether the call returned or raised). *)
Definition after (c : call) (self : SkyGridHelper) : SkyGridHelper :=
  match c with
  | CallUpdateLim axis => fst (update_lim axis self)
  | CallGetGridlines axis => fst (get_gridlines axis self)
  | CallGetGridInfo _ _ _ _ => self
  | CallTransformXY _ _ => self
  | CallGetTickIterator => fst (get_tick_iterator self)
  end.

Definition after_all (cs : list call) (self : SkyGridHelper) : SkyGridHelper :=
  fold_left (fun s c => after c s) cs self.

End Helper.

(** *** Predicates of the statements below *)

(** A crossing at (x, y) with the given angle. *)
(** A crossing at (x, y) with the given angle. *)
Definition crossing_eq (c : crossing) (x y angle : Q) : Prop :=
  fst (fst c) == x /\ snd (fst c) == y /\ snd c == angle.

(** An update has filled the grid info. *)
Definition initialized (self : SkyGridHelper) : Prop := _grid_info self <> None.

(** A point strictly inside the box. *)
Definition strictly_inside (bbox : Bbox) (p : point) : Prop :=
  fst (bbox_min bbox) < fst p /\ fst p < fst (bbox_max bbox) /\
  snd (bbox_min bbox) < snd p /\ snd p < snd (bbox_max bbox).

(** The column is one of the NaN columns of [insert_nan]. *)
Definition is_gap (p : float64 * float64) : bool := isnan (fst p) && isnan (snd p).

(** The jumps of a line: for every segment, whether it is longer than
    [delta_cut] (line 147). *)
Definition jumps_of (delta_cut : Q) (l : line) : list bool :=
  map (fun seg : point * point =>
         hypot_gt (fst (snd seg) - fst (fst seg)) (snd (snd seg) - snd (fst seg)) delta_cut)
      (segments l).

(** Every entry of "lines" holds one line, as [get_grid_info] builds them. *)
Definition one_line_each (a : axis_info) : Prop :=
  Forall (fun gl : list line => exists l, gl = [l]) (lines a).

(** The grid info is filled, with one line per entry. *)
Definition well_filled (self : SkyGridHelper) : Prop :=
  exists gi, _grid_info self = Some gi /\ one_line_each (lon gi) /\ one_line_each (lat gi).

(** The two axes have the same limits. *)
Definition same_limits (a b : Axis) : Prop :=
  fst (get_xlim a) == fst (get_xlim b) /\ snd (get_xlim a) == snd (get_xlim b) /\
  fst (get_ylim a) == fst (get_ylim b) /\ snd (get_ylim a) == snd (get_ylim b).

(** The level of a tick is one of [levs] and its label is the placeholder. *)
Definition tick_ok (levs : list Q) (t : tick) : Prop :=
  In (level t) levs /\ label t = "lab"%string.

(** The ticks of each side lie on that side of the box, within the extent
    of the box along it. *)
Definition ticks_on_sides (bb : Bbox) (levs : list Q) (t : side_ticks) : Prop :=
  Forall (fun k => tick_ok levs k /\
                   fst (fst (loc k)) = fst (bbox_min bb) /\
                   snd (bbox_min bb) <= snd (fst (loc k)) <= snd (bbox_max bb)) (left t) /\
  Forall (fun k => tick_ok levs k /\
                   fst (fst (loc k)) = fst (bbox_max bb) /\
                   snd (bbox_min bb) <= snd (fst (loc k)) <= snd (bbox_max bb)) (right t) /\
  Forall (fun k => tick_ok levs k /\
                   snd (fst (loc k)) = snd (bbox_min bb) /\
                   fst (bbox_min bb) <= fst (fst (loc k)) <= fst (bbox_max bb)) (bottom t) /\
  Forall (fun k => tick_ok levs k /\
                   snd (fst (loc k)) = snd (bbox_max bb) /\
                   fst (bbox_min bb) <= fst (fst (loc k)) <= fst (bbox_max bb)) (top t).

(** The box against which [get_grid_info] looks for crossings (line 207). *)
Definition tick_box (x1 y1 x2 y2 : Q) : Bbox :=
  expanded (1 + (2 # 10000000000)) (1 + (2 # 10000000000)) (from_extents x1 y1 x2 y2).

End SkyGrid.

(** ** The spec's reading of the row count *)

Module Spec.

(** [round(x)]: the nearest integer, a tie going to the even one. *)
Definition round_half_even (x : Q) : Z :=
  let f := Qfloor x in
  let d := x - inject_Z f in
  if Np.ltb d (1 # 2) then f
  else if Np.ltb (1 # 2) d then (f + 1)%Z
  else if Z.even f then f else (f + 1)%Z.

(** The spec's number of mesh rows: [round(aspect*xsize)]. *)
Definition mesh_rows (xsize : Z) (aspect : Q) : Z :=
  round_half_even (aspect * inject_Z xsize).

End Spec.

(** ** Concrete collaborators

    Values of the external functions at the inputs of the examples below. *)

Module Fixtures.

(** Two pixel centres on the equator, at longitudes 359 and 1 (pixel 0 and
    any other pixel), with a pixel radius of one degree. *)
Definition seam_pixel_to_angle (nside : Z) (nest : bool) (p : Z) : Q * Q :=
  if (p =? 0)%Z then (359, 0) else (1, 0).
Definition seam_radius (nside : Z) : Q := 1.
Definition seam_cosd (x : Q) : Q := 1.

(** The wrap of an angle into [-180, 180). *)
Definition wrap_180 (x : Q) : Q := Np.fmod (x + 180) 360 - 180.

(** The first and the last pixel of ring 10^7 of the HEALPix ring scheme at
    nside 2^24 (north polar cap; pixel j of ring i is centred at longitude
    (j - 1/2) * 90 / i): longitudes 45/10^7 and 360 - 45/10^7, latitude
    61.83 degrees, whose cosine is 0.4720; the pixel radius at this nside is
    3.65e-6 degrees. *)
Definition cap_pixel_to_angle (nside : Z) (nest : bool) (p : Z) : Q * Q :=
  if (p =? 199999980000000)%Z
  then (45 # 10000000, 6183 # 100)
  else (360 - (45 # 10000000), 6183 # 100).
Definition cap_radius (nside : Z) : Q := 365 # 100000000.
Definition cap_cosd (x : Q) : Q := 4720 # 10000.

(** The HEALPix ring scheme at nside 1 on the equator: the pixels 4 to 7 are
    centred at the longitudes 0, 90, 180 and 270. *)
Definition equator_angle_to_pixel (nside : Z) (nest : bool) (lon lat : Q) : Z :=
  (4 + Qfloor ((lon + 45) / 90) mod 4)%Z.

Definition hpg_npixel_to_nside (npix : Z) : result Z :=
  let s := Z.sqrt (npix / 12) in
  if (12 * s * s =? npix)%Z then Ok s else Raise CollaboratorError.

Definition hpg_nside_to_npixel (nside : Z) : Z := (12 * nside * nside)%Z.

(** hpgeom's UNSEEN, -1.6375e30. *)
Definition hpg_UNSEEN : Q := -1637500000000000000000000000000 # 1.

(** A dense map at nside 1 that holds -1.6374999e30 everywhere. *)
Definition near_unseen : HpxUtils.float64 :=
  HpxUtils.Finite (-1637499900000000000000000000000 # 1).
Definition near_unseen_map : list HpxUtils.float64 := repeat near_unseen 12.

(** A stand-in for [np.degrees(np.arctan2(dy, dx))] that is exact in the
    directions of the axes. *)
Definition axis_arctan2_degrees (dy dx : Q) : Q :=
  if Qeq_bool dy 0 then (if Np.leb 0 dx then 0 else 180)
  else if Np.ltb 0 dy then 90 else -90.

Definition unit_box : SkyGrid.Bbox := SkyGrid.from_extents (-1) (-1) 1 1.

(** A plate carree (x = lon, y = lat) seen through the viewport itself, with
    a locator that returns the two ends of the range. *)
Definition flat_cosd (x : Q) : Q := 1.
Definition plate_proj (p : SkyGrid.Projection) (wrap : Q) (lon lat : list Q)
  : result SkyGrid.line := Ok (combine lon lat).
Definition box_extremes (p : SkyGrid.Projection) (wrap x1 y1 x2 y2 : Q)
  : result (Q * Q * Q * Q) := Ok (x1, x2, y1, y2).
Definition two_levels (l : SkyGrid.Locator) (lo hi : Q) : result (list Q * nat * Q) :=
  Ok ([lo; hi], 2%nat, 1).
Definition zoom_axis : SkyGrid.Axis := SkyGrid.mkAxis (0, 50) (0, 50) (0, 50, 0, 50).
Definition cyl : SkyGrid.Projection := SkyGrid.mkProjection "cyl"%string 1.

(** A helper on the cylindrical projection before its first update, the
    same helper with the locators of the default counts, and an extreme
    finder that fails. *)
Definition fresh_helper : SkyGrid.SkyGridHelper :=
  SkyGrid.mkHelper cyl 0 None None None None false 80 None None.
Definition located_helper : SkyGrid.SkyGridHelper :=
  SkyGrid.set_locators (SkyGrid.mkLocator 6 false) (SkyGrid.mkLocator 6 true) fresh_helper.
Definition no_extremes (p : SkyGrid.Projection) (wrap x1 y1 x2 y2 : Q)
  : result (Q * Q * Q * Q) := Raise CollaboratorError.

(** A helper whose grid info holds one meridian and one parallel. *)
Definition small_grid_info : SkyGrid.grid_info :=
  SkyGrid.mkGridInfo (0, 1, 0, 1)
    (SkyGrid.mkAxisInfo [[[(0, 0); (0, 1)]]] (SkyGrid.mkSideTicks [] [] [] []))
    (SkyGrid.mkAxisInfo [[[(0, 0); (1, 0)]]] (SkyGrid.mkSideTicks [] [] [] [])).
Definition small_helper : SkyGrid.SkyGridHelper :=
  SkyGrid.mkHelper cyl 0 None None None None false 80 (Some small_grid_info)
                   (Some (0, 1, 0, 1)).

End Fixtures.

(** * Properties *)

(** ** Arithmetic helpers *)

Module NpFacts.

Lemma ltb_spec (x y : Q) : Np.ltb x y = true <-> x < y.
Proof.
  unfold Np.ltb. rewrite negb_true_iff.
  destruct (Qle_bool y x) eqn:E.
  - apply Qle_bool_iff in E. split; [discriminate | intro H; exfalso; lra].
  - split; [intros _ | reflexivity].
    destruct (Qlt_le_dec x y) as [H | H]; [exact H |].
    apply Qle_bool_iff in H. congruence.
Qed.

Lemma ltb_false (x y : Q) : Np.ltb x y = false <-> y <= x.
Proof.
  unfold Np.ltb. rewrite negb_false_iff. apply Qle_bool_iff.
Qed.

Lemma leb_spec (x y : Q) : Np.leb x y = true <-> x <= y.
Proof. apply Qle_bool_iff. Qed.

Lemma leb_false (x y : Q) : Np.leb x y = false <-> y < x.
Proof.
  unfold Np.leb. destruct (Qle_bool x y) eqn:E.
  - apply Qle_bool_iff in E. split; [discriminate | intro; exfalso; lra].
  - split; [intros _ | reflexivity].
    destruct (Qlt_le_dec y x) as [H | H]; [exact H |].
    apply Qle_bool_iff in H. congruence.
Qed.

Lemma fold_min_le_init (l : list Q) (x : Q) : fold_left Qmin l x <= x.
Proof.
  revert x. induction l as [| y l IH]; intro x; simpl.
  - lra.
  - specialize (IH (Qmin x y)). pose proof (Q.le_min_l x y). lra.
Qed.

Lemma fold_min_le_In (l : list Q) (x y : Q) : In y l -> fold_left Qmin l x <= y.
Proof.
  revert x. induction l as [| z l IH]; intros x H; simpl in *.
  - contradiction.
  - destruct H as [-> | H].
    + pose proof (fold_min_le_init l (Qmin x y)).
      pose proof (Q.le_min_r x y). lra.
    + apply IH, H.
Qed.

Lemma fold_max_ge_init (l : list Q) (x : Q) : x <= fold_left Qmax l x.
Proof.
  revert x. induction l as [| y l IH]; intro x; simpl.
  - lra.
  - specialize (IH (Qmax x y)). pose proof (Q.le_max_l x y). lra.
Qed.

Lemma fold_max_ge_In (l : list Q) (x y : Q) : In y l -> y <= fold_left Qmax l x.
Proof.
  revert x. induction l as [| z l IH]; intros x H; simpl in *.
  - contradiction.
  - destruct H as [-> | H].
    + pose proof (fold_max_ge_init l (Qmax x y)).
      pose proof (Q.le_max_r x y). lra.
    + apply IH, H.
Qed.

Lemma Qmin_cases (x y : Q) : Qmin x y = x \/ Qmin x y = y.
Proof.
  unfold Qmin, GenericMinMax.gmin. destruct (x ?= y); auto.
Qed.

Lemma Qmax_cases (x y : Q) : Qmax x y = x \/ Qmax x y = y.
Proof.
  unfold Qmax, GenericMinMax.gmax. destruct (x ?= y); auto.
Qed.

Lemma fold_min_In (l : list Q) (x : Q) :
  fold_left Qmin l x = x \/ In (fold_left Qmin l x) l.
Proof.
  revert x. induction l as [| y l IH]; intro x; simpl.
  - left; reflexivity.
  - destruct (IH (Qmin x y)) as [E | H].
    + rewrite E. destruct (Qmin_cases x y) as [E' | E']; rewrite E'; auto.
    + right; right; exact H.
Qed.

Lemma fold_max_In (l : list Q) (x : Q) :
  fold_left Qmax l x = x \/ In (fold_left Qmax l x) l.
Proof.
  revert x. induction l as [| y l IH]; intro x; simpl.
  - left; reflexivity.
  - destruct (IH (Qmax x y)) as [E | H].
    + rewrite E. destruct (Qmax_cases x y) as [E' | E']; rewrite E'; auto.
    + right; right; exact H.
Qed.

Lemma min_le (l : list Q) (y : Q) : In y l -> Np.min l <= y.
Proof.
  destruct l as [| x l]; simpl; [contradiction |].
  intros [-> | H]; [apply fold_min_le_init | apply fold_min_le_In, H].
Qed.

Lemma max_ge (l : list Q) (y : Q) : In y l -> y <= Np.max l.
Proof.
  destruct l as [| x l]; simpl; [contradiction |].
  intros [-> | H]; [apply fold_max_ge_init | apply fold_max_ge_In, H].
Qed.

Lemma min_In (l : list Q) : l <> [] -> In (Np.min l) l.
Proof.
  destruct l as [| x l]; [congruence | intros _; simpl].
  destruct (fold_min_In l x) as [E | H]; [left; symmetry; exact E | right; exact H].
Qed.

Lemma max_In (l : list Q) : l <> [] -> In (Np.max l) l.
Proof.
  destruct l as [| x l]; [congruence | intros _; simpl].
  destruct (fold_max_In l x) as [E | H]; [left; symmetry; exact E | right; exact H].
Qed.

Lemma min_le_max (l : list Q) : l <> [] -> Np.min l <= Np.max l.
Proof.
  intro H. apply max_ge, min_In, H.
Qed.

End NpFacts.

(** ** healpix_pixels_range *)

Module PixelsRangeFacts.

Import HpxUtils.

Section Facts.

Variable pixel_to_angle : Z -> bool -> Z -> Q * Q.
Variable max_pixel_radius : Z -> Q.
Variable cosd : Q -> Q.
Variable wrap_values : Q -> Q.

Local Abbreviation pixels_range :=
  (healpix_pixels_range pixel_to_angle max_pixel_radius cosd wrap_values).
Local Abbreviation lons nside nest pixels :=
  (map fst (map (pixel_to_angle nside nest) pixels)).
Local Abbreviation lats nside nest pixels :=
  (map snd (map (pixel_to_angle nside nest) pixels)).
Local Abbreviation bound nside wrap nest pixels :=
  (lon_bound max_pixel_radius cosd nside wrap
     (lons nside nest pixels) (lats nside nest pixels)).

Lemma full_range_spec (wrap : Q) (r : range) :
  full_range wrap r = true <->
  (fst r < wrap - 360 /\ wrap - 360 < snd r) \/
  (fst r < wrap + 360 /\ wrap + 360 < snd r) \/
  359 <= snd r - fst r.
Proof.
  unfold full_range.
  destruct (Np.ltb (fst r) (wrap - 360)) eqn:A1;
  destruct (Np.ltb (wrap - 360) (snd r)) eqn:A2;
  destruct (Np.ltb (fst r) (wrap + 360)) eqn:B1;
  destruct (Np.ltb (wrap + 360) (snd r)) eqn:B2;
  destruct (Np.leb 359 (snd r - fst r)) eqn:C; simpl;
  repeat match goal with
  | H : Np.ltb _ _ = true |- _ => apply NpFacts.ltb_spec in H
  | H : Np.ltb _ _ = false |- _ => apply NpFacts.ltb_false in H
  | H : Np.leb _ _ = true |- _ => apply NpFacts.leb_spec in H
  | H : Np.leb _ _ = false |- _ => apply NpFacts.leb_false in H
  end;
  split; intro H; try reflexivity; try discriminate; try tauto;
  try (exfalso; lra).
Qed.

Lemma pixels_range_eq nside pixels wrap nest :
  pixels <> [] ->
  pixels_range nside pixels wrap nest =
  Ok (if full_range wrap (bound nside wrap nest pixels)
      then full_lon_range wrap_values wrap
      else bound nside wrap nest pixels,
      lat_bound max_pixel_radius nside (lats nside nest pixels)).
Proof.
  destruct pixels as [| p ps]; [congruence | reflexivity].
Qed.

Lemma full_lon_range_width wrap :
  width (full_lon_range wrap_values wrap) == 360 - tiny.
Proof.
  unfold width, full_lon_range; cbn [fst snd]. ring.
Qed.


Local Abbreviation spread nside wrap nest pixels :=
  (Np.max (lon_wrap wrap (lons nside nest pixels))
   - Np.min (lon_wrap wrap (lons nside nest pixels))).
Local Abbreviation e_lon nside nest pixels :=
  (eps_lon max_pixel_radius cosd nside (lats nside nest pixels)).

Lemma bound_width nside wrap nest pixels :
  width (bound nside wrap nest pixels)
  == spread nside wrap nest pixels + 2 * e_lon nside nest pixels.
Proof.
  unfold width, lon_bound; cbn [fst snd]. ring.
Qed.

Lemma seam_example nside pixels nest :
  lons nside nest pixels = [359; 1] ->
  width (bound nside 0 nest pixels) == 358 + 2 * e_lon nside nest pixels /\
  fst (bound nside 0 nest pixels) == 1 - e_lon nside nest pixels /\
  snd (bound nside 0 nest pixels) == 359 + e_lon nside nest pixels.
Proof.
  intro E. unfold width, lon_bound. rewrite E. cbn [fst snd].
  assert (Hmin : Np.min (lon_wrap 0 [359; 1]) == 1) by (vm_compute; reflexivity).
  assert (Hmax : Np.max (lon_wrap 0 [359; 1]) == 359) by (vm_compute; reflexivity).
  rewrite Hmin, Hmax. repeat split; ring.
Qed.

(** C1 (amended): for a non-empty pixel set the call returns; when the
    computed longitude bound straddles wrap-360 or wrap+360, or is at least
    359 degrees wide, the returned longitude range is
    [lon_0 - 180, lon_0 + 180 - 1e-5] with
    lon_0 = wrap_values((wrap + 180) mod 360), whose width is 360 - 1e-5,
    and otherwise it is the computed bound; for wrap = 0 and pixel longitudes
    359 and 1 the width is 360 - 1e-5 when eps_lon >= 1/2 and
    358 + 2 eps_lon otherwise.  (The cosine of the median latitude is taken
    to be non-zero, as numpy's is for every double: the division that gives
    eps_lon is then the one of the model.) *)
Theorem healpix_pixels_range_full_sky nside pixels wrap nest :
  pixels <> [] ->
  ~ cosd (Np.median (lats nside nest pixels)) == 0 ->
  let b := bound nside wrap nest pixels in
  let lon_0 := wrap_values (Np.fmod (wrap + 180) 360) in
  exists lon_range lat_range,
    healpix_pixels_range pixel_to_angle max_pixel_radius cosd wrap_values
      nside pixels wrap nest = Ok (lon_range, lat_range) /\
    ((fst b < wrap - 360 /\ wrap - 360 < snd b) \/
     (fst b < wrap + 360 /\ wrap + 360 < snd b) \/
     359 <= snd b - fst b ->
     lon_range = (lon_0 - 180, lon_0 + 180 - tiny) /\
     width lon_range == 360 - tiny) /\
    (~ ((fst b < wrap - 360 /\ wrap - 360 < snd b) \/
        (fst b < wrap + 360 /\ wrap + 360 < snd b) \/
        359 <= snd b - fst b) ->
     lon_range = b) /\
    (wrap = 0 -> lons nside nest pixels = [359; 1] ->
     (1 # 2 <= e_lon nside nest pixels -> width lon_range == 360 - tiny) /\
     (e_lon nside nest pixels < 1 # 2 ->
      width lon_range == 358 + 2 * e_lon nside nest pixels)).
Proof.
  intros Hne _ b lon_0.
  rewrite (pixels_range_eq _ _ _ _ Hne). fold b.
  eexists; eexists; split; [reflexivity |].
  split; [| split].
  - intro H. apply full_range_spec in H. rewrite H.
    split; [reflexivity | apply full_lon_range_width].
  - intro H. destruct (full_range wrap b) eqn:F; [| reflexivity].
    apply full_range_spec in F. contradiction.
  - intros -> E. destruct (seam_example nside pixels nest E) as (W & L & R).
    fold b in W, L, R. split; intro He.
    + assert (F : full_range 0 b = true).
      { apply full_range_spec. right; right.
        unfold width in W. lra. }
      rewrite F. apply full_lon_range_width.
    + assert (F : full_range 0 b = false).
      { destruct (full_range 0 b) eqn:F; [| reflexivity].
        apply full_range_spec in F. unfold width in W. exfalso. lra. }
      rewrite F. exact W.
Qed.


Lemma lat_bound_clamped nside lat :
  -90 + tiny <= fst (lat_bound max_pixel_radius nside lat) /\
  snd (lat_bound max_pixel_radius nside lat) <= 90 - tiny.
Proof.
  unfold lat_bound, Np.clip_lo, Np.clip_hi; cbn [fst snd]. split.
  - apply Q.le_max_r.
  - apply Q.le_min_r.
Qed.

Lemma lat_bound_inside nside lat :
  lat <> [] ->
  (forall x, In x lat -> -90 <= x <= 90) ->
  0 <= max_pixel_radius nside ->
  fst (lat_bound max_pixel_radius nside lat) <= 90 /\
  -90 <= snd (lat_bound max_pixel_radius nside lat).
Proof.
  intros Hne Hlat Heps.
  pose proof (Hlat _ (NpFacts.min_In lat Hne)) as Hmin.
  pose proof (Hlat _ (NpFacts.max_In lat Hne)) as Hmax.
  unfold lat_bound, Np.clip_lo, Np.clip_hi, tiny; cbn [fst snd]. split.
  - apply Q.max_lub; lra.
  - apply Q.min_glb; lra.
Qed.

(** C2 (amended): for a non-empty pixel set the returned latitude range has
    its lower edge at or above -90 and its upper edge at or below 90 (and
    lies within [-90, 90] altogether when the pixel latitudes do and the
    pixel radius is not negative); the width of the returned longitude range
    never exceeds 360, and it is at least the spread of the re-wrapped
    longitudes whenever eps_lon is not negative and that spread is at most
    360 - 1e-5.  (The cosine of the median latitude is taken to be non-zero,
    as for C1.) *)
Theorem healpix_pixels_range_window nside pixels wrap nest :
  pixels <> [] ->
  ~ cosd (Np.median (lats nside nest pixels)) == 0 ->
  exists lon_range lat_range,
    healpix_pixels_range pixel_to_angle max_pixel_radius cosd wrap_values
      nside pixels wrap nest = Ok (lon_range, lat_range) /\
    -90 <= fst lat_range /\ snd lat_range <= 90 /\
    ((forall p, In p pixels -> -90 <= snd (pixel_to_angle nside nest p) <= 90) ->
     0 <= max_pixel_radius nside ->
     fst lat_range <= 90 /\ -90 <= snd lat_range) /\
    width lon_range <= 360 /\
    (0 <= e_lon nside nest pixels ->
     spread nside wrap nest pixels <= 360 - tiny ->
     spread nside wrap nest pixels <= width lon_range).
Proof.
  intros Hne _. rewrite (pixels_range_eq _ _ _ _ Hne).
  eexists; eexists; split; [reflexivity |].
  destruct (lat_bound_clamped nside (lats nside nest pixels)) as [Hlo Hhi].
  unfold tiny in Hlo, Hhi.
  split; [lra |]. split; [lra |]. split; [| split].
  - intros Hlat Heps. apply lat_bound_inside; [| | exact Heps].
    + destruct pixels; [congruence | discriminate].
    + intros x Hx. rewrite map_map in Hx. apply in_map_iff in Hx.
      destruct Hx as (p & <- & Hp). apply Hlat, Hp.
  - destruct (full_range wrap (bound nside wrap nest pixels)) eqn:F.
    + rewrite full_lon_range_width. unfold tiny. lra.
    + assert (N : ~ 359 <= snd (bound nside wrap nest pixels)
                            - fst (bound nside wrap nest pixels)).
      { intro H. assert (T : full_range wrap (bound nside wrap nest pixels) = true)
          by (apply full_range_spec; auto).
        congruence. }
      unfold width. lra.
  - intros He Hs.
    destruct (full_range wrap (bound nside wrap nest pixels)) eqn:F.
    + rewrite full_lon_range_width. exact Hs.
    + rewrite bound_width. lra.
Qed.

End Facts.

Import Fixtures.

(** Two pixels at the longitudes 359 and 1 with eps_lon = 1, for wrap = 0:
    the window is 360 - 1e-5 wide. *)
Lemma healpix_pixels_range_full_sky_witness :
  exists lon_range lat_range,
    healpix_pixels_range seam_pixel_to_angle seam_radius seam_cosd wrap_180
      1 [0; 1]%Z 0 false = Ok (lon_range, lat_range) /\
    width lon_range == 360 - tiny.
Proof.
  destruct (healpix_pixels_range_full_sky seam_pixel_to_angle seam_radius
              seam_cosd wrap_180 1 [0; 1]%Z 0 false)
    as (lr & la & E & _ & _ & H); [discriminate | vm_compute; discriminate |].
  exists lr, la. split; [exact E |].
  apply (H eq_refl eq_refl). vm_compute. discriminate.
Defined.

(** For the same two pixels the full range is taken at wrap = 0 and at
    wrap = 360, and (wrap + 180) mod 360 is 180 for both: no wrap_values
    makes the lower edge wrap - 180 at both, and with the wrap into
    [-180, 180) the window at wrap = 0 is [-360, -1e-5], not
    [-180, 180 - 1e-5]. *)
Lemma healpix_pixels_range_full_sky_counterexample :
  (~ exists wrap_values : Q -> Q,
       (exists r l, healpix_pixels_range seam_pixel_to_angle seam_radius
                      seam_cosd wrap_values 1 [0; 1]%Z 0 false = Ok (r, l)
                    /\ fst r == 0 - 180) /\
       (exists r l, healpix_pixels_range seam_pixel_to_angle seam_radius
                      seam_cosd wrap_values 1 [0; 1]%Z 360 false = Ok (r, l)
                    /\ fst r == 360 - 180)) /\
  (exists r l, healpix_pixels_range seam_pixel_to_angle seam_radius
                 seam_cosd wrap_180 1 [0; 1]%Z 0 false = Ok (r, l)
               /\ fst r == -360 /\ snd r == 0 - tiny).
Proof.
  split.
  - intros (wv & (r & l & E1 & H1) & (r' & l' & E2 & H2)).
    vm_compute in E1. vm_compute in E2.
    injection E1 as <- _. injection E2 as <- _.
    simpl in H1, H2. lra.
  - eexists; eexists; split; [vm_compute; reflexivity |].
    split; vm_compute; reflexivity.
Qed.

(** The same two pixels: the latitude range is inside [-90, 90] and the
    window is not wider than 360. *)
Lemma healpix_pixels_range_window_witness :
  exists lon_range lat_range,
    healpix_pixels_range seam_pixel_to_angle seam_radius seam_cosd wrap_180
      1 [0; 1]%Z 0 false = Ok (lon_range, lat_range) /\
    -90 <= fst lat_range /\ snd lat_range <= 90 /\ width lon_range <= 360.
Proof.
  destruct (healpix_pixels_range_window seam_pixel_to_angle seam_radius
              seam_cosd wrap_180 1 [0; 1]%Z 0 false)
    as (lr & la & E & H1 & H2 & _ & H3 & _); [discriminate | vm_compute; discriminate |].
  exists lr, la. repeat split; assumption.
Defined.

(** The first and the last pixel of ring 10^7 at nside 2^24: the re-wrapped
    longitudes are 360 - 9e-6 apart, the returned window is the full range,
    360 - 1e-5 wide, which is less. *)
Lemma healpix_pixels_range_window_counterexample :
  let pixels := [199999980000000; 200000019999999]%Z in
  let lon := map fst (map (cap_pixel_to_angle 16777216 false) pixels) in
  exists lon_range lat_range,
    healpix_pixels_range cap_pixel_to_angle cap_radius cap_cosd wrap_180
      16777216 pixels 0 false = Ok (lon_range, lat_range) /\
    width lon_range == 360 - (1 # 100000) /\
    Np.max (lon_wrap 0 lon) - Np.min (lon_wrap 0 lon) == 360 - (9 # 1000000) /\
    width lon_range < Np.max (lon_wrap 0 lon) - Np.min (lon_wrap 0 lon).
Proof.
  cbv zeta.
  eexists; eexists; split; [vm_compute; reflexivity |].
  split; [vm_compute; reflexivity |].
  split; [vm_compute; reflexivity |].
  vm_compute. reflexivity.
Qed.

End PixelsRangeFacts.

(** ** Arrays *)

Module ArrayFacts.

Import HpxUtils.

Lemma bind_ok {A B : Type} (r : result A) (k : A -> result B) (b : B) :
  bind r k = Ok b -> exists a, r = Ok a /\ k a = Ok b.
Proof.
  destruct r as [a | e]; cbn; [intro H; exists a; auto | discriminate].
Qed.

Lemma zip_with_length {A B C : Type} (f : A -> B -> C) (l : list A) (m : list B) :
  length (zip_with f l m) = Nat.min (length l) (length m).
Proof.
  revert m. induction l as [| x l IH]; intros [| y m]; cbn; auto.
Qed.

Lemma zip_with_nth_error {A B C : Type} (f : A -> B -> C) (l : list A) (m : list B) (k : nat) :
  nth_error (zip_with f l m) k =
  match nth_error l k, nth_error m k with
  | Some x, Some y => Some (f x y)
  | _, _ => None
  end.
Proof.
  revert m k. induction l as [| x l IH]; intros [| y m] [| k]; cbn; auto;
    destruct (nth_error l k); reflexivity.
Qed.

Lemma tl_length {A : Type} (l : list A) : length (tl l) = (length l - 1)%nat.
Proof. destruct l; cbn; lia. Qed.

Lemma removelast_length' {A : Type} (l : list A) :
  length (removelast l) = (length l - 1)%nat.
Proof.
  induction l as [| x [| y l] IH]; cbn in *; lia.
Qed.

Lemma Forall_tl {A : Type} (P : A -> Prop) (l : list A) : Forall P l -> Forall P (tl l).
Proof. destruct 1; cbn; auto. Qed.

Lemma Forall_removelast {A : Type} (P : A -> Prop) (l : list A) :
  Forall P l -> Forall P (removelast l).
Proof.
  induction 1 as [| x l Hx Hl IH]; cbn; auto.
  destruct l; auto.
Qed.

Lemma Forall_zip_with {A B C : Type} (f : A -> B -> C) (P : A -> Prop) (Q : B -> Prop)
    (R : C -> Prop) (l : list A) (m : list B) :
  (forall x y, P x -> Q y -> R (f x y)) ->
  Forall P l -> Forall Q m -> Forall R (zip_with f l m).
Proof.
  intros H Hl. revert m. induction Hl as [| x l Hx Hl IH]; intros m Hm; cbn; auto.
  destruct Hm as [| y m Hy Hm]; auto.
Qed.

Lemma well_shaped_amap {A B : Type} (f : A -> B) (a : array2 A) :
  well_shaped a -> well_shaped (amap f a).
Proof.
  intros [H1 H2]. split; cbn.
  - now rewrite length_map.
  - apply Forall_map. eapply Forall_impl; [| exact H2].
    intros row Hr. cbn in *. now rewrite length_map.
Qed.

Lemma well_shaped_amap2 {A B C : Type} (f : A -> B -> C) (a : array2 A) (b : array2 B) :
  well_shaped a -> well_shaped b -> shape a = shape b -> well_shaped (amap2 f a b).
Proof.
  intros [A1 A2] [B1 B2] S. injection S as S1 S2. split; cbn.
  - rewrite zip_with_length. lia.
  - eapply Forall_zip_with; [| exact A2 | exact B2].
    intros x y Hx Hy. cbn in *. rewrite zip_with_length, Hx, Hy, <- S2. apply Nat.min_id.
Qed.

Lemma well_shaped_drop_first {A : Type} (a : array2 A) :
  well_shaped a -> well_shaped (drop_first a).
Proof.
  intros [H1 H2]. split; cbn.
  - rewrite length_map, tl_length. lia.
  - apply Forall_map, Forall_tl. eapply Forall_impl; [| exact H2].
    intros row Hr. cbn in *. rewrite tl_length. lia.
Qed.

Lemma well_shaped_drop_last {A : Type} (a : array2 A) :
  well_shaped a -> well_shaped (drop_last a).
Proof.
  intros [H1 H2]. split; cbn.
  - rewrite length_map, removelast_length'. lia.
  - apply Forall_map, Forall_removelast. eapply Forall_impl; [| exact H2].
    intros row Hr. cbn in *. rewrite removelast_length'. lia.
Qed.

Lemma well_shaped_centers (a : array2 Q) : well_shaped a -> well_shaped (centers a).
Proof.
  intro H. apply well_shaped_amap2.
  - apply well_shaped_drop_first, H.
  - apply well_shaped_drop_last, H.
  - reflexivity.
Qed.

Lemma shape_centers (a : array2 Q) : shape (centers a) = (nrows a - 1, ncols a - 1)%nat.
Proof. reflexivity. Qed.

Lemma linspace_ok (a b : Q) (n : Z) (l : list Q) :
  Np.linspace a b n = Ok l -> (0 <= n)%Z /\ length l = Z.to_nat n.
Proof.
  unfold Np.linspace. destruct (n <? 0)%Z eqn:E; [discriminate |].
  intro H. injection H as <-. rewrite length_map, length_seq.
  apply Z.ltb_ge in E. auto.
Qed.

Lemma linspace_total (a b : Q) (n : Z) :
  (0 <= n)%Z -> exists l, Np.linspace a b n = Ok l.
Proof.
  intro H. unfold Np.linspace. apply Z.ltb_ge in H. rewrite H. eexists; reflexivity.
Qed.

Lemma well_shaped_meshgrid (x y : list Q) :
  well_shaped (fst (meshgrid x y)) /\ well_shaped (snd (meshgrid x y)).
Proof.
  unfold meshgrid, well_shaped; cbn. repeat split.
  - now rewrite length_map.
  - apply Forall_map, Forall_forall. reflexivity.
  - now rewrite length_map.
  - apply Forall_map, Forall_forall. intros v _. now rewrite length_map.
Qed.

Lemma raster_mesh_ok lon_range lat_range xsize aspect lon_raster lat_raster :
  raster_mesh lon_range lat_range xsize aspect = Ok (lon_raster, lat_raster) ->
  (0 <= xsize)%Z /\ (0 <= Np.int (aspect * inject_Z xsize))%Z /\
  shape lon_raster = (mesh_rows xsize aspect, Z.to_nat xsize) /\
  shape lat_raster = (mesh_rows xsize aspect, Z.to_nat xsize) /\
  well_shaped lon_raster /\ well_shaped lat_raster.
Proof.
  unfold raster_mesh. intro H.
  apply bind_ok in H. destruct H as (xs & Hx & H).
  apply bind_ok in H. destruct H as (ys & Hy & H).
  apply linspace_ok in Hx. apply linspace_ok in Hy.
  destruct Hx as [Hx1 Hx2]. destruct Hy as [Hy1 Hy2].
  pose proof (well_shaped_meshgrid xs ys) as [W1 W2].
  injection H as <- <-. unfold shape, mesh_rows; cbn [nrows ncols meshgrid fst snd] in *.
  rewrite <- Hx2, <- Hy2. tauto.
Qed.

Lemma raster_mesh_total lon_range lat_range xsize aspect :
  (0 <= xsize)%Z -> (0 <= Np.int (aspect * inject_Z xsize))%Z ->
  exists m, raster_mesh lon_range lat_range xsize aspect = Ok m.
Proof.
  intros H1 H2. unfold raster_mesh.
  destruct (linspace_total (fst lon_range) (snd lon_range) _ H1) as [xs ->].
  destruct (linspace_total (fst lat_range) (snd lat_range) _ H2) as [ys ->].
  cbn. eexists; reflexivity.
Qed.


Lemma sequence_map_ok {A B : Type} (g : A -> result B) (l : list A) (v : list B) :
  sequence (map g l) = Ok v -> Forall2 (fun x y => g x = Ok y) l v.
Proof.
  revert v. induction l as [| x l IH]; cbn; intros v H.
  - injection H as <-. constructor.
  - apply bind_ok in H. destruct H as (y & Hy & H).
    apply bind_ok in H. destruct H as (ys & Hys & H).
    injection H as <-. constructor; auto.
Qed.

Lemma sequence_map_total {A B : Type} (g : A -> result B) (l : list A) :
  Forall (fun x => exists y, g x = Ok y) l -> exists v, sequence (map g l) = Ok v.
Proof.
  induction 1 as [| x l [y Hy] _ [v IH]]; cbn.
  - eexists; reflexivity.
  - rewrite Hy, IH. cbn. eexists; reflexivity.
Qed.

Lemma Forall2_nth_error_l {A B : Type} (R : A -> B -> Prop) (l : list A) (m : list B)
    (k : nat) (x : A) :
  Forall2 R l m -> nth_error l k = Some x -> exists y, nth_error m k = Some y /\ R x y.
Proof.
  intro H. revert k. induction H as [| a b l m Hab _ IH]; intros [| k] E; cbn in *;
    try discriminate.
  - injection E as <-. eauto.
  - apply IH, E.
Qed.

Lemma Forall2_nth_error_r {A B : Type} (R : A -> B -> Prop) (l : list A) (m : list B)
    (k : nat) (y : B) :
  Forall2 R l m -> nth_error m k = Some y -> exists x, nth_error l k = Some x /\ R x y.
Proof.
  intro H. revert k. induction H as [| a b l m Hab _ IH]; intros [| k] E; cbn in *;
    try discriminate.
  - injection E as <-. eauto.
  - apply IH, E.
Qed.

Lemma Forall2_length' {A B : Type} (R : A -> B -> Prop) (l : list A) (m : list B) :
  Forall2 R l m -> length l = length m.
Proof. induction 1; cbn; congruence. Qed.

Lemma traverse_ok {A B : Type} (g : A -> result B) (a : array2 A) (v : array2 B) :
  traverse g a = Ok v ->
  shape v = shape a /\
  (well_shaped a -> well_shaped v) /\
  (forall r c y, cell v r c = Some y -> exists x, cell a r c = Some x /\ g x = Ok y) /\
  (forall r c x, cell a r c = Some x -> exists y, cell v r c = Some y /\ g x = Ok y).
Proof.
  unfold traverse. intro H. apply bind_ok in H. destruct H as (rows & Hrows & H).
  injection H as <-. apply sequence_map_ok in Hrows.
  split; [reflexivity |]. split; [| split].
  - intros [W1 W2]. split; cbn.
    + rewrite <- (Forall2_length' _ _ _ Hrows). exact W1.
    + clear W1. induction Hrows as [| row row' l m Hr _ IH]; [constructor |].
      inversion W2; subst. constructor; [| auto].
      apply sequence_map_ok, Forall2_length' in Hr. cbn in *. congruence.
  - intros r c y. unfold cell; cbn. destruct (nth_error rows r) as [row' |] eqn:E; [| discriminate].
    destruct (Forall2_nth_error_r _ _ _ _ _ Hrows E) as (row & -> & Hr).
    apply sequence_map_ok in Hr. intro Ey.
    destruct (Forall2_nth_error_r _ _ _ _ _ Hr Ey) as (x & Ex & Hx). eauto.
  - intros r c x. unfold cell; cbn.
    destruct (nth_error (cells a) r) as [row |] eqn:E; [| discriminate].
    destruct (Forall2_nth_error_l _ _ _ _ _ Hrows E) as (row' & -> & Hr).
    apply sequence_map_ok in Hr. intro Ex.
    destruct (Forall2_nth_error_l _ _ _ _ _ Hr Ex) as (y & Ey & Hy). eauto.
Qed.

Lemma traverse_total {A B : Type} (g : A -> result B) (a : array2 A) :
  (forall r c x, cell a r c = Some x -> exists y, g x = Ok y) ->
  exists v, traverse g a = Ok v.
Proof.
  intro H. unfold traverse.
  destruct (sequence_map_total (fun row => sequence (map g row)) (cells a)) as [rows ->].
  - apply Forall_forall. intros row Hrow. apply sequence_map_total.
    apply Forall_forall. intros x Hx.
    apply In_nth_error in Hrow. destruct Hrow as [r Hr].
    apply In_nth_error in Hx. destruct Hx as [c Hc].
    apply (H r c). unfold cell. now rewrite Hr.
  - cbn. eexists; reflexivity.
Qed.

Lemma cell_amap {A B : Type} (f : A -> B) (a : array2 A) (r c : nat) :
  cell (amap f a) r c = option_map f (cell a r c).
Proof.
  unfold cell, amap; cbn. rewrite nth_error_map.
  destruct (nth_error (cells a) r) as [row |]; cbn; [| reflexivity].
  now rewrite nth_error_map.
Qed.

Lemma cell_amap2 {A B C : Type} (f : A -> B -> C) (a : array2 A) (b : array2 B) (r c : nat) :
  cell (amap2 f a b) r c =
  match cell a r c, cell b r c with
  | Some x, Some y => Some (f x y)
  | _, _ => None
  end.
Proof.
  unfold cell, amap2; cbn. rewrite zip_with_nth_error.
  destruct (nth_error (cells a) r) as [ra |]; [| reflexivity].
  destruct (nth_error (cells b) r) as [rb |].
  - apply zip_with_nth_error.
  - destruct (nth_error ra c); reflexivity.
Qed.


End ArrayFacts.

(** ** Sorting and searching *)

Module SearchFacts.

Import HpxUtils ArrayFacts.

(** np.unique *)

Lemma uinsert_In (x y : Z) (l : list Z) : In y (uinsert x l) <-> y = x \/ In y l.
Proof.
  induction l as [| z l IH]; cbn.
  - intuition.
  - destruct (x <? z)%Z eqn:E1; [cbn; intuition |].
    destruct (x =? z)%Z eqn:E2.
    + apply Z.eqb_eq in E2. subst. cbn. intuition.
    + cbn. rewrite IH. intuition.
Qed.

Lemma unique_cons (x : Z) (l : list Z) : unique (x :: l) = uinsert x (unique l).
Proof. reflexivity. Qed.

Lemma unique_In (y : Z) (l : list Z) : In y (unique l) <-> In y l.
Proof.
  induction l as [| x l IH]; [reflexivity |].
  rewrite unique_cons, uinsert_In, IH. cbn. intuition.
Qed.

Lemma uinsert_increasing (x : Z) (l : list Z) : increasing l -> increasing (uinsert x l).
Proof.
  unfold increasing. induction 1 as [| z l Hl IH Hz]; cbn.
  - repeat constructor.
  - destruct (x <? z)%Z eqn:E1.
    + apply Z.ltb_lt in E1. constructor; [constructor; assumption |].
      constructor; [exact E1 |].
      eapply Forall_impl; [| exact Hz]. cbn. intros; lia.
    + destruct (x =? z)%Z eqn:E2; [constructor; assumption |].
      apply Z.ltb_ge in E1. apply Z.eqb_neq in E2.
      constructor; [exact IH |].
      apply Forall_forall. intros y Hy. apply uinsert_In in Hy.
      destruct Hy as [-> | Hy]; [lia |].
      rewrite Forall_forall in Hz. apply Hz, Hy.
Qed.

Lemma unique_increasing (l : list Z) : increasing (unique l).
Proof.
  induction l as [| x l IH]; [constructor |].
  rewrite unique_cons. apply uinsert_increasing, IH.
Qed.

Lemma uinsert_length (x : Z) (l : list Z) :
  increasing l ->
  (In x l /\ length (uinsert x l) = length l) \/
  (~ In x l /\ length (uinsert x l) = S (length l)).
Proof.
  unfold increasing. induction 1 as [| z l Hl IH Hz]; cbn.
  - right. intuition.
  - destruct (x <? z)%Z eqn:E1.
    + apply Z.ltb_lt in E1. right. split; [| reflexivity].
      intros [-> | Hx]; [lia |].
      rewrite Forall_forall in Hz. specialize (Hz _ Hx). lia.
    + destruct (x =? z)%Z eqn:E2.
      * apply Z.eqb_eq in E2. left. auto.
      * apply Z.eqb_neq in E2. cbn.
        destruct IH as [[Hin Hlen] | [Hnin Hlen]]; [left | right]; rewrite Hlen;
          (split; [| reflexivity]); intuition congruence.
Qed.

Lemma unique_length_le (l : list Z) : (length (unique l) <= length l)%nat.
Proof.
  induction l as [| x l IH]; [cbn; lia |].
  rewrite unique_cons. cbn [length].
  destruct (uinsert_length x (unique l) (unique_increasing l)) as [[_ E] | [_ E]]; lia.
Qed.

Lemma unique_length_NoDup (l : list Z) : length (unique l) = length l <-> NoDup l.
Proof.
  induction l as [| x l IH].
  - split; [constructor | reflexivity].
  - rewrite unique_cons. cbn [length].
    pose proof (unique_length_le l) as Hle.
    destruct (uinsert_length x (unique l) (unique_increasing l)) as [[Hin E] | [Hnin E]];
      rewrite E; rewrite unique_In in *.
    + split; [lia |]. intro H. inversion H; subst. contradiction.
    + split.
      * intro H. constructor; [exact Hnin | apply IH; lia].
      * intro H. inversion H; subst. f_equal. now apply IH.
Qed.

(** np.argsort *)

Section Argsort.

Variable key : nat -> Z.

Lemma insert_index_perm (i : nat) (st : list nat) :
  Permutation (insert_index key i st) (i :: st).
Proof.
  induction st as [| j st IH]; cbn; [reflexivity |].
  destruct (key i <=? key j)%Z; [reflexivity |].
  rewrite IH. apply perm_swap.
Qed.

Lemma insert_index_sorted (i : nat) (st : list nat) :
  StronglySorted (by_key key) st -> StronglySorted (by_key key) (insert_index key i st).
Proof.
  induction 1 as [| j st Hst IH Hj]; cbn.
  - repeat constructor.
  - destruct (key i <=? key j)%Z eqn:E.
    + apply Z.leb_le in E. constructor; [constructor; assumption |].
      constructor; [exact E |].
      eapply Forall_impl; [| exact Hj]. unfold by_key. intros; lia.
    + apply Z.leb_gt in E. constructor; [exact IH |].
      apply Forall_forall. intros k Hk.
      apply (Permutation_in _ (insert_index_perm i st)) in Hk.
      destruct Hk as [<- | Hk]; [unfold by_key; lia |].
      rewrite Forall_forall in Hj. apply Hj, Hk.
Qed.

Lemma fold_insert_perm (l : list nat) :
  Permutation (fold_right (insert_index key) [] l) l.
Proof.
  induction l as [| i l IH]; cbn; [reflexivity |].
  rewrite insert_index_perm. now constructor.
Qed.

Lemma fold_insert_sorted (l : list nat) :
  StronglySorted (by_key key) (fold_right (insert_index key) [] l).
Proof.
  induction l as [| i l IH]; cbn; [constructor | apply insert_index_sorted, IH].
Qed.

Lemma sorted_nth (st : list nat) (k1 k2 : nat) :
  StronglySorted (by_key key) st -> (k1 <= k2 < length st)%nat ->
  (key (nth k1 st O) <= key (nth k2 st O))%Z.
Proof.
  intro H. revert k1 k2. induction H as [| j st Hst IH Hj]; intros k1 k2 Hk; cbn in *.
  - lia.
  - destruct k1 as [| k1], k2 as [| k2]; try lia.
    + rewrite Forall_forall in Hj. apply Hj, nth_In. lia.
    + apply IH. lia.
Qed.

End Argsort.

Section Search.

Variable pixels : list Z.

Local Abbreviation n := (length pixels).
Local Abbreviation st := (argsort pixels).
Local Abbreviation key := (sorted_key pixels st).

Lemma argsort_perm : Permutation st (seq 0 n).
Proof. apply fold_insert_perm. Qed.

Lemma argsort_length : length st = n.
Proof. rewrite (Permutation_length argsort_perm). apply length_seq. Qed.

Lemma argsort_lt (k j : nat) : nth_error st k = Some j -> (j < n)%nat.
Proof.
  intro H. apply nth_error_In in H.
  apply (Permutation_in _ argsort_perm) in H. apply in_seq in H. lia.
Qed.

Lemma argsort_complete (j : nat) : (j < n)%nat -> exists k, (k < n)%nat /\ nth k st O = j.
Proof.
  intro H. assert (Hin : In j st).
  { apply (Permutation_in _ (Permutation_sym argsort_perm)). apply in_seq. lia. }
  apply (In_nth _ _ O) in Hin. destruct Hin as (k & Hk & E).
  rewrite argsort_length in Hk. eauto.
Qed.

Lemma key_sorted (k1 k2 : nat) : (k1 <= k2 < n)%nat -> (key k1 <= key k2)%Z.
Proof.
  intro H.
  unfold sorted_key. apply (sorted_nth (fun i => nth i pixels 0%Z) st k1 k2).
  - apply fold_insert_sorted.
  - rewrite argsort_length. exact H.
Qed.

Lemma bisect_left_step (k : nat -> Z) (v : Z) (lo hi fuel : nat) :
  bisect_left k v lo hi (S fuel) =
  if (lo <? hi)%nat then
    if (k (lo + (hi - lo) / 2)%nat <? v)%Z
    then bisect_left k v (S (lo + (hi - lo) / 2)) hi fuel
    else bisect_left k v lo (lo + (hi - lo) / 2) fuel
  else lo.
Proof. reflexivity. Qed.

(** The binary search returns the first position whose key is not below [v]. *)
Lemma bisect_left_spec (v : Z) (fuel lo hi : nat) :
  (lo <= hi <= n)%nat -> (hi - lo <= fuel)%nat ->
  (forall k, (k < lo)%nat -> (key k < v)%Z) ->
  (forall k, (hi <= k < n)%nat -> (v <= key k)%Z) ->
  let r := bisect_left key v lo hi fuel in
  (lo <= r <= hi)%nat /\
  (forall k, (k < r)%nat -> (key k < v)%Z) /\
  (forall k, (r <= k < n)%nat -> (v <= key k)%Z).
Proof.
  revert lo hi. induction fuel as [| fuel IH]; intros lo hi Hb Hf Hlo Hhi r; subst r.
  - cbn. assert (lo = hi) by lia. subst. auto.
  - rewrite bisect_left_step. destruct (lo <? hi)%nat eqn:E.
    + apply Nat.ltb_lt in E.
      pose proof (Nat.div_mod_eq (hi - lo) 2) as Hd.
      pose proof (Nat.mod_upper_bound (hi - lo) 2 ltac:(lia)) as Hm.
      set (mid := (lo + (hi - lo) / 2)%nat) in *.
      assert (Hmid : (lo <= mid < hi)%nat) by (subst mid; lia).
      destruct (key mid <? v)%Z eqn:C.
      * apply Z.ltb_lt in C.
        destruct (IH (S mid) hi) as (R1 & R2 & R3); try lia; auto.
        { intros k Hk. pose proof (key_sorted k mid ltac:(lia)). lia. }
        repeat split; auto; lia.
      * apply Z.ltb_ge in C.
        destruct (IH lo mid) as (R1 & R2 & R3); try lia; auto.
        { intros k Hk. pose proof (key_sorted mid k ltac:(lia)). lia. }
        repeat split; auto; lia.
    + apply Nat.ltb_ge in E. assert (lo = hi) by lia. subst. auto.
Qed.

Lemma searchsorted_spec (v : Z) :
  let r := searchsorted pixels st v in
  (r <= n)%nat /\
  (forall k, (k < r)%nat -> (key k < v)%Z) /\
  (forall k, (r <= k < n)%nat -> (v <= key k)%Z).
Proof.
  unfold searchsorted.
  destruct (bisect_left_spec v n 0 n) as (R1 & R2 & R3);
    [lia | lia | intros k Hk; lia | intros k Hk; lia |].
  repeat split; auto; lia.
Qed.

(** A pixel id of the array is found at the position the search returns. *)
Lemma searchsorted_hit (v : Z) :
  In v pixels ->
  let r := searchsorted pixels st v in
  (r < n)%nat /\ key r = v.
Proof.
  intros Hin r. destruct (searchsorted_spec v) as (R1 & R2 & R3). fold r in R1, R2, R3.
  apply (In_nth _ _ 0%Z) in Hin. destruct Hin as (j & Hj & Ej).
  destruct (argsort_complete j Hj) as (k & Hk & Ek).
  assert (Hkey : key k = v) by (unfold sorted_key; rewrite Ek; exact Ej).
  assert (Hrk : (r <= k)%nat).
  { destruct (Nat.le_gt_cases r k) as [H | H]; [exact H |].
    specialize (R2 k H). lia. }
  split; [lia |].
  pose proof (key_sorted r k ltac:(lia)). pose proof (R3 r ltac:(lia)). lia.
Qed.

Lemma searchsorted_below (v m : Z) :
  In m pixels -> (v <= m)%Z -> (searchsorted pixels st v < n)%nat.
Proof.
  intros Hin Hle. destruct (searchsorted_spec v) as (R1 & R2 & R3).
  destruct (searchsorted_hit m Hin) as (Hr & Hk).
  destruct (Nat.le_gt_cases n (searchsorted pixels st v)) as [H | H]; [| exact H].
  specialize (R2 (searchsorted pixels st m) ltac:(lia)). lia.
Qed.

End Search.

Lemma fold_max_ge (l : list Z) (x : Z) :
  (x <= fold_left Z.max l x)%Z /\ (forall y, In y l -> (y <= fold_left Z.max l x)%Z) /\
  (fold_left Z.max l x = x \/ In (fold_left Z.max l x) l).
Proof.
  revert x. induction l as [| z l IH]; intro x; cbn.
  - split; [lia |]. split; [intros y [] | left; reflexivity].
  - destruct (IH (Z.max x z)) as (H1 & H2 & H3). repeat split.
    + lia.
    + intros y [-> | Hy]; [lia | auto].
    + destruct H3 as [H3 | H3]; [| auto].
      rewrite H3. destruct (Z.max_spec x z) as [[_ ->] | [_ ->]]; auto.
Qed.

Lemma amax_ok (l : list Z) (m : Z) :
  amax l = Ok m -> In m l /\ forall y, In y l -> (y <= m)%Z.
Proof.
  destruct l as [| x l]; cbn; [discriminate |].
  intro H. injection H as <-. destruct (fold_max_ge l x) as (H1 & H2 & H3). split.
  - destruct H3 as [-> | H3]; auto.
  - intros y [<- | Hy]; auto.
Qed.

Lemma amax_total (l : list Z) : l <> [] -> exists m, amax l = Ok m.
Proof. destruct l; [congruence | intros _; eexists; reflexivity]. Qed.

Lemma cell_In_flatten {A : Type} (a : array2 A) (r c : nat) (x : A) :
  cell a r c = Some x -> In x (flatten a).
Proof.
  unfold cell, flatten. destruct (nth_error (cells a) r) as [row |] eqn:E; [| discriminate].
  intro H. apply in_concat. exists row. split; eapply nth_error_In; eauto.
Qed.

End SearchFacts.

(** ** Exceptions *)

Module RaisesFacts.

Import HpxUtils.

Lemma raises_bind {A B : Type} (P : exn -> Prop) (r : result A) (k : A -> result B) :
  raises P r -> (forall a, raises P (k a)) -> raises P (bind r k).
Proof. destruct r; cbn; auto. Qed.

Lemma raises_sequence {A : Type} (P : exn -> Prop) (l : list (result A)) :
  Forall (raises P) l -> raises P (sequence l).
Proof.
  induction 1 as [| r l Hr _ IH]; cbn; [exact I |].
  apply raises_bind; [exact Hr |]. intro a.
  apply raises_bind; [exact IH |]. intro; exact I.
Qed.

Lemma raises_traverse {A B : Type} (P : exn -> Prop) (g : A -> result B) (a : array2 A) :
  (forall x, raises P (g x)) -> raises P (traverse g a).
Proof.
  intro H. unfold traverse. apply raises_bind; [| intro; exact I].
  apply raises_sequence, Forall_map, Forall_forall. intros row _.
  apply raises_sequence, Forall_map, Forall_forall. intros x _. apply H.
Qed.

Lemma raises_of_option {A : Type} (P : exn -> Prop) (e : exn) (o : option A) :
  P e -> raises P (of_option e o).
Proof. destruct o; cbn; auto. Qed.

Lemma raises_linspace (P : exn -> Prop) a b n :
  P ValueError_linspace -> raises P (Np.linspace a b n).
Proof. unfold Np.linspace. destruct (n <? 0)%Z; cbn; auto. Qed.

Lemma raises_raster_mesh (P : exn -> Prop) lon_range lat_range xsize aspect :
  P ValueError_linspace -> raises P (raster_mesh lon_range lat_range xsize aspect).
Proof.
  intro H. unfold raster_mesh.
  apply raises_bind; [apply raises_linspace, H |]. intro xs.
  apply raises_bind; [apply raises_linspace, H |]. intro ys. exact I.
Qed.

Lemma raises_amax (P : exn -> Prop) (l : list Z) :
  P ValueError_empty_reduction -> raises P (amax l).
Proof. destruct l; cbn; auto. Qed.

End RaisesFacts.

(** ** hpxmap_to_xy, hspmap_to_xy and the shapes of the rasters *)

Module RasterFacts.

Import HpxUtils ArrayFacts SearchFacts.

Section RasterFacts.
Variable angle_to_pixel : Z -> bool -> Q -> Q -> Z.
Variable npixel_to_nside : Z -> result Z.
Variable UNSEEN : Q.

Local Abbreviation hpxmap_xy := (hpxmap_to_xy angle_to_pixel npixel_to_nside UNSEEN).

Lemma hpxmap_to_xy_ok hpxmap lon_range lat_range nest xsize aspect lon_raster lat_raster m :
  hpxmap_xy hpxmap lon_range lat_range nest xsize aspect = Ok (lon_raster, lat_raster, m) ->
  exists nside,
    raster_mesh lon_range lat_range xsize aspect = Ok (lon_raster, lat_raster) /\
    npixel_to_nside (Z.of_nat (length hpxmap)) = Ok nside /\
    np_take hpxmap (amap2 (angle_to_pixel nside nest) (centers lon_raster) (centers lat_raster))
    = Ok (data m) /\
    mask m = amap (fun v => isclose v (Finite UNSEEN) || isnan v) (data m).
Proof.
  unfold hpxmap_to_xy. intro H.
  apply bind_ok in H. destruct H as ([lon_r lat_r] & Hm & H).
  apply bind_ok in H. destruct H as (nside & Hn & H).
  apply bind_ok in H. destruct H as (values & Hv & H).
  injection H as <- <- <-. exists nside. cbn. auto.
Qed.

Lemma np_index_total {A : Type} (a : list A) (i : Z) :
  (0 <= i < Z.of_nat (length a))%Z -> exists x, np_index a i = Ok x.
Proof.
  intro H. unfold np_index.
  destruct (Z.leb_spec 0 i); [| lia]. destruct (Z.ltb_spec i (Z.of_nat (length a))); [| lia].
  cbn [andb]. destruct (nth_error a (Z.to_nat i)) as [x |] eqn:E; [cbn; eauto |].
  apply nth_error_None in E. lia.
Qed.

Lemma hpxmap_to_xy_total hpxmap lon_range lat_range nest xsize aspect nside :
  (0 <= xsize)%Z -> (0 <= Np.int (aspect * inject_Z xsize))%Z ->
  npixel_to_nside (Z.of_nat (length hpxmap)) = Ok nside ->
  (forall lon lat, (0 <= angle_to_pixel nside nest lon lat < Z.of_nat (length hpxmap))%Z) ->
  exists lon_raster lat_raster m,
    hpxmap_xy hpxmap lon_range lat_range nest xsize aspect = Ok (lon_raster, lat_raster, m).
Proof.
  intros Hx Hy Hn Hpix. unfold hpxmap_to_xy.
  destruct (raster_mesh_total lon_range lat_range xsize aspect Hx Hy) as [[lon_r lat_r] ->].
  cbn [bind]. rewrite Hn. cbn [bind].
  destruct (traverse_total (np_index hpxmap)
              (amap2 (angle_to_pixel nside nest) (centers lon_r) (centers lat_r)))
    as [values Hv].
  - intros r c i. rewrite cell_amap2.
    destruct (cell (centers lon_r) r c) as [lon |]; [| discriminate].
    destruct (cell (centers lat_r) r c) as [lat |]; [| discriminate].
    intro E. injection E as <-. apply np_index_total, Hpix.
  - unfold np_take. rewrite Hv. cbn [bind]. do 3 eexists. reflexivity.
Qed.

(** C7 (amended): hpxmap_to_xy returns a raster whenever the mesh can be
    built and the pixel lookup stays inside the map; in every raster it
    returns, each cell carries the value fetched for the pixel of its centre,
    and the cell is masked if and only if that value is close to the
    sentinel in the sense of np.isclose (a finite value v with
    |v - UNSEEN| <= 1e-8 + 1e-5 |UNSEEN|) or is a NaN. *)
Theorem hpxmap_to_xy_mask hpxmap lon_range lat_range nest xsize aspect :
  ((0 <= xsize)%Z -> (0 <= Np.int (aspect * inject_Z xsize))%Z ->
   forall nside,
     npixel_to_nside (Z.of_nat (length hpxmap)) = Ok nside ->
     (forall lon lat,
        (0 <= angle_to_pixel nside nest lon lat < Z.of_nat (length hpxmap))%Z) ->
     exists lon_raster lat_raster m,
       hpxmap_to_xy angle_to_pixel npixel_to_nside UNSEEN hpxmap lon_range lat_range
         nest xsize aspect
       = Ok (lon_raster, lat_raster, m)) /\
  (forall lon_raster lat_raster m,
     hpxmap_to_xy angle_to_pixel npixel_to_nside UNSEEN hpxmap lon_range lat_range
       nest xsize aspect
     = Ok (lon_raster, lat_raster, m) ->
     shape (mask m) = shape (data m) /\
     exists nside,
       npixel_to_nside (Z.of_nat (length hpxmap)) = Ok nside /\
       (forall r c lon lat,
          cell (centers lon_raster) r c = Some lon ->
          cell (centers lat_raster) r c = Some lat ->
          exists v,
            np_index hpxmap (angle_to_pixel nside nest lon lat) = Ok v /\
            cell (data m) r c = Some v /\
            cell (mask m) r c = Some (isclose v (Finite UNSEEN) || isnan v)) /\
       (forall r c masked,
          cell (mask m) r c = Some masked ->
          exists lon lat,
            cell (centers lon_raster) r c = Some lon /\
            cell (centers lat_raster) r c = Some lat)).
Proof.
  split.
  - intros Hx Hy nside Hn Hpix. eapply hpxmap_to_xy_total; eassumption.
  - intros lon_raster lat_raster m H.
    apply hpxmap_to_xy_ok in H. destruct H as (nside & Hm & Hn & Hv & Hmask).
    rewrite Hmask. split; [reflexivity |].
    exists nside. split; [exact Hn |].
    apply traverse_ok in Hv. destruct Hv as (_ & _ & Hv3 & Hv4). split.
    + intros r c lon lat Elon Elat.
      destruct (Hv4 r c (angle_to_pixel nside nest lon lat)) as (v & Ev & Hv').
      { rewrite cell_amap2, Elon, Elat. reflexivity. }
      exists v. split; [exact Hv' |]. split; [exact Ev |].
      rewrite cell_amap, Ev. reflexivity.
    + intros r c masked. rewrite cell_amap.
      destruct (cell (data m) r c) as [v |] eqn:Ev; [| discriminate].
      intros _. destruct (Hv3 r c v Ev) as (i & Ei & _).
      rewrite cell_amap2 in Ei.
      destruct (cell (centers lon_raster) r c) as [lon |]; [| discriminate].
      destruct (cell (centers lat_raster) r c) as [lat |]; [| discriminate].
      eauto.
Qed.

End RasterFacts.

Import Fixtures.

(** A one-cell raster over a map at nside 1. *)
Lemma hpxmap_to_xy_mask_witness :
  exists lon_raster lat_raster m,
    hpxmap_to_xy equator_angle_to_pixel hpg_npixel_to_nside hpg_UNSEEN
      near_unseen_map (0, 90) (0, 0) false 2 1 = Ok (lon_raster, lat_raster, m) /\
    shape (mask m) = shape (data m).
Proof.
  destruct (hpxmap_to_xy equator_angle_to_pixel hpg_npixel_to_nside hpg_UNSEEN
              near_unseen_map (0, 90) (0, 0) false 2 1) as [[[lon_r lat_r] m] | e] eqn:E.
  - exists lon_r, lat_r, m. split; [reflexivity |].
    exact (proj1 (proj2 (hpxmap_to_xy_mask equator_angle_to_pixel hpg_npixel_to_nside
                           hpg_UNSEEN near_unseen_map (0, 90) (0, 0) false 2 1)
                    lon_r lat_r m E)).
  - vm_compute in E. discriminate.
Defined.

(** The cell holds -1.6374999e30, which is neither the sentinel -1.6375e30
    nor a NaN, and is masked. *)
Lemma hpxmap_to_xy_mask_counterexample :
  exists lon_raster lat_raster m,
    hpxmap_to_xy equator_angle_to_pixel hpg_npixel_to_nside hpg_UNSEEN
      near_unseen_map (0, 90) (0, 0) false 2 1 = Ok (lon_raster, lat_raster, m) /\
    cell (data m) 0 0 = Some near_unseen /\
    float_eqb near_unseen (Finite hpg_UNSEEN) = false /\
    isnan near_unseen = false /\
    cell (mask m) 0 0 = Some true.
Proof.
  do 3 eexists. split; [vm_compute; reflexivity |].
  repeat split.
Qed.

End RasterFacts.

(** ** healpix_to_xy *)

Module ExplicitPixelsFacts.

Import HpxUtils ArrayFacts SearchFacts RaisesFacts.

Section ExplicitFacts.
Variable angle_to_pixel : Z -> bool -> Q -> Q -> Z.
Variable npixel_to_nside : Z -> result Z.
Variable UNSEEN : Q.
Variable V : Type.
Variable zero : V.

Local Abbreviation to_xy := (healpix_to_xy angle_to_pixel V zero).

Lemma healpix_to_xy_ok nside pixels values lon_range lat_range nest xsize aspect
    lon_raster lat_raster m :
  to_xy nside pixels values lon_range lat_range nest xsize aspect
  = Ok (lon_raster, lat_raster, m) ->
  let pix_raster := amap2 (angle_to_pixel nside nest) (centers lon_raster) (centers lat_raster) in
  let st := argsort pixels in
  exists raster_max pixels_max sorted_pos found,
    NoDup pixels /\
    raster_mesh lon_range lat_range xsize aspect = Ok (lon_raster, lat_raster) /\
    amax (flatten pix_raster) = Ok raster_max /\
    amax pixels = Ok pixels_max /\
    take_nat st (amap (fun q => clamped pixels raster_max pixels_max (searchsorted pixels st q))
                      pix_raster) = Ok sorted_pos /\
    take_nat pixels sorted_pos = Ok found /\
    mask m = amap negb (amap2 Z.eqb found pix_raster) /\
    scatter_values V zero values (amap2 Z.eqb found pix_raster) sorted_pos = Ok (data m).
Proof.
  unfold healpix_to_xy. intro H.
  destruct (length (unique pixels) =? length pixels)%nat eqn:U; [| discriminate].
  apply Nat.eqb_eq, unique_length_NoDup in U. cbn [negb] in H.
  apply bind_ok in H. destruct H as ([lon_r lat_r] & Hm & H).
  apply bind_ok in H. destruct H as (rmax & Hr & H).
  apply bind_ok in H. destruct H as (pmax & Hp & H).
  apply bind_ok in H. destruct H as (spos & Hs & H).
  apply bind_ok in H. destruct H as (found & Hf & H).
  apply bind_ok in H. destruct H as (vals & Hv & H).
  injection H as <- <- <-. cbn zeta.
  exists rmax, pmax, spos, found. repeat split; auto.
  unfold clamped. destruct (pmax <? rmax)%Z; [| exact Hs].
  unfold amap in *. cbn in *. rewrite map_map in Hs.
  erewrite map_ext; [exact Hs |]. intro row. cbn. now rewrite map_map.
Qed.


Lemma of_option_ok {A : Type} (e : exn) (o : option A) (a : A) :
  of_option e o = Ok a -> o = Some a.
Proof. destruct o; cbn; congruence. Qed.

Lemma nth_error_nth' {A : Type} (l : list A) (k : nat) (x d : A) :
  nth_error l k = Some x -> nth k l d = x.
Proof. apply nth_error_nth. Qed.

Lemma NoDup_nth_error_inj (l : list Z) (i j : nat) (x : Z) :
  NoDup l -> nth_error l i = Some x -> nth_error l j = Some x -> i = j.
Proof.
  intros Hnd Hi Hj. apply (proj1 (NoDup_nth_error l) Hnd).
  - apply nth_error_Some. congruence.
  - congruence.
Qed.

(** What one cell of the raster holds. *)
Lemma healpix_to_xy_cell nside pixels values lon_range lat_range nest xsize aspect
    lon_raster lat_raster m r c lon lat :
  to_xy nside pixels values lon_range lat_range nest xsize aspect
  = Ok (lon_raster, lat_raster, m) ->
  cell (centers lon_raster) r c = Some lon ->
  cell (centers lat_raster) r c = Some lat ->
  let q := angle_to_pixel nside nest lon lat in
  exists raster_max pixels_max j p v,
    amax pixels = Ok pixels_max /\
    amax (flatten (amap2 (angle_to_pixel nside nest) (centers lon_raster) (centers lat_raster)))
    = Ok raster_max /\
    nth_error (argsort pixels)
      (clamped pixels raster_max pixels_max (searchsorted pixels (argsort pixels) q)) = Some j /\
    nth_error pixels j = Some p /\
    cell (mask m) r c = Some (negb (p =? q)%Z) /\
    cell (data m) r c = Some v /\
    (if (p =? q)%Z then nth_error values j = Some v else v = zero).
Proof.
  intros H Elon Elat q. apply healpix_to_xy_ok in H. cbn zeta in H.
  destruct H as (rmax & pmax & spos & found & Hnd & Hm & Hr & Hp & Hs & Hf & Hmask & Hv).
  assert (Eq : cell (amap2 (angle_to_pixel nside nest) (centers lon_raster) (centers lat_raster))
                 r c = Some q).
  { rewrite cell_amap2, Elon, Elat. reflexivity. }
  apply traverse_ok in Hs. destruct Hs as (_ & _ & _ & Hs).
  destruct (Hs r c (clamped pixels rmax pmax (searchsorted pixels (argsort pixels) q)))
    as (j & Ej & Hj).
  { rewrite cell_amap, Eq. reflexivity. }
  apply of_option_ok in Hj.
  apply traverse_ok in Hf. destruct Hf as (_ & _ & _ & Hf).
  destruct (Hf r c j Ej) as (p & Ep & Hp'). apply of_option_ok in Hp'.
  apply traverse_ok in Hv. destruct Hv as (_ & _ & _ & Hv).
  destruct (Hv r c ((p =? q)%Z, j)) as (v & Ev & Hv').
  { rewrite (cell_amap2 pair), (cell_amap2 Z.eqb), Ep, Eq, Ej. reflexivity. }
  exists rmax, pmax, j, p, v. repeat split; auto.
  - rewrite Hmask, cell_amap, (cell_amap2 Z.eqb), Ep, Eq. reflexivity.
  - cbn [fst snd] in Hv'. destruct (p =? q)%Z.
    + apply of_option_ok in Hv'. exact Hv'.
    + congruence.
Qed.

(** What the cells of a returned raster hold. *)
Lemma healpix_to_xy_cells nside pixels values lon_range lat_range nest xsize aspect
    lon_raster lat_raster m :
  to_xy nside pixels values lon_range lat_range nest xsize aspect
  = Ok (lon_raster, lat_raster, m) ->
  forall r c lon lat,
    cell (centers lon_raster) r c = Some lon ->
    cell (centers lat_raster) r c = Some lat ->
    let q := angle_to_pixel nside nest lon lat in
    exists masked v,
      cell (mask m) r c = Some masked /\
      cell (data m) r c = Some v /\
      (masked = false <-> In q pixels) /\
      (masked = false ->
       forall j, nth_error pixels j = Some q -> nth_error values j = Some v) /\
      (masked = true -> v = zero).
Proof.
  intros H r c lon lat Elon Elat q.
  destruct (healpix_to_xy_cell _ _ _ _ _ _ _ _ _ _ _ r c lon lat H Elon Elat)
    as (rmax & pmax & j & p & v & Hp & Hr & Hj & Hpj & Hmask & Hdata & Hv).
  fold q in Hj, Hmask, Hv.
  apply healpix_to_xy_ok in H. destruct H as (_ & _ & _ & _ & Hnd & _).
  exists (negb (p =? q)%Z), v. split; [exact Hmask |]. split; [exact Hdata |].
  assert (Hiff : (p =? q)%Z = true <-> In q pixels).
  { split.
    - intro E. apply Z.eqb_eq in E. subst p. eapply nth_error_In, Hpj.
    - intro Hin. apply Z.eqb_eq.
      destruct (searchsorted_hit pixels q Hin) as (Hlt & Hkey).
      assert (Hc : clamped pixels rmax pmax (searchsorted pixels (argsort pixels) q)
                   = searchsorted pixels (argsort pixels) q).
      { unfold clamped. destruct (pmax <? rmax)%Z; [| reflexivity].
        destruct (Nat.eqb_spec (searchsorted pixels (argsort pixels) q) (length pixels));
          [lia | reflexivity]. }
      rewrite Hc in Hj. unfold sorted_key in Hkey.
      rewrite (nth_error_nth' _ _ _ O Hj) in Hkey.
      rewrite (nth_error_nth' _ _ _ 0%Z Hpj) in Hkey. exact Hkey. }
  split; [| split].
  - rewrite negb_false_iff. exact Hiff.
  - intros E j' Hj'. apply negb_false_iff in E. rewrite E in Hv.
    apply Z.eqb_eq in E. subst p.
    now rewrite (NoDup_nth_error_inj pixels j' j q Hnd Hj' Hpj).
  - intro E. apply negb_true_iff in E. rewrite E in Hv. exact Hv.
Qed.

Lemma well_shaped_cell {A : Type} (a : array2 A) (r c : nat) :
  well_shaped a -> (r < nrows a)%nat -> (c < ncols a)%nat -> exists x, cell a r c = Some x.
Proof.
  intros [H1 H2] Hr Hc. unfold cell.
  destruct (nth_error (cells a) r) as [row |] eqn:E.
  - rewrite Forall_forall in H2. specialize (H2 row (nth_error_In _ _ E)). cbn in H2.
    destruct (nth_error row c) as [x |] eqn:E'; [eauto |].
    apply nth_error_None in E'. lia.
  - apply nth_error_None in E. lia.
Qed.

Lemma healpix_to_xy_total nside pixels values lon_range lat_range nest xsize aspect :
  NoDup pixels -> pixels <> [] -> (length pixels <= length values)%nat ->
  (2 <= xsize)%Z -> (2 <= Np.int (aspect * inject_Z xsize))%Z ->
  exists lon_raster lat_raster m,
    to_xy nside pixels values lon_range lat_range nest xsize aspect
    = Ok (lon_raster, lat_raster, m).
Proof.
  intros Hnd Hne Hlen Hx Hy. unfold healpix_to_xy.
  apply unique_length_NoDup, Nat.eqb_eq in Hnd. rewrite Hnd. cbn [negb].
  destruct (raster_mesh_total lon_range lat_range xsize aspect) as [[lon_r lat_r] Hm];
    [lia | lia |].
  rewrite Hm. cbn [bind].
  apply raster_mesh_ok in Hm. destruct Hm as (_ & _ & S1 & S2 & W1 & W2).
  set (pix := amap2 (angle_to_pixel nside nest) (centers lon_r) (centers lat_r)).
  assert (Wp : well_shaped pix).
  { apply well_shaped_amap2; [apply well_shaped_centers, W1 | apply well_shaped_centers, W2 |].
    rewrite !shape_centers. unfold shape in S1, S2. congruence. }
  assert (Sp1 : nrows pix = (mesh_rows xsize aspect - 1)%nat).
  { unfold pix, shape in *; cbn. congruence. }
  assert (Sp2 : ncols pix = (Z.to_nat xsize - 1)%nat).
  { unfold pix, shape in *; cbn. congruence. }
  destruct (well_shaped_cell pix 0 0 Wp) as [q0 Hq0].
  { rewrite Sp1. unfold mesh_rows. lia. }
  { rewrite Sp2. lia. }
  destruct (amax_total (flatten pix)) as [rmax Hr].
  { intro E. apply cell_In_flatten in Hq0. rewrite E in Hq0. contradiction. }
  destruct (amax_total pixels Hne) as [pmax Hp].
  rewrite Hr, Hp. cbn [bind].
  apply amax_ok in Hr. destruct Hr as [_ Hr]. apply amax_ok in Hp. destruct Hp as [Hp _].
  pose proof (argsort_length pixels) as Hst.
  assert (Hn : (0 < length pixels)%nat) by (destruct pixels; [congruence | cbn; lia]).
  set (sub1 := if (pmax <? rmax)%Z then _ else _).
  assert (Hsub : forall r c i, cell sub1 r c = Some i -> (i < length pixels)%nat).
  { intros r c i. subst sub1. destruct (pmax <? rmax)%Z eqn:C.
    - rewrite !cell_amap. destruct (cell pix r c) as [q |]; cbn; [| discriminate].
      intro E. injection E as <-.
      destruct (searchsorted_spec pixels q) as (Hle & _).
      destruct (Nat.eqb_spec (searchsorted pixels (argsort pixels) q) (length pixels)); lia.
    - rewrite cell_amap. destruct (cell pix r c) as [q |] eqn:Eq; cbn; [| discriminate].
      intro E. injection E as <-. apply Z.ltb_ge in C.
      apply (searchsorted_below pixels q pmax Hp).
      specialize (Hr q (cell_In_flatten _ _ _ _ Eq)). lia. }
  destruct (traverse_total (fun i => of_option IndexError (nth_error (argsort pixels) i)) sub1)
    as [spos Hs].
  { intros r c i Hi. apply Hsub in Hi.
    destruct (nth_error (argsort pixels) i) as [j |] eqn:E; [cbn; eauto |].
    apply nth_error_None in E. lia. }
  unfold take_nat at 1. rewrite Hs. cbn [bind].
  assert (Hpos : forall r c j, cell spos r c = Some j -> (j < length pixels)%nat).
  { intros r c j Hj. apply traverse_ok in Hs. destruct Hs as (_ & _ & Hs & _).
    destruct (Hs r c j Hj) as (i & _ & Hi). apply of_option_ok in Hi.
    eapply argsort_lt, Hi. }
  destruct (traverse_total (fun i => of_option IndexError (nth_error pixels i)) spos)
    as [found Hf].
  { intros r c j Hj. apply Hpos in Hj.
    destruct (nth_error pixels j) as [p |] eqn:E; [cbn; eauto |].
    apply nth_error_None in E. lia. }
  unfold take_nat. rewrite Hf. cbn [bind].
  unfold scatter_values.
  destruct (traverse_total
              (fun p : bool * nat =>
                 if fst p then of_option IndexError (nth_error values (snd p)) else Ok zero)
              (amap2 pair (amap2 Z.eqb found pix) spos)) as [vals Hv].
  { intros r c [b j]. rewrite (cell_amap2 pair).
    destruct (cell (amap2 Z.eqb found pix) r c); [| discriminate].
    destruct (cell spos r c) as [j' |] eqn:Ej; [| discriminate].
    intro E. injection E as <- <-. cbn [fst snd]. apply Hpos in Ej.
    destruct b0; [| eauto].
    destruct (nth_error values j') as [v |] eqn:E; [cbn; eauto |].
    apply nth_error_None in E. lia. }
  rewrite Hv. cbn [bind]. do 3 eexists. reflexivity.
Qed.


Lemma healpix_to_xy_cell_center nside pixels values lon_range lat_range nest xsize aspect
    lon_raster lat_raster m r c masked :
  to_xy nside pixels values lon_range lat_range nest xsize aspect
  = Ok (lon_raster, lat_raster, m) ->
  cell (mask m) r c = Some masked ->
  exists lon lat,
    cell (centers lon_raster) r c = Some lon /\ cell (centers lat_raster) r c = Some lat.
Proof.
  intros H. apply healpix_to_xy_ok in H. cbn zeta in H.
  destruct H as (rmax & pmax & spos & found & _ & _ & _ & _ & _ & _ & Hmask & _).
  rewrite Hmask, cell_amap, (cell_amap2 Z.eqb), cell_amap2.
  destruct (cell found r c); [| discriminate].
  destruct (cell (centers lon_raster) r c) as [lon |]; [| discriminate].
  destruct (cell (centers lat_raster) r c) as [lat |]; [| discriminate].
  eauto.
Qed.

(** C4: for a unique pixels array, healpix_to_xy returns a raster (when the
    array is not empty, every pixel has a value and the mesh has at least
    two rows and two columns), and in every raster it returns each cell is
    unmasked if and only if the pixel id of its centre occurs in the pixels
    array; an unmasked cell holds the value paired with that id, and a cell
    whose id is not in the array - whatever place the binary search gave,
    the clamped one included - is masked and holds the zero of np.zeros. *)
Theorem healpix_to_xy_lookup nside pixels values lon_range lat_range nest xsize aspect :
  NoDup pixels ->
  (pixels <> [] -> (length pixels <= length values)%nat ->
   (2 <= xsize)%Z -> (2 <= Np.int (aspect * inject_Z xsize))%Z ->
   exists lon_raster lat_raster m,
     healpix_to_xy angle_to_pixel V zero nside pixels values lon_range lat_range nest xsize aspect
     = Ok (lon_raster, lat_raster, m)) /\
  (forall lon_raster lat_raster m,
     healpix_to_xy angle_to_pixel V zero nside pixels values lon_range lat_range nest xsize aspect
     = Ok (lon_raster, lat_raster, m) ->
     (forall r c masked,
        cell (mask m) r c = Some masked ->
        exists lon lat,
          cell (centers lon_raster) r c = Some lon /\
          cell (centers lat_raster) r c = Some lat) /\
     (forall r c lon lat,
        cell (centers lon_raster) r c = Some lon ->
        cell (centers lat_raster) r c = Some lat ->
        let q := angle_to_pixel nside nest lon lat in
        exists masked v,
          cell (mask m) r c = Some masked /\
          cell (data m) r c = Some v /\
          (masked = false <-> In q pixels) /\
          (masked = false ->
           forall j, nth_error pixels j = Some q -> nth_error values j = Some v) /\
          (masked = true -> v = zero))).
Proof.
  intro Hnd. split.
  - intros Hne Hlen Hx Hy. apply healpix_to_xy_total; assumption.
  - intros lon_raster lat_raster m H. split.
    + intros r c masked. eapply healpix_to_xy_cell_center, H.
    + intros r c lon lat. eapply healpix_to_xy_cells, H.
Qed.

(** C5: a pixels array with a duplicate id makes healpix_to_xy raise the
    validation error whatever its other arguments are (the check precedes
    the mesh, so nothing else is computed or raised), and a unique pixels
    array never raises it. *)
Theorem healpix_to_xy_unique_check nside pixels values lon_range lat_range nest xsize aspect :
  (~ NoDup pixels ->
   healpix_to_xy angle_to_pixel V zero nside pixels values lon_range lat_range nest xsize aspect
   = Raise ValueError_not_unique) /\
  (NoDup pixels ->
   healpix_to_xy angle_to_pixel V zero nside pixels values lon_range lat_range nest xsize aspect
   <> Raise ValueError_not_unique).
Proof.
  split.
  - intro H. unfold healpix_to_xy.
    destruct (length (unique pixels) =? length pixels)%nat eqn:U; [| reflexivity].
    apply Nat.eqb_eq, unique_length_NoDup in U. contradiction.
  - intro H.
    assert (R : raises (fun e => e <> ValueError_not_unique)
                  (to_xy nside pixels values lon_range lat_range nest xsize aspect)).
    { unfold healpix_to_xy.
      apply unique_length_NoDup, Nat.eqb_eq in H. rewrite H. cbn [negb].
      apply raises_bind; [apply raises_raster_mesh; discriminate |]. intros [lon_r lat_r].
      apply raises_bind; [apply raises_amax; discriminate |]. intro rmax.
      apply raises_bind; [apply raises_amax; discriminate |]. intro pmax.
      apply raises_bind.
      { apply raises_traverse. intro i. apply raises_of_option. discriminate. }
      intro spos. apply raises_bind.
      { apply raises_traverse. intro i. apply raises_of_option. discriminate. }
      intro found. apply raises_bind; [| intro; exact I].
      apply raises_traverse. intros [b j]. cbn [fst snd].
      destruct b; [apply raises_of_option; discriminate | exact I]. }
    intro E. rewrite E in R. cbn in R. congruence.
Qed.


End ExplicitFacts.

Import Fixtures.

(** Pixels 5 and 4 with the values 10 and 20, over a raster whose two cells
    fall in the pixels 5 and 6: the first is unmasked and holds 10, the
    second (its search index 2 clamped to 1) is masked. *)
Lemma healpix_to_xy_lookup_witness :
  exists lon_raster lat_raster m,
    healpix_to_xy equator_angle_to_pixel Q 0 1 [5; 4]%Z [10; 20] (0, 180) (0, 0) false 3 1
    = Ok (lon_raster, lat_raster, m) /\
    cell (mask m) 0 0 = Some false /\ cell (data m) 0 0 = Some 10 /\
    cell (mask m) 0 1 = Some true /\ cell (data m) 0 1 = Some 0.
Proof.
  destruct (healpix_to_xy_lookup equator_angle_to_pixel Q 0 1 [5; 4]%Z [10; 20]
              (0, 180) (0, 0) false 3 1) as [T _].
  - repeat constructor; cbn; intuition discriminate.
  - destruct T as (lon_r & lat_r & m & E).
    + discriminate.
    + cbn. lia.
    + lia.
    + vm_compute. discriminate.
    + exists lon_r, lat_r, m. split; [exact E |].
      vm_compute in E. injection E as _ _ <-. vm_compute. repeat split.
Defined.

(** The pixels [4, 4] are refused, even with a negative xsize, which
    np.linspace would refuse; the pixels [5, 4] are not. *)
Lemma healpix_to_xy_unique_check_witness :
  healpix_to_xy equator_angle_to_pixel Q 0 1 [4; 4]%Z [1; 2] (0, 90) (0, 0) false (-1) 1
  = Raise ValueError_not_unique /\
  healpix_to_xy equator_angle_to_pixel Q 0 1 [5; 4]%Z [1; 2] (0, 90) (0, 0) false 3 1
  <> Raise ValueError_not_unique.
Proof.
  split.
  - apply (healpix_to_xy_unique_check equator_angle_to_pixel Q 0 1 [4; 4]%Z).
    intro H. inversion H as [| x l Hx Hl]; subst. apply Hx. left; reflexivity.
  - apply (healpix_to_xy_unique_check equator_angle_to_pixel Q 0 1 [5; 4]%Z).
    repeat constructor; cbn; intuition discriminate.
Defined.

End ExplicitPixelsFacts.

(** ** The shapes of the rasters *)

Module ShapeFacts.

Import HpxUtils ArrayFacts SearchFacts RasterFacts ExplicitPixelsFacts.

Section Shapes.
Variable angle_to_pixel : Z -> bool -> Q -> Q -> Z.
Variable npixel_to_nside : Z -> result Z.
Variable UNSEEN : Q.
Variable V : Type.
Variable zero : V.

Lemma centers_dims xsize aspect lon_raster lat_raster lon_range lat_range :
  raster_mesh lon_range lat_range xsize aspect = Ok (lon_raster, lat_raster) ->
  raster_dims xsize aspect lon_raster lat_raster (shape (centers lon_raster)) /\
  well_shaped (centers lon_raster) /\ well_shaped (centers lat_raster) /\
  shape (centers lon_raster) = shape (centers lat_raster).
Proof.
  intro H. apply raster_mesh_ok in H. destruct H as (_ & _ & S1 & S2 & W1 & W2).
  unfold raster_dims. rewrite !shape_centers.
  injection S1 as R1 C1. injection S2 as R2 C2. unfold shape. rewrite R1, C1, R2, C2.
  split; [tauto |]. auto using well_shaped_centers.
Qed.

Lemma well_shaped_amap2_centers {A : Type} (f : Q -> Q -> A) xsize aspect lon_raster lat_raster
    lon_range lat_range :
  raster_mesh lon_range lat_range xsize aspect = Ok (lon_raster, lat_raster) ->
  well_shaped (amap2 f (centers lon_raster) (centers lat_raster)).
Proof.
  intro H. apply centers_dims in H. destruct H as (_ & W1 & W2 & S).
  apply well_shaped_amap2; assumption.
Qed.

(** C6 (amended): in every raster that hspmap_to_xy, hpxmap_to_xy or
    healpix_to_xy returns, the mesh has int(aspect*xsize) rows (the product
    truncated, not rounded) and xsize columns, and the values array and its
    mask have one row and one column fewer (none when the mesh has none);
    hspmap_to_xy returns whenever xsize and int(aspect*xsize) are not
    negative. *)
Theorem raster_shapes lon_range lat_range xsize aspect lon_raster lat_raster :
  (forall hspmap valid_mask v,
     hspmap_to_xy hspmap lon_range lat_range xsize aspect valid_mask
     = Ok (lon_raster, lat_raster, v) ->
     raster_dims xsize aspect lon_raster lat_raster (raster_shape v) /\
     well_formed_raster v) /\
  (forall hpxmap nest m,
     hpxmap_to_xy angle_to_pixel npixel_to_nside UNSEEN hpxmap lon_range lat_range nest
       xsize aspect = Ok (lon_raster, lat_raster, m) ->
     raster_dims xsize aspect lon_raster lat_raster (shape (data m)) /\ well_masked m) /\
  (forall nside pixels values nest m,
     healpix_to_xy angle_to_pixel V zero nside pixels values lon_range lat_range nest
       xsize aspect = Ok (lon_raster, lat_raster, m) ->
     raster_dims xsize aspect lon_raster lat_raster (shape (data m)) /\ well_masked m) /\
  ((0 <= xsize)%Z -> (0 <= Np.int (aspect * inject_Z xsize))%Z ->
   forall hspmap valid_mask,
   exists lon_r lat_r v,
     hspmap_to_xy hspmap lon_range lat_range xsize aspect valid_mask = Ok (lon_r, lat_r, v)).
Proof.
  split; [| split; [| split]].
  - intros hspmap valid_mask v H. unfold hspmap_to_xy in H.
    apply bind_ok in H. destruct H as ([lon_r lat_r] & Hm & H).
    destruct hspmap as [get | get s | get s]; injection H as <- <- <-;
      pose proof (well_shaped_amap2_centers (fun lon lat => get lon lat valid_mask)
                    _ _ _ _ _ _ Hm) as W;
      apply centers_dims in Hm; destruct Hm as (D & _);
      (split; [exact D |]); cbn; unfold well_masked; cbn [data mask];
      (split; [| split]); auto using well_shaped_amap.
  - intros hpxmap nest m H. apply hpxmap_to_xy_ok in H.
    destruct H as (nside & Hm & _ & Hv & Hmask).
    pose proof (well_shaped_amap2_centers (angle_to_pixel nside nest) _ _ _ _ _ _ Hm) as W.
    apply centers_dims in Hm. destruct Hm as (D & _).
    apply traverse_ok in Hv. destruct Hv as (S & Wv & _).
    split.
    + unfold raster_dims in *. rewrite S. exact D.
    + unfold well_masked. rewrite Hmask. (split; [| split]); auto using well_shaped_amap.
  - intros nside pixels values nest m H. apply healpix_to_xy_ok in H. cbn zeta in H.
    destruct H as (rmax & pmax & spos & found & _ & Hm & _ & _ & Hs & Hf & Hmask & Hv).
    pose proof (well_shaped_amap2_centers (angle_to_pixel nside nest) _ _ _ _ _ _ Hm) as W.
    apply centers_dims in Hm. destruct Hm as (D & _).
    apply traverse_ok in Hs. destruct Hs as (Ss & Ws & _).
    apply traverse_ok in Hf. destruct Hf as (Sf & Wf & _).
    apply traverse_ok in Hv. destruct Hv as (Sv & Wv & _).
    assert (Wsel : well_shaped (amap2 Z.eqb found
                     (amap2 (angle_to_pixel nside nest) (centers lon_raster)
                        (centers lat_raster)))).
    { apply well_shaped_amap2; auto using well_shaped_amap.
      rewrite Sf, Ss. reflexivity. }
    split.
    + unfold raster_dims in *. rewrite Sv.
      replace (shape (amap2 pair _ spos)) with (shape found) by reflexivity.
      rewrite Sf, Ss. exact D.
    + unfold well_masked. rewrite Hmask. split; [| split].
      * apply Wv. apply well_shaped_amap2; auto using well_shaped_amap.
      * apply well_shaped_amap, Wsel.
      * rewrite Sv. reflexivity.
  - intros Hx Hy hspmap valid_mask. unfold hspmap_to_xy.
    destruct (raster_mesh_total lon_range lat_range xsize aspect Hx Hy) as [[lon_r lat_r] ->].
    cbn [bind]. destruct hspmap; do 3 eexists; reflexivity.
Qed.

End Shapes.

Import Fixtures.

(** xsize = 3 and aspect = 1: a 3 x 3 mesh and a 2 x 2 raster. *)
Lemma raster_shapes_witness :
  exists lon_raster lat_raster m,
    hpxmap_to_xy equator_angle_to_pixel hpg_npixel_to_nside hpg_UNSEEN
      near_unseen_map (0, 90) (0, 0) false 3 1 = Ok (lon_raster, lat_raster, m) /\
    shape lon_raster = (3, 3)%nat /\ shape lat_raster = (3, 3)%nat /\
    shape (data m) = (2, 2)%nat.
Proof.
  destruct (hpxmap_to_xy equator_angle_to_pixel hpg_npixel_to_nside hpg_UNSEEN
              near_unseen_map (0, 90) (0, 0) false 3 1) as [[[lon_r lat_r] m] | e] eqn:E.
  - exists lon_r, lat_r, m. split; [reflexivity |].
    destruct (raster_shapes equator_angle_to_pixel hpg_npixel_to_nside hpg_UNSEEN Q 0
                (0, 90) (0, 0) 3 1 lon_r lat_r) as (_ & H & _).
    destruct (H near_unseen_map false m E) as [(S1 & S2 & _ & _ & S3) _].
    rewrite S1, S2, S3. repeat split.
  - vm_compute in E. discriminate.
Defined.

(** xsize = 10 and aspect = 0.875: the mesh has int(8.75) = 8 rows and the
    raster 7, where round(8.75) is 9. *)
Lemma raster_shapes_counterexample :
  exists lon_raster lat_raster m,
    hpxmap_to_xy equator_angle_to_pixel hpg_npixel_to_nside hpg_UNSEEN
      near_unseen_map (0, 90) (0, 0) false 10 (7 # 8) = Ok (lon_raster, lat_raster, m) /\
    nrows lon_raster = 8%nat /\
    nrows (data m) = 7%nat /\
    Spec.mesh_rows 10 (7 # 8) = 9%Z.
Proof.
  do 3 eexists. split; [vm_compute; reflexivity |]. repeat split.
Qed.

End ShapeFacts.

(** ** healpix_bin *)

Module BinFacts.

Import HpxUtils ArrayFacts.

Lemma update_length {A : Type} (f : A -> A) (k : nat) (l : list A) :
  length (update f k l) = length l.
Proof.
  revert k. induction l as [| x l IH]; intros [| k]; cbn; auto.
Qed.

Lemma update_nth_error {A : Type} (f : A -> A) (k k' : nat) (l : list A) :
  nth_error (update f k l) k' =
  if (k =? k')%nat then option_map f (nth_error l k') else nth_error l k'.
Proof.
  revert k k'. induction l as [| x l IH]; intros [| k] [| k']; cbn; auto.
  destruct (k =? k')%nat; reflexivity.
Qed.

Lemma position_ok (n : nat) (i : Z) :
  (0 <= i < Z.of_nat n)%Z -> position n i = Ok (Z.to_nat i).
Proof.
  intro H. unfold position.
  destruct (Z.leb_spec 0 i); [| lia]. destruct (Z.ltb_spec i (Z.of_nat n)); [| lia].
  reflexivity.
Qed.

Lemma add_at_spec {A : Type} (add : A -> A -> A) (idx : list Z) :
  forall (a b : list A),
    Forall (fun i => (0 <= i < Z.of_nat (length a))%Z) idx ->
    exists a',
      add_at add a idx b = Ok a' /\
      length a' = length a /\
      forall (k : nat) (y : A),
        nth_error a k = Some y ->
        nth_error a' k = Some (accumulated add (Z.of_nat k) idx b y).
Proof.
  induction idx as [| i idx IH]; intros a b H.
  - exists a. cbn. auto.
  - destruct b as [| x b].
    + exists a. cbn. auto.
    + inversion H as [| i' idx' Hi Hidx]; subst. cbn [add_at].
      rewrite (position_ok _ _ Hi). cbn [bind].
      destruct (IH (update (fun y => add y x) (Z.to_nat i) a) b) as (a' & E & L & N).
      { rewrite update_length. exact Hidx. }
      exists a'. split; [exact E |]. split; [now rewrite L, update_length |].
      intros k y Hk. cbn [accumulated].
      specialize (N k). rewrite update_nth_error, Hk in N. cbn [option_map] in N.
      destruct (Z.eqb_spec i (Z.of_nat k)) as [-> | Hne].
      * rewrite Nat2Z.id, Nat.eqb_refl in N. apply N. reflexivity.
      * destruct (Nat.eqb_spec (Z.to_nat i) k) as [<- | _].
        -- rewrite Z2Nat.id in Hne; lia.
        -- apply N. reflexivity.
Qed.

Lemma wrap_int32_succ (z : Z) : wrap_int32 (wrap_int32 z + 1) = wrap_int32 (z + 1).
Proof.
  unfold wrap_int32. f_equal.
  replace ((z + 2147483648) mod 4294967296 - 2147483648 + 1 + 2147483648)%Z
    with ((z + 2147483648) mod 4294967296 + 1)%Z by ring.
  replace (z + 1 + 2147483648)%Z with (z + 2147483648 + 1)%Z by ring.
  apply Zplus_mod_idemp_l.
Qed.

Lemma accumulated_count (p : Z) (idx : list Z) (z : Z) :
  accumulated add_int32 p idx (repeat 1%Z (length idx)) (wrap_int32 z)
  = wrap_int32 (z + samples_in idx p).
Proof.
  unfold samples_in. revert z.
  induction idx as [| i idx IH]; intro z; cbn [accumulated length repeat count_occ].
  - f_equal. cbn. lia.
  - destruct (Z.eqb_spec i p) as [-> | Hne].
    + destruct (Z.eq_dec p p) as [_ | N]; [| contradiction].
      unfold add_int32. rewrite wrap_int32_succ, IH. f_equal. lia.
    + destruct (Z.eq_dec i p) as [E | _]; [contradiction |]. apply IH.
Qed.

Lemma accumulated_sum (p : Z) (idx : list Z) (c : list Q) (init : Q) :
  accumulated Qplus p idx c init == init + sum_in idx c p.
Proof.
  revert c init. induction idx as [| i idx IH]; intros [| x c] init; cbn [accumulated sum_in];
    try ring.
  rewrite IH. destruct (i =? p)%Z; ring.
Qed.

Lemma nth_error_repeat' {A : Type} (x : A) (n k : nat) :
  (k < n)%nat -> nth_error (repeat x n) k = Some x.
Proof.
  revert k. induction n as [| n IH]; intros [| k] H; cbn; try lia; auto.
  apply IH. lia.
Qed.

End BinFacts.

Module BinningFacts.

Import HpxUtils ArrayFacts BinFacts Fixtures.

Section BinTheorems.
Variable angle_to_pixel : Z -> bool -> Q -> Q -> Z.
Variable nside_to_npixel : Z -> Z.
Variable UNSEEN : Q.

Local Abbreviation bin := (healpix_bin angle_to_pixel nside_to_npixel UNSEEN).

(** The value of one pixel of the map, from the wrapped counter. *)
Lemma healpix_bin_pixel lon lat C nside nest :
  length lon = length lat ->
  (forall lo la, (0 <= angle_to_pixel nside nest lo la < nside_to_npixel nside)%Z) ->
  match C with Some c => length c = length lon | None => True end ->
  let pix := zip_with (angle_to_pixel nside nest) lon lat in
  exists hpxmap,
    bin lon lat C nside nest = Ok hpxmap /\
    length hpxmap = Z.to_nat (nside_to_npixel nside) /\
    forall p, (0 <= p < nside_to_npixel nside)%Z ->
      let n := wrap_int32 (samples_in pix p) in
      exists v,
        nth_error hpxmap (Z.to_nat p) = Some v /\
        (if (0 <? n)%Z
         then match C with
              | None => v = inject_Z n
              | Some c => v == sum_in pix c p / inject_Z n
              end
         else v = UNSEEN).
Proof.
  intros Hlen Hpix HC pix. unfold healpix_bin. fold pix.
  rewrite Hlen, Nat.eqb_refl. cbn [negb].
  set (npix := Z.to_nat (nside_to_npixel nside)).
  assert (Hidx : forall A (a : list A), length a = npix ->
            Forall (fun i => (0 <= i < Z.of_nat (length a))%Z) pix).
  { intros A a Ha. apply Forall_forall. intros i Hi.
    unfold pix in Hi. clear - Hi Hpix Ha.
    assert (exists lo la, i = angle_to_pixel nside nest lo la) as (lo & la & ->).
    { revert lat Hi. induction lon as [| x l IH]; intros [| y m] Hi; cbn in Hi; try contradiction.
      destruct Hi as [<- | Hi]; eauto. }
    rewrite Ha. unfold npix. specialize (Hpix lo la). lia. }
  destruct (add_at_spec add_int32 pix (repeat 0%Z npix) (repeat 1%Z (length pix)))
    as (count & Ec & Lc & Nc).
  { apply Hidx, repeat_length. }
  rewrite Ec. cbn [bind]. rewrite repeat_length in Lc.
  assert (Lpix : length pix = length lon).
  { unfold pix. rewrite zip_with_length. lia. }
  assert (Hcount : forall p, (0 <= p < nside_to_npixel nside)%Z ->
            nth_error count (Z.to_nat p) = Some (wrap_int32 (samples_in pix p))).
  { intros p Hp. rewrite (Nc (Z.to_nat p) 0%Z).
    - rewrite Z2Nat.id by lia.
      change 0%Z with (wrap_int32 0) at 1. rewrite accumulated_count. reflexivity.
    - apply nth_error_repeat'. unfold npix. lia. }
  destruct C as [c |].
  - unfold broadcast. rewrite Lpix, HC, Nat.eqb_refl. cbn [bind].
    destruct (add_at_spec Qplus pix (repeat 0 npix) c) as (sums & Es & Ls & Ns).
    { apply Hidx, repeat_length. }
    rewrite Es. cbn [bind]. rewrite repeat_length in Ls.
    eexists. split; [reflexivity |]. split.
    + rewrite !zip_with_length, length_map. lia.
    + intros p Hp. cbv zeta. set (n := wrap_int32 (samples_in pix p)).
      specialize (Hcount p Hp). fold n in Hcount.
      specialize (Ns (Z.to_nat p) 0). rewrite Z2Nat.id in Ns by lia.
      assert (Hs : nth_error sums (Z.to_nat p)
                   = Some (accumulated Qplus p pix c 0)).
      { apply Ns, nth_error_repeat'. unfold npix. lia. }
      rewrite zip_with_nth_error, nth_error_map, Hcount. cbn [option_map].
      rewrite zip_with_nth_error, Hs, Hcount.
      eexists. split; [reflexivity |].
      destruct (0 <? n)%Z; [| reflexivity].
      rewrite accumulated_sum. apply Qdiv_comp; [ring | reflexivity].
  - cbn [bind]. eexists. split; [reflexivity |]. split.
    + rewrite zip_with_length, !length_map. lia.
    + intros p Hp. cbv zeta. set (n := wrap_int32 (samples_in pix p)).
      specialize (Hcount p Hp). fold n in Hcount.
      rewrite zip_with_nth_error, !nth_error_map, Hcount. cbn [option_map].
      eexists. split; [reflexivity |].
      destruct (0 <? n)%Z; reflexivity.
Qed.


Lemma wrap_int32_small (z : Z) : (- 2147483648 <= z < 2147483648)%Z -> wrap_int32 z = z.
Proof.
  intro H. unfold wrap_int32. rewrite Z.mod_small; lia.
Qed.

(** C8 (amended): for samples whose pixel ids are valid, healpix_bin
    returns an array with one entry per pixel of the given nside; a pixel
    with no sample holds the unseen sentinel; a pixel with n samples,
    0 < n < 2^31, holds n without per-sample values, and the sum of its
    samples' values divided by n with them (every repeated index
    contributes).  The counter is a 32-bit signed integer, so the statement
    stops below 2^31. *)
Theorem healpix_bin_values lon lat C nside nest :
  length lon = length lat ->
  (forall lo la, (0 <= angle_to_pixel nside nest lo la < nside_to_npixel nside)%Z) ->
  match C with Some c => length c = length lon | None => True end ->
  let pix := zip_with (angle_to_pixel nside nest) lon lat in
  exists hpxmap,
    healpix_bin angle_to_pixel nside_to_npixel UNSEEN lon lat C nside nest = Ok hpxmap /\
    length hpxmap = Z.to_nat (nside_to_npixel nside) /\
    forall p, (0 <= p < nside_to_npixel nside)%Z ->
      exists v,
        nth_error hpxmap (Z.to_nat p) = Some v /\
        (samples_in pix p = 0%Z -> v = UNSEEN) /\
        ((0 < samples_in pix p < 2147483648)%Z ->
         match C with
         | None => v = inject_Z (samples_in pix p)
         | Some c => v == sum_in pix c p / inject_Z (samples_in pix p)
         end).
Proof.
  intros Hlen Hpix HC pix.
  destruct (healpix_bin_pixel lon lat C nside nest Hlen Hpix HC) as (hpxmap & E & L & H).
  exists hpxmap. split; [exact E |]. split; [exact L |].
  intros p Hp. destruct (H p Hp) as (v & Ev & Hv). fold pix in Hv.
  exists v. split; [exact Ev |]. split.
  - intro Z0. rewrite Z0 in Hv. exact Hv.
  - intro Hn. rewrite wrap_int32_small in Hv by lia.
    destruct (Z.ltb_spec 0 (samples_in pix p)); [exact Hv | lia].
Qed.

End BinTheorems.

(** Three samples with the values 1, 2 and 5; the first two fall in pixel 4,
    whose mean is 3/2, none in pixel 0. *)
Lemma healpix_bin_values_witness :
  exists hpxmap,
    healpix_bin equator_angle_to_pixel hpg_nside_to_npixel hpg_UNSEEN
      [0; 0; 90] [0; 0; 0] (Some [1; 2; 5]) 1 false = Ok hpxmap /\
    nth_error hpxmap 0 = Some hpg_UNSEEN /\
    exists v, nth_error hpxmap 4 = Some v /\ v == 3 / 2.
Proof.
  destruct (healpix_bin_values equator_angle_to_pixel hpg_nside_to_npixel hpg_UNSEEN
              [0; 0; 90] [0; 0; 0] (Some [1; 2; 5]) 1 false)
    as (hpxmap & E & _ & H).
  - reflexivity.
  - intros lo la. unfold equator_angle_to_pixel, hpg_nside_to_npixel.
    pose proof (Z.mod_pos_bound (Qfloor ((lo + 45) / 90)) 4). lia.
  - reflexivity.
  - exists hpxmap. split; [exact E |]. split.
    + destruct (H 0%Z) as (v & Ev & Hv & _); [vm_compute; split; congruence |].
      change (Z.to_nat 0) with 0%nat in Ev. rewrite Ev, Hv; reflexivity.
    + destruct (H 4%Z) as (v & Ev & _ & Hv); [vm_compute; split; congruence |].
      change (Z.to_nat 4) with 4%nat in Ev.
      exists v. split; [exact Ev |]. rewrite Hv by (vm_compute; split; reflexivity).
      vm_compute. reflexivity.
Defined.

(** 2^31 samples at one position: the counter of their pixel wraps to -2^31
    and the pixel gets the sentinel. *)
Lemma healpix_bin_values_counterexample :
  let samples := repeat 0 (Z.to_nat 2147483648) in
  let pix := zip_with (equator_angle_to_pixel 1 false) samples samples in
  exists hpxmap,
    healpix_bin equator_angle_to_pixel hpg_nside_to_npixel hpg_UNSEEN
      samples samples None 1 false = Ok hpxmap /\
    samples_in pix 4 = 2147483648%Z /\
    nth_error hpxmap 4 = Some hpg_UNSEEN.
Proof.
  intros samples pix.
  assert (Hpix : pix = repeat 4%Z (Z.to_nat 2147483648)).
  { unfold pix, samples. generalize (Z.to_nat 2147483648). intro n.
    induction n as [| n IH]; [reflexivity |].
    cbn [repeat zip_with]. rewrite IH. reflexivity. }
  assert (Hn : samples_in pix 4 = 2147483648%Z).
  { rewrite Hpix. unfold samples_in. rewrite count_occ_repeat_eq by reflexivity.
    apply Z2Nat.id. lia. }
  destruct (healpix_bin_pixel equator_angle_to_pixel hpg_nside_to_npixel hpg_UNSEEN
              samples samples None 1 false)
    as (hpxmap & E & _ & H).
  - reflexivity.
  - intros lo la. unfold equator_angle_to_pixel, hpg_nside_to_npixel.
    pose proof (Z.mod_pos_bound (Qfloor ((lo + 45) / 90)) 4). lia.
  - exact I.
  - exists hpxmap. split; [exact E |]. split; [exact Hn |].
    destruct (H 4%Z) as (v & Ev & Hv).
    { unfold hpg_nside_to_npixel. lia. }
    fold pix in Hv. rewrite Hn in Hv.
    change (Z.to_nat 4) with 4%nat in Ev. rewrite Ev.
    replace (wrap_int32 2147483648) with (-2147483648)%Z in Hv by reflexivity.
    cbn in Hv. rewrite Hv. reflexivity.
Qed.

End BinningFacts.

(** ** skygrid.py *)

Module GridFacts.

Import HpxUtils SkyGrid Fixtures.

Section C9.
Variable arctan2_degrees : Q -> Q -> Q.

(** C9: for the polyline [(-2,0),(2,0)] and the box [-1,1]x[-1,1] the
    detector returns one left crossing at (-1,0) and one right crossing at
    (1,0), both with angle 0, and no bottom or top crossing; the segment has
    direction (dx, dy) = (4, 0), for which degrees(arctan2(0, 4)) is 0. *)
Theorem horizontal_line_crossings :
  arctan2_degrees 0 4 == 0 ->
  exists l r,
    _find_line_box_crossings arctan2_degrees [(-2, 0); (2, 0)] unit_box
    = [[l]; [r]; []; []] /\
    crossing_eq l (-1) 0 0 /\ crossing_eq r 1 0 0.
Proof.
  intro H.
  eexists; eexists; split; [vm_compute; reflexivity |].
  unfold crossing_eq; cbn [fst snd].
  repeat split; try reflexivity; try exact H.
Qed.
End C9.

(** The same with a concrete angle function. *)
Lemma horizontal_line_crossings_witness :
  exists l r,
    _find_line_box_crossings axis_arctan2_degrees [(-2, 0); (2, 0)] unit_box
    = [[l]; [r]; []; []] /\
    crossing_eq l (-1) 0 0 /\ crossing_eq r 1 0 0.
Proof.
  apply (horizontal_line_crossings axis_arctan2_degrees).
  vm_compute. reflexivity.
Defined.

Section HelperFacts.
Variable cosd : Q -> Q.
Variable arctan2_degrees : Q -> Q -> Q.
Variable proj : Projection -> Q -> list Q -> list Q -> result line.
Variable extreme_finder : Projection -> Q -> Q -> Q -> Q -> Q -> result (Q * Q * Q * Q).
Variable call_locator : Locator -> Q -> Q -> result (list Q * nat * Q).

Local Abbreviation n_grid := (_compute_n_grid_from_extent cosd).
Local Abbreviation upd := (update_lim cosd arctan2_degrees proj extreme_finder call_locator).
Local Abbreviation init := (__init__ cosd arctan2_degrees proj extreme_finder call_locator).
Local Abbreviation aft := (after cosd arctan2_degrees proj extreme_finder call_locator).
Local Abbreviation aft_all := (after_all cosd arctan2_degrees proj extreme_finder call_locator).

(** C3: whenever an override is supplied for either count,
    _compute_n_grid_from_extent raises UnboundLocalError instead of
    returning it: the local variable of that count is only assigned when
    the override is None. *)
Theorem compute_n_grid_override_unbound (extent : Q * Q * Q * Q) (n : Z) (other : option Z) :
  _compute_n_grid_from_extent cosd extent (Some n) other = Raise UnboundLocalError /\
  _compute_n_grid_from_extent cosd extent other (Some n) = Raise UnboundLocalError.
Proof.
  destruct extent as [[[e0 e1] e2] e3]. split.
  - unfold _compute_n_grid_from_extent. destruct other as [m |]; cbn.
    + reflexivity.
    + destruct (Qeq_bool (e3 - e2) 0); [| reflexivity].
      destruct (Qeq_bool _ 0); [reflexivity |].
      destruct (Np.ltb 0 _); reflexivity.
  - unfold _compute_n_grid_from_extent. destruct other as [m |]; reflexivity.
Qed.

Lemma compute_n_grid_default e0 e1 e2 e3 :
  ~ e3 - e2 == 0 ->
  n_grid (e0, e1, e2, e3) None None =
  Ok (Qceiling (Np.clip (Qabs (e1 - e0) * cosd ((e2 + e3) / 2) / (e3 - e2)) (1 # 3) (5 # 3)
                * inject_Z 6), 6%Z).
Proof.
  intro H. unfold _compute_n_grid_from_extent.
  destruct (Qeq_bool (e3 - e2) 0) eqn:E.
  - apply Qeq_bool_iff in E. contradiction.
  - reflexivity.
Qed.

(** The invariant of the public interface: the grid info is filled. *)
Lemma update_lim_keeps axis self :
  initialized self -> initialized (fst (upd axis self)).
Proof.
  unfold initialized, update_lim, _update_grid. intro H.
  destruct (get_xlim axis) as [x1 x2]. destruct (get_ylim axis) as [y1 y2].
  destruct (limits_differ _ _ _ _ _); [| exact H].
  destruct (_compute_n_grid_from_extent _ _ _ _) as [[nlon nlat] | e]; [| exact H].
  destruct (get_grid_info _ _ _ _ _ _ _ _ _) as [gi | e]; cbn; [discriminate | exact H].
Qed.

Lemma update_lim_ok axis self self' u :
  upd axis self = (self', Ok u) ->
  initialized self \/ _old_limits self = None ->
  initialized self'.
Proof.
  unfold initialized, update_lim, _update_grid. 
  destruct (get_xlim axis) as [x1 x2]. destruct (get_ylim axis) as [y1 y2].
  intros E H.
  destruct (limits_differ _ _ _ _ _) eqn:L.
  - destruct (_compute_n_grid_from_extent _ _ _ _) as [[nlon nlat] | e]; [| discriminate].
    destruct (get_grid_info _ _ _ _ _ _ _ _ _) as [gi | e]; cbn in E.
    + injection E as <-. cbn. discriminate.
    + discriminate.
  - injection E as <-. destruct H as [H | H]; [exact H |].
    rewrite H in L. discriminate.
Qed.

Lemma init_initialized axis projection wrap nlon nlat fc self :
  init axis projection wrap nlon nlat fc = Ok self -> initialized self.
Proof.
  unfold __init__. intro E.
  destruct (update_lim _ _ _ _ _ _ _) as [s [u | e]] eqn:U; [| discriminate].
  injection E as <-.
  apply (update_lim_ok _ _ _ _ U). right; reflexivity.
Qed.

Lemma after_keeps c self : initialized self -> initialized (aft c self).
Proof.
  intro H. destruct c; cbn; try exact H.
  - apply update_lim_keeps, H.
  - unfold get_gridlines. destruct (_grid_info self); exact H.
Qed.

Lemma after_all_keeps cs self : initialized self -> initialized (aft_all cs self).
Proof.
  revert self. induction cs as [| c cs IH]; intros self H; cbn.
  - exact H.
  - apply IH, after_keeps, H.
Qed.

Lemma sequence_raises {A : Type} (e0 : exn) (l : list (result A)) :
  Forall (fun r => (exists a, r = Ok a) \/ r = Raise e0) l ->
  (exists v, HpxUtils.sequence l = Ok v) \/ HpxUtils.sequence l = Raise e0.
Proof.
  induction 1 as [| r l Hr _ IH]; cbn.
  - left; eexists; reflexivity.
  - destruct Hr as [[a ->] | ->]; cbn; [| right; reflexivity].
    destruct IH as [[v ->] | ->]; cbn; [left; eexists; reflexivity | right; reflexivity].
Qed.

Lemma cut_all_raises self gls :
  (exists v, cut_all self gls = Ok v) \/ cut_all self gls = Raise IndexError.
Proof.
  unfold cut_all.
  destruct (sequence_raises IndexError (map (_cut_grid_line_jumps self) gls)) as [[v E] | E].
  - apply Forall_forall. intros r Hr. apply in_map_iff in Hr.
    destruct Hr as (gl & <- & _). unfold _cut_grid_line_jumps.
    destruct gl as [| l gl]; [right; reflexivity |].
    destruct (existsb _ _); left; eexists; reflexivity.
  - rewrite E. left; eexists; reflexivity.
  - rewrite E. right; reflexivity.
Qed.

(** C10: after a constructor call that returned, whatever public methods
    are called in whatever order, get_gridlines never raises the "Must first
    call update_lim(axis)" error: the constructor's update_lim compares the
    viewport with the initial None, so it fills the grid info, and no public
    method empties it again. *)
Theorem get_gridlines_never_uninitialized axis projection wrap nlon nlat fc self :
  __init__ cosd arctan2_degrees proj extreme_finder call_locator
    axis projection wrap nlon nlat fc = Ok self ->
  forall (cs : list call) (sel : String.string),
    snd (get_gridlines sel
           (after_all cosd arctan2_degrees proj extreme_finder call_locator cs self))
    <> Raise RuntimeError_update_lim.
Proof.
  intros E cs sel.
  pose proof (after_all_keeps cs self (init_initialized _ _ _ _ _ _ _ E)) as H.
  unfold initialized in H. unfold get_gridlines.
  destruct (_grid_info (aft_all cs self)) as [gi |]; [| congruence].
  cbn [snd].
  destruct (cut_all_raises (aft_all cs self) (lines (lon gi))) as [[v1 E1] | E1];
  destruct (cut_all_raises (aft_all cs self) (lines (lat gi))) as [[v2 E2] | E2];
  rewrite ?E1, ?E2;
  destruct (String.eqb sel "both"%string || String.eqb sel "x"%string);
  destruct (String.eqb sel "both"%string || String.eqb sel "y"%string); cbn; discriminate.
Qed.
End HelperFacts.

(** A helper on a plate carree with the default line counts: the
    constructor returns, and get_gridlines after a further update_lim does
    not raise the error. *)
Lemma get_gridlines_never_uninitialized_witness :
  exists self,
    __init__ flat_cosd axis_arctan2_degrees plate_proj box_extremes two_levels
      zoom_axis cyl 0 None None false = Ok self /\
    snd (get_gridlines "both"%string
           (after_all flat_cosd axis_arctan2_degrees plate_proj box_extremes two_levels
              [CallUpdateLim zoom_axis] self))
    <> Raise RuntimeError_update_lim.
Proof.
  destruct (__init__ flat_cosd axis_arctan2_degrees plate_proj box_extremes two_levels
              zoom_axis cyl 0 None None false) as [self | e] eqn:E.
  - exists self. split; [reflexivity |].
    exact (get_gridlines_never_uninitialized flat_cosd axis_arctan2_degrees plate_proj
             box_extremes two_levels zoom_axis cyl 0 None None false self E
             [CallUpdateLim zoom_axis] "both"%string).
  - vm_compute in E. discriminate.
Defined.


End GridFacts.

(** ** _find_line_box_crossings on any polyline *)

Module CrossingFacts.

Import HpxUtils SkyGrid Fixtures.

Section Facts.
Variable arctan2_degrees : Q -> Q -> Q.

Local Abbreviation side := (side_crossings arctan2_degrees).
Local Abbreviation find := (_find_line_box_crossings arctan2_degrees).

Lemma side_crossings_In swap u0 inside vmin vmax xys c :
  In c (side swap u0 inside vmin vmax xys) ->
  exists a b v,
    In (a, b) (segments xys) /\
    inside (fst (pick swap a)) <> inside (fst (pick swap b)) /\
    fst c = pick swap (u0, v) /\ vmin <= v <= vmax /\
    snd c = arctan2_degrees (snd b - snd a) (fst b - fst a).
Proof.
  unfold side_crossings. intro H. apply in_flat_map in H.
  destruct H as ([a b] & Hseg & H).
  destruct (pick swap a) as [ua va] eqn:Ea. destruct (pick swap b) as [ub vb] eqn:Eb.
  destruct (xorb (inside ua) (inside ub)) eqn:X; [| contradiction].
  destruct (Np.leb vmin _ && Np.leb _ vmax) eqn:B; [| contradiction].
  destruct H as [<- | []]. apply andb_true_iff in B. destruct B as [B1 B2].
  apply NpFacts.leb_spec in B1, B2.
  exists a, b, (va + (u0 - ua) * (vb - va) / (ub - ua)).
  rewrite Ea, Eb. cbn [fst snd]. repeat split; auto.
  intro E. rewrite E in X. now rewrite xorb_nilpotent in X.
Qed.

Lemma flat_map_length_le {A B : Type} (f : A -> list B) (l : list A) :
  (forall x, length (f x) <= 1)%nat -> (length (flat_map f l) <= length l)%nat.
Proof.
  intro H. induction l as [| x l IH]; cbn [flat_map length]; [lia |].
  rewrite length_app. specialize (H x). lia.
Qed.

Lemma side_crossings_length swap u0 inside vmin vmax xys :
  (length (side swap u0 inside vmin vmax xys) <= length xys - 1)%nat.
Proof.
  unfold side_crossings.
  assert (L : (length (segments xys) <= length xys - 1)%nat).
  { unfold segments. rewrite length_combine. destruct xys; cbn [length tl]; lia. }
  etransitivity; [| exact L]. apply flat_map_length_le.
  intros [a b]. destruct (pick swap a), (pick swap b).
  destruct (xorb _ _); [| cbn; lia]. destruct (_ && _); cbn; lia.
Qed.

(** The four lists of [_find_line_box_crossings]. *)
Lemma find_eq xys bbox :
  find xys bbox =
  [side false (fst (bbox_min bbox)) (fun u => Np.ltb (fst (bbox_min bbox)) u)
        (snd (bbox_min bbox)) (snd (bbox_max bbox)) xys;
   side false (fst (bbox_max bbox)) (fun u => Np.ltb u (fst (bbox_max bbox)))
        (snd (bbox_min bbox)) (snd (bbox_max bbox)) xys;
   side true (snd (bbox_min bbox)) (fun u => Np.ltb (snd (bbox_min bbox)) u)
        (fst (bbox_min bbox)) (fst (bbox_max bbox)) xys;
   side true (snd (bbox_max bbox)) (fun u => Np.ltb u (snd (bbox_max bbox)))
        (fst (bbox_min bbox)) (fst (bbox_max bbox)) xys].
Proof.
  unfold _find_line_box_crossings. cbn [flat_map pick app].
  destruct (bbox_min bbox) as [xmin ymin]. destruct (bbox_max bbox) as [xmax ymax].
  reflexivity.
Qed.

Lemma side_crossings_same swap u0 inside vmin vmax xys :
  (forall a b, In (a, b) (segments xys) ->
     inside (fst (pick swap a)) = inside (fst (pick swap b))) ->
  side swap u0 inside vmin vmax xys = [].
Proof.
  intro H. destruct (side swap u0 inside vmin vmax xys) as [| c l] eqn:E; [reflexivity |].
  assert (Hc : In c (side swap u0 inside vmin vmax xys)) by (rewrite E; left; reflexivity).
  apply side_crossings_In in Hc. destruct Hc as (a & b & v & Hs & Hne & _).
  exfalso. apply Hne, H, Hs.
Qed.

Lemma segments_In (xys : list point) (a b : point) :
  In (a, b) (segments xys) -> In a xys /\ In b xys.
Proof.
  unfold segments. intro H. split.
  - eapply in_combine_l, H.
  - apply in_combine_r in H. destruct xys; [contradiction | right; exact H].
Qed.

(** X1: for every polyline and box, _find_line_box_crossings returns four
    lists (left, right, bottom, top).  Every left crossing has the x of the
    left edge and a y within the box, every right crossing the x of the
    right edge, every bottom or top crossing the y of that edge and an x
    within the box; the angle of every crossing is arctan2(dy, dx) of one
    segment of the polyline; and no list has more entries than the
    polyline has segments. *)
Theorem crossings_on_edges xys bbox :
  exists l r b t,
    _find_line_box_crossings arctan2_degrees xys bbox = [l; r; b; t] /\
    (forall c, In c l ->
       fst (fst c) = fst (bbox_min bbox) /\
       snd (bbox_min bbox) <= snd (fst c) <= snd (bbox_max bbox)) /\
    (forall c, In c r ->
       fst (fst c) = fst (bbox_max bbox) /\
       snd (bbox_min bbox) <= snd (fst c) <= snd (bbox_max bbox)) /\
    (forall c, In c b ->
       snd (fst c) = snd (bbox_min bbox) /\
       fst (bbox_min bbox) <= fst (fst c) <= fst (bbox_max bbox)) /\
    (forall c, In c t ->
       snd (fst c) = snd (bbox_max bbox) /\
       fst (bbox_min bbox) <= fst (fst c) <= fst (bbox_max bbox)) /\
    (forall c, In c (l ++ r ++ b ++ t) ->
       exists p q, In (p, q) (segments xys) /\
                   snd c = arctan2_degrees (snd q - snd p) (fst q - fst p)) /\
    Forall (fun s : list crossing => (length s <= length xys - 1)%nat) [l; r; b; t].
Proof.
  rewrite find_eq. do 4 eexists. split; [reflexivity |].
  split; [| split; [| split; [| split; [| split]]]].
  - intros c H. apply side_crossings_In in H.
    destruct H as (p & q & v & _ & _ & -> & Hv & _). cbn. tauto.
  - intros c H. apply side_crossings_In in H.
    destruct H as (p & q & v & _ & _ & -> & Hv & _). cbn. tauto.
  - intros c H. apply side_crossings_In in H.
    destruct H as (p & q & v & _ & _ & -> & Hv & _). cbn. tauto.
  - intros c H. apply side_crossings_In in H.
    destruct H as (p & q & v & _ & _ & -> & Hv & _). cbn. tauto.
  - intros c H. rewrite !in_app_iff in H.
    destruct H as [H | [H | [H | H]]];
      apply side_crossings_In in H; destruct H as (p & q & v & Hs & _ & _ & _ & Ha); eauto.
  - repeat constructor; apply side_crossings_length.
Qed.

(** X2: a polyline of fewer than two points, or one whose points all lie
    strictly inside the box, has no crossing on any side. *)
Theorem crossings_none xys bbox :
  (length xys < 2)%nat \/ Forall (strictly_inside bbox) xys ->
  _find_line_box_crossings arctan2_degrees xys bbox = [[]; []; []; []].
Proof.
  intro H. rewrite find_eq.
  assert (S : forall swap u0 inside vmin vmax,
            (forall p, strictly_inside bbox p -> inside (fst (pick swap p)) = true) ->
            side swap u0 inside vmin vmax xys = []).
  { intros swap u0 inside vmin vmax Hin. apply side_crossings_same.
    intros a b Hs. destruct H as [H | H].
    - exfalso. unfold segments in Hs.
      destruct xys as [| p [| q l]]; cbn in *; try contradiction; lia.
    - rewrite Forall_forall in H. apply segments_In in Hs. destruct Hs as [Ha Hb].
      rewrite (Hin a (H a Ha)), (Hin b (H b Hb)). reflexivity. }
  rewrite !S; [reflexivity | | | |];
    intros p (H1 & H2 & H3 & H4); cbn [pick fst snd]; apply NpFacts.ltb_spec; assumption.
Qed.

End Facts.

(** A segment from the centre of the unit box to (1/2, 1/2). *)
Lemma crossings_none_witness :
  _find_line_box_crossings axis_arctan2_degrees [(0, 0); (1 # 2, 1 # 2)] unit_box
  = [[]; []; []; []].
Proof.
  apply (crossings_none axis_arctan2_degrees). right.
  repeat (apply Forall_cons || apply Forall_nil);
    unfold strictly_inside; vm_compute; repeat split; reflexivity.
Defined.

End CrossingFacts.

(** ** _cut_grid_line_jumps *)

Module CutFacts.

Import HpxUtils SkyGrid.

Lemma cut_eq self l gl :
  _cut_grid_line_jumps self (l :: gl) =
  if existsb (fun j => j) (jumps_of (_delta_cut self) l)
  then Ok [insert_nan l (jumps_of (_delta_cut self) l)]
  else Ok (map (map finite_point) (l :: gl)).
Proof. reflexivity. Qed.

Lemma jumps_of_cons delta a b l :
  jumps_of delta (a :: b :: l) =
  hypot_gt (fst b - fst a) (snd b - snd a) delta :: jumps_of delta (b :: l).
Proof. reflexivity. Qed.

Lemma hypot_gt_false dx dy c :
  hypot_gt dx dy c = false -> 0 <= c /\ dx * dx + dy * dy <= c * c.
Proof.
  unfold hypot_gt. destruct (Np.ltb c 0) eqn:E; [discriminate |].
  apply NpFacts.ltb_false in E. intro H. apply NpFacts.ltb_false in H. auto.
Qed.

Lemma filter_gap_finite (l : line) :
  filter (fun p => negb (is_gap p)) (map finite_point l) = map finite_point l.
Proof.
  induction l as [| a l IH]; cbn; [reflexivity | now rewrite IH].
Qed.

(** Dropping the NaN columns gives the line back. *)
Lemma insert_nan_filter (l : line) (jumps : list bool) :
  filter (fun p => negb (is_gap p)) (insert_nan l jumps) = map finite_point l.
Proof.
  revert jumps. induction l as [| a l IH]; intros [| j jumps]; cbn [insert_nan].
  - reflexivity.
  - reflexivity.
  - apply filter_gap_finite.
  - destruct j; cbn; now rewrite IH.
Qed.

(** There are as many NaN columns as jumps. *)
Lemma insert_nan_gaps delta (l : line) :
  count_occ bool_dec (map is_gap (insert_nan l (jumps_of delta l))) true
  = count_occ bool_dec (jumps_of delta l) true.
Proof.
  induction l as [| a [| b l] IH]; try reflexivity.
  rewrite jumps_of_cons. cbn [insert_nan].
  destruct (hypot_gt _ _ _); cbn [map count_occ is_gap finite_point fst snd isnan andb];
    cbn [count_occ]; destruct (bool_dec _ _); try congruence; cbn in *; rewrite IH; reflexivity.
Qed.

Lemma finite_point_inj (a b : point) : finite_point a = finite_point b -> a = b.
Proof.
  destruct a, b. unfold finite_point; cbn. intro H. injection H as -> ->. reflexivity.
Qed.

Lemma insert_nan_all_false (l : line) (jumps : list bool) :
  existsb (fun j => j) jumps = false -> insert_nan l jumps = map finite_point l.
Proof.
  revert jumps. induction l as [| a l IH]; intros [| j jumps] H; cbn [insert_nan map];
    try reflexivity.
  cbn in H. destruct j; [discriminate |]. cbn in H. now rewrite IH.
Qed.

Lemma insert_nan_cons (a : point) (l : line) (j : bool) (jumps : list bool) :
  insert_nan (a :: l) (j :: jumps) =
  if j then finite_point a :: (NaN, NaN) :: insert_nan l jumps
  else finite_point a :: insert_nan l jumps.
Proof. reflexivity. Qed.

Lemma insert_nan_head delta (a : point) (l : line) :
  exists rest, insert_nan (a :: l) (jumps_of delta (a :: l)) = finite_point a :: rest.
Proof.
  destruct l as [| b l]; [eexists; reflexivity |].
  rewrite jumps_of_cons, insert_nan_cons. destruct (hypot_gt _ _ _); eexists; reflexivity.
Qed.

(** Two neighbouring columns of the cut line that are both finite are the
    ends of a segment of the line that is not a jump. *)
Lemma insert_nan_adjacent delta (l : line) (i : nat) (a b : point) :
  nth_error (insert_nan l (jumps_of delta l)) i = Some (finite_point a) ->
  nth_error (insert_nan l (jumps_of delta l)) (S i) = Some (finite_point b) ->
  In (a, b) (segments l) /\ hypot_gt (fst b - fst a) (snd b - snd a) delta = false.
Proof.
  revert i. induction l as [| a0 [| b0 l] IH]; intros i Ha Hb.
  - destruct i; discriminate.
  - destruct i as [| [| i]]; discriminate.
  - rewrite jumps_of_cons, insert_nan_cons in Ha, Hb.
    destruct (insert_nan_head delta b0 l) as [rest Er].
    set (tail := insert_nan (b0 :: l) (jumps_of delta (b0 :: l))) in *.
    destruct (hypot_gt (fst b0 - fst a0) (snd b0 - snd a0) delta) eqn:J.
    + destruct i as [| [| i]].
      * cbn in Hb. discriminate.
      * cbn in Ha. discriminate.
      * change (nth_error tail i = Some (finite_point a)) in Ha.
        change (nth_error tail (S i) = Some (finite_point b)) in Hb.
        destruct (IH i Ha Hb) as [Hin Hj].
        split; [right; exact Hin | exact Hj].
    + destruct i as [| i].
      * change (nth_error tail 0 = Some (finite_point b)) in Hb.
        rewrite Er in Hb. cbn [nth_error] in Ha, Hb.
        assert (Ea : finite_point a0 = finite_point a) by congruence.
        assert (Eb : finite_point b0 = finite_point b) by congruence.
        apply finite_point_inj in Ea, Eb. subst a0 b0.
        split; [left; reflexivity | exact J].
      * change (nth_error tail i = Some (finite_point a)) in Ha.
        change (nth_error tail (S i) = Some (finite_point b)) in Hb.
        destruct (IH i Ha Hb) as [Hin Hj].
        split; [right; exact Hin | exact Hj].
Qed.

Lemma cut_single self (l : line) :
  _cut_grid_line_jumps self [l] = Ok [insert_nan l (jumps_of (_delta_cut self) l)].
Proof.
  rewrite cut_eq. destruct (existsb _ _) eqn:E; [reflexivity |].
  cbn [map]. now rewrite insert_nan_all_false.
Qed.

(** X3: _cut_grid_line_jumps, given the one-line list [l] that the grid
    info stores, returns one line; dropping its NaN columns gives back the
    points of l in their order, it has as many NaN columns as l has
    segments longer than _delta_cut, and when l has no such segment the
    line is returned as it is. *)
Theorem cut_grid_line_keeps_points self (l : line) :
  exists out,
    _cut_grid_line_jumps self [l] = Ok [out] /\
    filter (fun p => negb (is_gap p)) out = map finite_point l /\
    count_occ bool_dec (map is_gap out) true
    = count_occ bool_dec (jumps_of (_delta_cut self) l) true /\
    (existsb (fun j => j) (jumps_of (_delta_cut self) l) = false ->
     out = map finite_point l).
Proof.
  exists (insert_nan l (jumps_of (_delta_cut self) l)).
  split; [apply cut_single |].
  split; [apply insert_nan_filter |]. split; [apply insert_nan_gaps |].
  apply insert_nan_all_false.
Qed.

(** X4: in the line that _cut_grid_line_jumps returns, two neighbouring
    columns that are both points (no NaN between them) are the two ends of
    a segment of the input line, and that segment is not longer than
    _delta_cut: every longer segment has been cut by a NaN column. *)
Theorem cut_grid_line_separates self (l : line) :
  exists out,
    _cut_grid_line_jumps self [l] = Ok [out] /\
    forall i a b,
      nth_error out i = Some (finite_point a) ->
      nth_error out (S i) = Some (finite_point b) ->
      In (a, b) (segments l) /\
      0 <= _delta_cut self /\
      (fst b - fst a) * (fst b - fst a) + (snd b - snd a) * (snd b - snd a)
      <= _delta_cut self * _delta_cut self.
Proof.
  exists (insert_nan l (jumps_of (_delta_cut self) l)).
  split; [apply cut_single |].
  intros i a b Ha Hb. destruct (insert_nan_adjacent _ _ _ _ _ Ha Hb) as [Hin Hj].
  split; [exact Hin |]. apply hypot_gt_false in Hj. tauto.
Qed.

End CutFacts.

(** ** The grid helper as a state machine *)

Module HelperFacts.

Import HpxUtils SkyGrid Fixtures ArrayFacts.

Section Facts.
Variable cosd : Q -> Q.
Variable arctan2_degrees : Q -> Q -> Q.
Variable proj : Projection -> Q -> list Q -> list Q -> result line.
Variable extreme_finder : Projection -> Q -> Q -> Q -> Q -> Q -> result (Q * Q * Q * Q).
Variable call_locator : Locator -> Q -> Q -> result (list Q * nat * Q).

Local Abbreviation upd := (update_lim cosd arctan2_degrees proj extreme_finder call_locator).
Local Abbreviation info := (get_grid_info arctan2_degrees proj extreme_finder call_locator).
Local Abbreviation init := (__init__ cosd arctan2_degrees proj extreme_finder call_locator).
Local Abbreviation aft := (after cosd arctan2_degrees proj extreme_finder call_locator).
Local Abbreviation aft_all := (after_all cosd arctan2_degrees proj extreme_finder call_locator).

(** What a call of [update_lim] does, case by case. *)
Lemma update_lim_cases axis self :
  let '(x1, x2) := get_xlim axis in
  let '(y1, y2) := get_ylim axis in
  (limits_differ (_old_limits self) x1 x2 y1 y2 = false /\ upd axis self = (self, Ok tt)) \/
  (limits_differ (_old_limits self) x1 x2 y1 y2 = true /\
   ((exists e, _compute_n_grid_from_extent cosd (get_extent axis)
                 (_n_grid_lat_default self) (_n_grid_lon_default self) = Raise e /\
               upd axis self = (self, Raise e)) \/
    (exists n_lon n_lat,
       _compute_n_grid_from_extent cosd (get_extent axis)
         (_n_grid_lat_default self) (_n_grid_lon_default self) = Ok (n_lon, n_lat) /\
       let self1 := set_locators
                      (mkLocator n_lon (Qeq_bool (_wrap self) 180 && negb (_full_circle self)))
                      (mkLocator n_lat true) self in
       ((exists e, info self1 x1 y1 x2 y2 = Raise e /\ upd axis self = (self1, Raise e)) \/
        (exists gi, info self1 x1 y1 x2 y2 = Ok gi /\
                    upd axis self
                    = (set_old_limits (x1, x2, y1, y2) (set_grid_info gi self1), Ok tt)))))).
Proof.
  unfold update_lim, _update_grid.
  destruct (get_xlim axis) as [x1 x2]. destruct (get_ylim axis) as [y1 y2].
  destruct (limits_differ _ _ _ _ _); [right | left; auto]. split; [reflexivity |].
  destruct (_compute_n_grid_from_extent _ _ _ _) as [[nlon nlat] | e]; [right | left; eauto].
  exists nlon, nlat. split; [reflexivity |]. cbn zeta.
  destruct (get_grid_info _ _ _ _ _ _ _ _ _) as [gi | e]; [right | left]; eauto.
Qed.

Lemma limits_differ_false old x1 x2 y1 y2 :
  limits_differ old x1 x2 y1 y2 = false <->
  exists o1 o2 o3 o4,
    old = Some (o1, o2, o3, o4) /\ o1 == x1 /\ o2 == x2 /\ o3 == y1 /\ o4 == y2.
Proof.
  unfold limits_differ. destruct old as [[[[o1 o2] o3] o4] |].
  - rewrite negb_false_iff, !andb_true_iff, !Qeq_bool_iff. split.
    + intros [[[H1 H2] H3] H4]. exists o1, o2, o3, o4. auto.
    + intros (p1 & p2 & p3 & p4 & E & H1 & H2 & H3 & H4). injection E as <- <- <- <-. auto.
  - split; [discriminate |]. intros (p1 & p2 & p3 & p4 & E & _). discriminate.
Qed.

Lemma update_lim_noop axis self :
  limits_differ (_old_limits self) (fst (get_xlim axis)) (snd (get_xlim axis))
    (fst (get_ylim axis)) (snd (get_ylim axis)) = false ->
  upd axis self = (self, Ok tt).
Proof.
  unfold update_lim. destruct (get_xlim axis) as [x1 x2]. destruct (get_ylim axis) as [y1 y2].
  cbn [fst snd]. intros ->. reflexivity.
Qed.

(** X5: after an update_lim that returned, a further update_lim with an
    axis of the same limits returns at once and leaves the helper as it is:
    the grid is not computed again (whatever the extent of that axis). *)
Theorem update_lim_memo axis axis' self self' :
  update_lim cosd arctan2_degrees proj extreme_finder call_locator axis self
  = (self', Ok tt) ->
  same_limits axis axis' ->
  update_lim cosd arctan2_degrees proj extreme_finder call_locator axis' self'
  = (self', Ok tt).
Proof.
  intros H (S1 & S2 & S3 & S4). apply update_lim_noop. apply limits_differ_false.
  pose proof (update_lim_cases axis self) as C.
  destruct (get_xlim axis) as [x1 x2]. destruct (get_ylim axis) as [y1 y2].
  cbn [fst snd] in *.
  destruct C as [[L E] | [L [(e & _ & E) | (nlon & nlat & _ & [(e & _ & E) | (gi & _ & E)])]]];
    rewrite E in H; try discriminate; injection H as <-.
  - apply limits_differ_false in L.
    destruct L as (o1 & o2 & o3 & o4 & Eo & H1 & H2 & H3 & H4).
    exists o1, o2, o3, o4. split; [exact Eo |].
    repeat split; eapply Qeq_trans; eassumption.
  - exists x1, x2, y1, y2. cbn. auto.
Qed.

(** X6: an update_lim that raises leaves the grid info and the remembered
    limits of the helper as they were (only the locators may have been
    replaced), and the same call on the helper it leaves raises the same
    exception again. *)
Theorem update_lim_failure axis self self' e :
  update_lim cosd arctan2_degrees proj extreme_finder call_locator axis self
  = (self', Raise e) ->
  _grid_info self' = _grid_info self /\
  _old_limits self' = _old_limits self /\
  update_lim cosd arctan2_degrees proj extreme_finder call_locator axis self'
  = (self', Raise e).
Proof.
  intro H. pose proof (update_lim_cases axis self) as C.
  pose proof (update_lim_cases axis self') as C'.
  destruct (get_xlim axis) as [x1 x2]. destruct (get_ylim axis) as [y1 y2].
  destruct C as [[L E] | [L [(e1 & Ec & E) | (nlon & nlat & Ec & [(e1 & Ei & E) | (gi & _ & E)])]]];
    rewrite E in H; try discriminate; injection H as <- <-.
  - auto.
  - split; [reflexivity |]. split; [reflexivity |].
    destruct C' as [[L' _] | [_ [(e2 & Ec' & E') | (n1 & n2 & Ec' & C')]]].
    + cbn in L'. congruence.
    + cbn in Ec'. congruence.
    + cbn in Ec'. rewrite Ec in Ec'. injection Ec' as <- <-. cbn zeta in C'.
      destruct C' as [(e2 & Ei' & E') | (gi & Ei' & _)].
      * assert (X : @Raise grid_info e1 = Raise e2) by (rewrite <- Ei; exact Ei').
        injection X as <-. exact E'.
      * assert (X : @Raise grid_info e1 = Ok gi) by (rewrite <- Ei; exact Ei').
        discriminate.
Qed.

(** X7: the constructor called with n_grid_lon_default or
    n_grid_lat_default raises UnboundLocalError, for every axis and
    projection: its update_lim reads a count that
    _compute_n_grid_from_extent never assigned. *)
Theorem init_with_override axis projection wrap nlon nlat fc :
  nlon <> None \/ nlat <> None ->
  __init__ cosd arctan2_degrees proj extreme_finder call_locator
    axis projection wrap nlon nlat fc = Raise UnboundLocalError.
Proof.
  intro H. unfold __init__, update_lim.
  destruct (get_xlim axis) as [x1 x2]. destruct (get_ylim axis) as [y1 y2].
  cbn [limits_differ _old_limits _n_grid_lat_default _n_grid_lon_default].
  assert (E : _compute_n_grid_from_extent cosd (get_extent axis) nlat nlon
              = Raise UnboundLocalError).
  { unfold _compute_n_grid_from_extent.
    destruct (get_extent axis) as [[[e0 e1] e2] e3].
    destruct nlat as [a |], nlon as [b |]; try reflexivity.
    - cbn. destruct (Qeq_bool (e3 - e2) 0); [| reflexivity].
      destruct (Qeq_bool _ 0); [reflexivity |]. destruct (Np.ltb 0 _); reflexivity.
    - destruct H; congruence. }
  rewrite E. reflexivity.
Qed.

Lemma get_gridlines_eq sel self gi :
  _grid_info self = Some gi ->
  snd (get_gridlines sel self) =
  bind (if String.eqb sel "both"%string || String.eqb sel "x"%string
        then cut_all self (lines (lon gi)) else Ok [])
       (fun lon_part =>
          bind (if String.eqb sel "both"%string || String.eqb sel "y"%string
                then cut_all self (lines (lat gi)) else Ok [])
               (fun lat_part => Ok (lon_part ++ lat_part))).
Proof. unfold get_gridlines. intros ->. reflexivity. Qed.

(** X8: on a helper with a grid info, get_gridlines("x") gives the cut
    longitude lines and get_gridlines("y") the cut latitude lines; when both
    return, get_gridlines("both") is the longitude lines followed by the
    latitude lines; any other selector gives the empty list, without an
    error. *)
Theorem get_gridlines_selectors self gi :
  _grid_info self = Some gi ->
  snd (get_gridlines "x"%string self) = cut_all self (lines (lon gi)) /\
  snd (get_gridlines "y"%string self) = cut_all self (lines (lat gi)) /\
  (forall lx ly,
     snd (get_gridlines "x"%string self) = Ok lx ->
     snd (get_gridlines "y"%string self) = Ok ly ->
     snd (get_gridlines "both"%string self) = Ok (lx ++ ly)) /\
  (forall sel,
     sel <> "both"%string -> sel <> "x"%string -> sel <> "y"%string ->
     snd (get_gridlines sel self) = Ok []).
Proof.
  intro G.
  assert (X : snd (get_gridlines "x"%string self) = cut_all self (lines (lon gi))).
  { rewrite (get_gridlines_eq _ _ _ G). cbn [String.eqb Ascii.eqb Bool.eqb orb].
    destruct (cut_all self (lines (lon gi))); cbn; [now rewrite app_nil_r | reflexivity]. }
  assert (Y : snd (get_gridlines "y"%string self) = cut_all self (lines (lat gi))).
  { rewrite (get_gridlines_eq _ _ _ G). cbn [String.eqb Ascii.eqb Bool.eqb orb bind].
    destruct (cut_all self (lines (lat gi))); reflexivity. }
  split; [exact X |]. split; [exact Y |]. split.
  - intros lx ly Hx Hy. rewrite X in Hx. rewrite Y in Hy.
    rewrite (get_gridlines_eq _ _ _ G). cbn [String.eqb Ascii.eqb Bool.eqb orb].
    rewrite Hx, Hy. reflexivity.
  - intros sel H1 H2 H3. rewrite (get_gridlines_eq _ _ _ G).
    apply String.eqb_neq in H1, H2, H3. rewrite H1, H2, H3. reflexivity.
Qed.

Lemma sequence_all_ok {A : Type} (l : list (result A)) (v : list A) :
  Forall2 (fun r x => r = Ok x) l v -> sequence l = Ok v.
Proof.
  induction 1 as [| r x l v -> _ IH]; cbn; [reflexivity | now rewrite IH].
Qed.

Lemma cut_all_one_line_each self (a : axis_info) :
  one_line_each a ->
  exists ls, cut_all self (lines a) = Ok ls /\ length ls = length (lines a).
Proof.
  unfold one_line_each, cut_all. intro H.
  assert (S : exists parts,
            Forall2 (fun r x => r = Ok x) (map (_cut_grid_line_jumps self) (lines a)) parts /\
            length (concat parts) = length (lines a)).
  { induction H as [| gl gls (l & ->) _ (parts & F & L)].
    - exists []. split; [constructor | reflexivity].
    - exists ([insert_nan l (jumps_of (_delta_cut self) l)] :: parts). split.
      + cbn [map]. constructor; [apply CutFacts.cut_single | exact F].
      + cbn. now rewrite L. }
  destruct S as (parts & F & L). rewrite (sequence_all_ok _ _ F). cbn.
  eexists. split; [reflexivity | exact L].
Qed.

Lemma make_axis_info_one_line_each bb levs ls :
  one_line_each (make_axis_info arctan2_degrees bb levs ls).
Proof.
  unfold one_line_each, make_axis_info; cbn [lines].
  apply Forall_map, Forall_forall. intros l _. eauto.
Qed.

(** What a call of [get_grid_info] that returned has done. *)
Lemma get_grid_info_ok self x1 y1 x2 y2 gi :
  info self x1 y1 x2 y2 = Ok gi ->
  exists lon_min lon_max lat_min lat_max loc_lon loc_lat
         lon_levs lon_n lon_f lat_levs lat_n lat_f lon_lines lat_lines,
    extreme_finder (_projection self) (_wrap self) x1 y1 x2 y2
    = Ok (lon_min, lon_max, lat_min, lat_max) /\
    _grid_locator_lon self = Some loc_lon /\
    call_locator loc_lon lon_min lon_max = Ok (lon_levs, lon_n, lon_f) /\
    _grid_locator_lat self = Some loc_lat /\
    call_locator loc_lat lat_min lat_max = Ok (lat_levs, lat_n, lat_f) /\
    _get_raw_grid_lines proj self
      (map (fun l => l / lon_f) (firstn lon_n lon_levs))
      (map (fun l => l / lat_f) (firstn lat_n lat_levs))
      lon_min lon_max lat_min lat_max = Ok (lon_lines, lat_lines) /\
    gi = mkGridInfo (lon_min, lon_max, lat_min, lat_max)
           (make_axis_info arctan2_degrees (tick_box x1 y1 x2 y2) lon_levs lon_lines)
           (make_axis_info arctan2_degrees (tick_box x1 y1 x2 y2) lat_levs lat_lines).
Proof.
  unfold get_grid_info. intro H.
  destruct (extreme_finder _ _ _ _ _ _) as [[[[a b] c] d] |]; [| discriminate]. cbn [bind] in H.
  destruct (_grid_locator_lon self) as [ll |]; [| discriminate]. cbn [bind of_option] in H.
  destruct (call_locator ll a b) as [[[lon_levs lon_n] lon_f] |] eqn:E1; [| discriminate].
  cbn [bind] in H.
  destruct (_grid_locator_lat self) as [la |]; [| discriminate]. cbn [bind of_option] in H.
  destruct (call_locator la c d) as [[[lat_levs lat_n] lat_f] |] eqn:E2; [| discriminate].
  cbn [bind] in H.
  destruct (_get_raw_grid_lines _ _ _ _ _ _ _ _) as [[lon_lines lat_lines] |] eqn:E3;
    [| discriminate].
  cbn [bind] in H. injection H as <-.
  exists a, b, c, d, ll, la, lon_levs, lon_n, lon_f, lat_levs, lat_n, lat_f, lon_lines, lat_lines.
  repeat split; auto.
Qed.

Lemma get_grid_info_one_line_each self x1 y1 x2 y2 gi :
  info self x1 y1 x2 y2 = Ok gi -> one_line_each (lon gi) /\ one_line_each (lat gi).
Proof.
  intro H. apply get_grid_info_ok in H.
  destruct H as (a & b & c & d & ll & la & lon_levs & lon_n & lon_f & lat_levs & lat_n & lat_f
                 & lon_lines & lat_lines & _ & _ & _ & _ & _ & _ & ->).
  cbn [lon lat]. split; apply make_axis_info_one_line_each.
Qed.

Lemma update_lim_well_filled axis self :
  well_filled self -> well_filled (fst (upd axis self)).
Proof.
  intro W. pose proof (update_lim_cases axis self) as C.
  destruct (get_xlim axis) as [x1 x2]. destruct (get_ylim axis) as [y1 y2].
  destruct C as [[L E] | [L [(e1 & Ec & E) | (nlon & nlat & Ec & [(e1 & Ei & E) | (gi & Ei & E)])]]];
    rewrite E; cbn [fst]; try exact W.
  exists gi. split; [reflexivity |]. eapply get_grid_info_one_line_each, Ei.
Qed.

Lemma init_well_filled axis projection wrap nlon nlat fc self :
  init axis projection wrap nlon nlat fc = Ok self -> well_filled self.
Proof.
  unfold __init__. intro H.
  set (s0 := mkHelper _ _ _ _ _ _ _ _ _ _) in H.
  pose proof (update_lim_cases axis s0) as C.
  destruct (get_xlim axis) as [x1 x2]. destruct (get_ylim axis) as [y1 y2].
  destruct C as [[L E] | [L [(e1 & Ec & E) | (n1 & n2 & Ec & [(e1 & Ei & E) | (gi & Ei & E)])]]];
    rewrite E in H; cbn beta iota in H; try discriminate.
  injection H as <-. exists gi. split; [reflexivity |].
  eapply get_grid_info_one_line_each, Ei.
Qed.

Lemma after_well_filled c self : well_filled self -> well_filled (aft c self).
Proof.
  intro W. destruct c; cbn [after]; try exact W.
  - apply update_lim_well_filled, W.
  - unfold get_gridlines. destruct (_grid_info self); exact W.
Qed.

Lemma after_all_well_filled cs self : well_filled self -> well_filled (aft_all cs self).
Proof.
  revert self. induction cs as [| c cs IH]; intros self W; cbn; [exact W |].
  apply IH, after_well_filled, W.
Qed.

(** X9: on a helper that the constructor returned, after any calls of its
    methods, get_gridlines returns a list for every selector and raises
    nothing; for "both" the list has one line for every line of the grid
    info. *)
Theorem get_gridlines_returns axis projection wrap nlon nlat fc self :
  __init__ cosd arctan2_degrees proj extreme_finder call_locator
    axis projection wrap nlon nlat fc = Ok self ->
  forall (cs : list call) (sel : String.string),
    let self' := after_all cosd arctan2_degrees proj extreme_finder call_locator cs self in
    exists gi ls,
      _grid_info self' = Some gi /\
      snd (get_gridlines sel self') = Ok ls /\
      (sel = "both"%string ->
       length ls = (length (lines (lon gi)) + length (lines (lat gi)))%nat).
Proof.
  intros H cs sel self'.
  destruct (after_all_well_filled cs self (init_well_filled _ _ _ _ _ _ _ H))
    as (gi & G & Wlon & Wlat).
  fold self' in G. exists gi.
  destruct (cut_all_one_line_each self' _ Wlon) as (lx & Ex & Lx).
  destruct (cut_all_one_line_each self' _ Wlat) as (ly & Ey & Ly).
  rewrite (get_gridlines_eq _ _ _ G), Ex, Ey.
  destruct (String.eqb sel "both"%string) eqn:B.
  - exists (lx ++ ly). split; [exact G |]. split; [reflexivity |].
    intros _. rewrite length_app. lia.
  - destruct (String.eqb sel "x"%string), (String.eqb sel "y"%string); cbn;
      eexists; (split; [exact G |]); (split; [reflexivity |]);
      intros ->; cbn in B; discriminate.
Qed.

Lemma raw_grid_lines_length self lon_values lat_values lon_min lon_max lat_min lat_max
    lon_lines lat_lines :
  _get_raw_grid_lines proj self lon_values lat_values lon_min lon_max lat_min lat_max
  = Ok (lon_lines, lat_lines) ->
  length lon_lines = length lon_values /\ length lat_lines = length lat_values.
Proof.
  unfold _get_raw_grid_lines. intro H.
  apply bind_ok in H. destruct H as (lons_i & _ & H).
  apply bind_ok in H. destruct H as (lats_i & _ & H).
  apply bind_ok in H. destruct H as (l1 & H1 & H).
  apply bind_ok in H. destruct H as (l2 & H2 & H).
  injection H as <- <-.
  apply sequence_map_ok, Forall2_length' in H1, H2. auto.
Qed.

Lemma add_ticks_on_sides bb levs t l lev :
  ticks_on_sides bb levs t -> In lev levs ->
  ticks_on_sides bb levs (add_ticks arctan2_degrees bb t (l, lev)).
Proof.
  intros (L & R & B & T) Hlev. unfold add_ticks. rewrite CrossingFacts.find_eq. cbn [nth].
  unfold ticks_on_sides; cbn [left right bottom top].
  repeat split; apply Forall_app; (split; [assumption |]);
    apply Forall_map, Forall_forall; intros c Hc; cbn [level loc label];
    apply CrossingFacts.side_crossings_In in Hc;
    destruct Hc as (p & q & v & _ & _ & -> & Hv & _);
    unfold tick_ok; cbn [level label pick fst snd]; auto.
Qed.

Lemma fold_add_ticks_on_sides bb levs entries t :
  ticks_on_sides bb levs t ->
  Forall (fun e : line * Q => In (snd e) levs) entries ->
  ticks_on_sides bb levs (fold_left (add_ticks arctan2_degrees bb) entries t).
Proof.
  revert t. induction entries as [| [l lev] entries IH]; intros t Ht He; cbn [fold_left].
  - exact Ht.
  - inversion He as [| e es Hlev Hes]; subst. apply IH; [| exact Hes].
    apply add_ticks_on_sides; assumption.
Qed.

Lemma make_axis_info_ticks bb levs ls :
  ticks_on_sides bb levs (ticks (make_axis_info arctan2_degrees bb levs ls)).
Proof.
  unfold make_axis_info; cbn [ticks]. apply fold_add_ticks_on_sides.
  - repeat split; constructor.
  - apply Forall_forall. intros [l lev] H. apply in_combine_r in H. exact H.
Qed.

(** X10: a grid info that get_grid_info returned records the extremes of
    the extreme finder; for each of longitude and latitude it holds
    min(n, len(levs)) lines, where (levs, n, factor) is what the locator
    returned for the extremes; and every tick lies on the side of the
    expanded viewport box under which it is filed, within the box along
    that side, with a level among levs and the label "lab". *)
Theorem get_grid_info_contents self x1 y1 x2 y2 gi :
  get_grid_info arctan2_degrees proj extreme_finder call_locator self x1 y1 x2 y2 = Ok gi ->
  exists loc_lon loc_lat lon_levs lon_n lon_f lat_levs lat_n lat_f,
    extreme_finder (_projection self) (_wrap self) x1 y1 x2 y2 = Ok (extremes gi) /\
    _grid_locator_lon self = Some loc_lon /\
    _grid_locator_lat self = Some loc_lat /\
    call_locator loc_lon (fst (fst (fst (extremes gi)))) (snd (fst (fst (extremes gi))))
    = Ok (lon_levs, lon_n, lon_f) /\
    call_locator loc_lat (snd (fst (extremes gi))) (snd (extremes gi))
    = Ok (lat_levs, lat_n, lat_f) /\
    length (lines (lon gi)) = Nat.min lon_n (length lon_levs) /\
    length (lines (lat gi)) = Nat.min lat_n (length lat_levs) /\
    ticks_on_sides (tick_box x1 y1 x2 y2) lon_levs (ticks (lon gi)) /\
    ticks_on_sides (tick_box x1 y1 x2 y2) lat_levs (ticks (lat gi)).
Proof.
  intro H. apply get_grid_info_ok in H.
  destruct H as (a & b & c & d & ll & la & lon_levs & lon_n & lon_f & lat_levs & lat_n & lat_f
                 & lon_lines & lat_lines & E0 & E1 & E2 & E3 & E4 & E5 & ->).
  exists ll, la, lon_levs, lon_n, lon_f, lat_levs, lat_n, lat_f.
  apply raw_grid_lines_length in E5. destruct E5 as [L1 L2].
  rewrite !length_map, !length_firstn in L1, L2.
  cbn [extremes lon lat fst snd].
  split; [exact E0 |]. split; [exact E1 |]. split; [exact E3 |].
  split; [exact E2 |]. split; [exact E4 |].
  split; [unfold make_axis_info; cbn [lines]; now rewrite length_map |].
  split; [unfold make_axis_info; cbn [lines]; now rewrite length_map |].
  split; apply make_axis_info_ticks.
Qed.

Lemma clip_bounds (x lo hi : Q) : lo <= hi -> lo <= Np.clip x lo hi <= hi.
Proof.
  intro H. unfold Np.clip. split.
  - apply Q.min_glb; [apply Q.le_max_r | exact H].
  - apply Q.le_min_r.
Qed.

Lemma ceiling_between (x : Q) (a b : Z) :
  inject_Z a <= x -> x <= inject_Z b -> (a <= Qceiling x <= b)%Z.
Proof.
  intros A B. split.
  - rewrite <- (Qceiling_Z a). apply Qceiling_resp_le, A.
  - rewrite <- (Qceiling_Z b). apply Qceiling_resp_le, B.
Qed.

(** X11: without overrides _compute_n_grid_from_extent gives 6 latitude
    lines and between 2 and 10 longitude lines, whatever the extent; the
    one exception is an extent of no height whose width times the cosine of
    its latitude is zero, for which the ratio is 0/0 and the conversion of
    the NaN to an integer raises. *)
Theorem compute_n_grid_default_counts (e0 e1 e2 e3 : Q) :
  (exists n_grid_lon,
     _compute_n_grid_from_extent cosd (e0, e1, e2, e3) None None = Ok (n_grid_lon, 6%Z) /\
     (2 <= n_grid_lon <= 10)%Z) \/
  (e3 - e2 == 0 /\ Qabs (e1 - e0) * cosd ((e2 + e3) / 2) == 0 /\
   _compute_n_grid_from_extent cosd (e0, e1, e2, e3) None None = Raise ValueError_nan_to_int).
Proof.
  unfold _compute_n_grid_from_extent.
  destruct (Qeq_bool (e3 - e2) 0) eqn:D.
  - apply Qeq_bool_iff in D.
    destruct (Qeq_bool (Qabs (e1 - e0) * cosd ((e2 + e3) / 2)) 0) eqn:N.
    + apply Qeq_bool_iff in N. right. cbn. auto.
    + left. destruct (Np.ltb 0 _); cbn; eexists; (split; [reflexivity |]);
        vm_compute; split; discriminate.
  - left. cbn [bind of_option]. eexists. split; [reflexivity |].
    set (r := Np.clip _ _ _).
    assert (B : (1 # 3) <= r <= (5 # 3)) by (apply clip_bounds; lra).
    clearbody r.
    apply ceiling_between;
      [change (inject_Z 2) with 2 | change (inject_Z 10) with 10];
      change (inject_Z 6) with 6; lra.
Qed.

End Facts.

(** A helper on a plate carree: the second update_lim with the same axis
    changes nothing. *)
Lemma update_lim_memo_witness :
  update_lim flat_cosd axis_arctan2_degrees plate_proj box_extremes two_levels zoom_axis
    (fst (update_lim flat_cosd axis_arctan2_degrees plate_proj box_extremes two_levels
            zoom_axis fresh_helper))
  = (fst (update_lim flat_cosd axis_arctan2_degrees plate_proj box_extremes two_levels
            zoom_axis fresh_helper), Ok tt).
Proof.
  apply (update_lim_memo flat_cosd axis_arctan2_degrees plate_proj box_extremes two_levels
           zoom_axis zoom_axis fresh_helper).
  - vm_compute. reflexivity.
  - repeat split; reflexivity.
Defined.

(** An extreme finder that fails: the update raises, the helper still has
    no grid info and no limits, and the update raises again. *)
Lemma update_lim_failure_witness :
  _grid_info (fst (update_lim flat_cosd axis_arctan2_degrees plate_proj no_extremes
                     two_levels zoom_axis fresh_helper)) = None /\
  _old_limits (fst (update_lim flat_cosd axis_arctan2_degrees plate_proj no_extremes
                      two_levels zoom_axis fresh_helper)) = None /\
  update_lim flat_cosd axis_arctan2_degrees plate_proj no_extremes two_levels zoom_axis
    (fst (update_lim flat_cosd axis_arctan2_degrees plate_proj no_extremes two_levels
            zoom_axis fresh_helper))
  = (fst (update_lim flat_cosd axis_arctan2_degrees plate_proj no_extremes two_levels
            zoom_axis fresh_helper), Raise CollaboratorError).
Proof.
  apply (update_lim_failure flat_cosd axis_arctan2_degrees plate_proj no_extremes two_levels
           zoom_axis fresh_helper
           (fst (update_lim flat_cosd axis_arctan2_degrees plate_proj no_extremes two_levels
                   zoom_axis fresh_helper))
           CollaboratorError).
  vm_compute. reflexivity.
Defined.

(** Five longitude lines asked for. *)
Lemma init_with_override_witness :
  __init__ flat_cosd axis_arctan2_degrees plate_proj box_extremes two_levels
    zoom_axis cyl 0 (Some 5%Z) None false = Raise UnboundLocalError.
Proof.
  apply (init_with_override flat_cosd axis_arctan2_degrees plate_proj box_extremes two_levels).
  left. discriminate.
Defined.

(** A helper that holds one meridian and one parallel. *)
Lemma get_gridlines_selectors_witness :
  snd (get_gridlines "x"%string small_helper)
  = cut_all small_helper (lines (lon small_grid_info)) /\
  snd (get_gridlines "polar"%string small_helper) = Ok [].
Proof.
  destruct (get_gridlines_selectors small_helper small_grid_info eq_refl)
    as (X & _ & _ & N).
  split; [exact X |]. apply N; discriminate.
Defined.

(** A helper on a plate carree with the default line counts, after a
    further update_lim. *)
Lemma get_gridlines_returns_witness :
  exists self,
    __init__ flat_cosd axis_arctan2_degrees plate_proj box_extremes two_levels
      zoom_axis cyl 0 None None false = Ok self /\
    exists ls,
      snd (get_gridlines "both"%string
             (after_all flat_cosd axis_arctan2_degrees plate_proj box_extremes two_levels
                [CallUpdateLim zoom_axis] self)) = Ok ls.
Proof.
  destruct (__init__ flat_cosd axis_arctan2_degrees plate_proj box_extremes two_levels
              zoom_axis cyl 0 None None false) as [self | e] eqn:E.
  - exists self. split; [reflexivity |].
    destruct (get_gridlines_returns flat_cosd axis_arctan2_degrees plate_proj
                box_extremes two_levels zoom_axis cyl 0 None None false self E
                [CallUpdateLim zoom_axis] "both"%string) as (gi & ls & _ & L & _).
    exists ls. exact L.
  - vm_compute in E. discriminate.
Defined.

(** The viewport [0, 50] x [0, 50] on a plate carree. *)
Lemma get_grid_info_contents_witness :
  exists gi,
    get_grid_info axis_arctan2_degrees plate_proj box_extremes two_levels
      located_helper 0 0 50 50 = Ok gi /\
    exists lon_levs lat_levs,
      ticks_on_sides (tick_box 0 0 50 50) lon_levs (ticks (lon gi)) /\
      ticks_on_sides (tick_box 0 0 50 50) lat_levs (ticks (lat gi)).
Proof.
  destruct (get_grid_info axis_arctan2_degrees plate_proj box_extremes two_levels
              located_helper 0 0 50 50) as [gi | e] eqn:E.
  - exists gi. split; [reflexivity |].
    destruct (get_grid_info_contents axis_arctan2_degrees plate_proj box_extremes two_levels
                located_helper 0 0 50 50 gi E)
      as (ll & la & lon_levs & lon_n & lon_f & lat_levs & lat_n & lat_f
          & _ & _ & _ & _ & _ & _ & _ & T1 & T2).
    exists lon_levs, lat_levs. split; assumption.
  - vm_compute in E. discriminate.
Defined.

End HelperFacts.

(** ** healpix_pixels_range: where the window lies *)

Module WrapFacts.

Import HpxUtils Fixtures.

(** [x % 360] lies in [0, 360) and differs from [x] by whole turns. *)
Lemma fmod_360 (x : Q) :
  0 <= Np.fmod x 360 /\ Np.fmod x 360 < 360 /\
  Np.fmod x 360 == x - 360 * inject_Z (Qfloor (x / 360)).
Proof.
  unfold Np.fmod.
  pose proof (Qfloor_le (x / 360)) as L.
  pose proof (Qlt_floor (x / 360)) as U.
  rewrite inject_Z_plus in U. change (inject_Z 1) with 1 in U.
  assert (E : x == 360 * (x / 360)) by (field).
  set (k := inject_Z (Qfloor (x / 360))) in *.
  split; [| split]; [lra | lra | reflexivity].
Qed.

Section Facts.

Variable pixel_to_angle : Z -> bool -> Z -> Q * Q.
Variable max_pixel_radius : Z -> Q.
Variable cosd : Q -> Q.
Variable wrap_values : Q -> Q.

Lemma lon_wrap_In wrap lon l :
  In l (lon_wrap wrap lon) ->
  - wrap <= l /\ l < 360 - wrap /\
  exists l0 k, In l0 lon /\ l == l0 - 360 * inject_Z k.
Proof.
  unfold lon_wrap. intro H. apply in_map_iff in H. destruct H as (l0 & <- & H0).
  destruct (fmod_360 (l0 + wrap)) as (A & B & C).
  split; [lra |]. split; [lra |].
  exists l0, (Qfloor ((l0 + wrap) / 360)). split; [exact H0 |]. rewrite C. ring.
Qed.

Lemma lon_wrap_nil wrap lon : lon_wrap wrap lon = [] -> lon = [].
Proof. unfold lon_wrap. apply map_eq_nil. Qed.

(** X12: for a non-empty pixel set, the longitude range that
    healpix_pixels_range returns is either the full range, or it lies in
    [-wrap - eps_lon, 360 - wrap + eps_lon), is narrower than 359 degrees,
    and its two ends are the longitudes of two of the pixels, moved by
    whole turns, minus and plus eps_lon.  (The cosine of the median
    latitude is taken to be non-zero, so that eps_lon is the quotient of
    the code.) *)
Theorem healpix_pixels_range_lon_window nside pixels wrap nest :
  pixels <> [] ->
  ~ cosd (Np.median (map snd (map (pixel_to_angle nside nest) pixels))) == 0 ->
  let e := eps_lon max_pixel_radius cosd nside
             (map snd (map (pixel_to_angle nside nest) pixels)) in
  exists lon_range lat_range,
    healpix_pixels_range pixel_to_angle max_pixel_radius cosd wrap_values
      nside pixels wrap nest = Ok (lon_range, lat_range) /\
    (lon_range = full_lon_range wrap_values wrap \/
     (- wrap - e <= fst lon_range /\ snd lon_range < 360 - wrap + e /\
      width lon_range < 359 /\
      exists p q k j,
        In p pixels /\ In q pixels /\
        fst lon_range == fst (pixel_to_angle nside nest p) - 360 * inject_Z k - e /\
        snd lon_range == fst (pixel_to_angle nside nest q) - 360 * inject_Z j + e)).
Proof.
  intros Hne _ e.
  rewrite (PixelsRangeFacts.pixels_range_eq _ _ _ _ _ _ _ _ Hne).
  eexists; eexists; split; [reflexivity |].
  destruct (full_range wrap _) eqn:F; [left; reflexivity | right].
  set (lons := map fst (map (pixel_to_angle nside nest) pixels)) in *.
  assert (Hl : lon_wrap wrap lons <> []).
  { intro E. apply lon_wrap_nil in E. unfold lons in E.
    apply map_eq_nil, map_eq_nil in E. contradiction. }
  pose proof (NpFacts.min_In _ Hl) as Hmin. pose proof (NpFacts.max_In _ Hl) as Hmax.
  apply lon_wrap_In in Hmin, Hmax.
  destruct Hmin as (A1 & A2 & l0 & k & Hl0 & Ek).
  destruct Hmax as (B1 & B2 & l1 & j & Hl1 & Ej).
  unfold lon_bound. cbn [fst snd]. fold e. unfold width. cbn [fst snd].
  refine (conj _ (conj _ (conj _ _))); [lra | lra | |].
  - match goal with |- ?w < 359 => destruct (Qlt_le_dec w 359) as [W | W]; [exact W |] end.
    exfalso. assert (T : full_range wrap (lon_bound max_pixel_radius cosd nside wrap lons
       (map snd (map (pixel_to_angle nside nest) pixels))) = true).
    { apply (PixelsRangeFacts.full_range_spec cosd wrap_values). right; right.
      unfold lon_bound. cbn [fst snd]. exact W. }
    congruence.
  - unfold lons in Hl0, Hl1. rewrite map_map in Hl0, Hl1.
    apply in_map_iff in Hl0, Hl1.
    destruct Hl0 as (p & <- & Hp). destruct Hl1 as (q & <- & Hq).
    exists p, q, k, j. repeat split; auto; lra.
Qed.

End Facts.

(** One pixel at longitude 1 with eps_lon = 1, for wrap = 0: the window
    is [0, 2]. *)
Lemma healpix_pixels_range_lon_window_witness :
  exists lon_range lat_range,
    healpix_pixels_range seam_pixel_to_angle seam_radius seam_cosd wrap_180
      1 [1]%Z 0 false = Ok (lon_range, lat_range) /\
    (lon_range = full_lon_range wrap_180 0 \/ width lon_range < 359).
Proof.
  destruct (healpix_pixels_range_lon_window seam_pixel_to_angle seam_radius
              seam_cosd wrap_180 1 [1]%Z 0 false)
    as (lr & la & E & H); [discriminate | vm_compute; discriminate |].
  exists lr, la. split; [exact E |].
  destruct H as [H | (_ & _ & H & _)]; [left; exact H | right; exact H].
Defined.

End WrapFacts.

(** ** The mesh and its centres *)

Module MeshFacts.

Import HpxUtils ArrayFacts.

Lemma linspace_nth (a b : Q) (n : Z) (l : list Q) (i : nat) :
  Np.linspace a b n = Ok l -> (i < Z.to_nat n)%nat ->
  nth_error l i = Some (linspace_node (a, b) n i).
Proof.
  unfold Np.linspace. destruct (n <? 0)%Z; [discriminate |].
  intros H Hi. injection H as <-.
  rewrite nth_error_map, nth_error_seq.
  destruct (Nat.ltb_spec i (Z.to_nat n)) as [_ | C]; [reflexivity | lia].
Qed.

Lemma cell_meshgrid (x y : list Q) (r c : nat) (u v : Q) :
  nth_error x c = Some u -> nth_error y r = Some v ->
  cell (fst (meshgrid x y)) r c = Some u /\ cell (snd (meshgrid x y)) r c = Some v.
Proof.
  intros Hx Hy. unfold cell, meshgrid; cbn [fst snd cells].
  rewrite !nth_error_map, Hy. cbn [option_map]. rewrite nth_error_map, Hx. auto.
Qed.

Lemma nth_error_tl {A : Type} (l : list A) (i : nat) : nth_error (tl l) i = nth_error l (S i).
Proof. destruct l; [destruct i |]; reflexivity. Qed.

Lemma nth_error_removelast {A : Type} (l : list A) (i : nat) :
  (S i < length l)%nat -> nth_error (removelast l) i = nth_error l i.
Proof.
  revert i. induction l as [| x [| y l] IH]; intros i H; cbn in H; try lia.
  destruct i as [| i]; [reflexivity |].
  change (nth_error (removelast (y :: l)) i = nth_error (y :: l) i).
  apply IH. cbn. lia.
Qed.

Lemma cell_drop_first {A : Type} (a : array2 A) (r c : nat) :
  cell (drop_first a) r c = cell a (S r) (S c).
Proof.
  unfold cell, drop_first; cbn [cells].
  rewrite nth_error_map, nth_error_tl.
  destruct (nth_error (cells a) (S r)); cbn; [apply nth_error_tl | reflexivity].
Qed.

Lemma cell_drop_last {A : Type} (a : array2 A) (r c : nat) (x : A) :
  cell a r c = Some x -> (S r < length (cells a))%nat ->
  (forall row, nth_error (cells a) r = Some row -> S c < length row)%nat ->
  cell (drop_last a) r c = Some x.
Proof.
  unfold cell, drop_last; cbn [cells]. intros H Hr Hc.
  rewrite nth_error_map, nth_error_removelast by exact Hr.
  destruct (nth_error (cells a) r) as [row |]; [| discriminate]. cbn.
  rewrite nth_error_removelast; [exact H | apply Hc; reflexivity].
Qed.

(** X13: in the mesh of the three rasterisers, the node in row r and
    column c holds the c-th sample of linspace(lon_range, xsize) and the
    r-th sample of linspace(lat_range, int(aspect*xsize)); the centre of
    cell (r, c) is the mean of the samples c and c+1, respectively r and
    r+1, that is lon0 + (c + 1/2) * dlon and lat0 + (r + 1/2) * dlat for the
    steps dlon and dlat of the two linspaces; the first sample is the lower
    end of the range and, for two or more samples, the last one is the
    upper end. *)
Theorem raster_mesh_centers lon_range lat_range xsize aspect lon_raster lat_raster :
  raster_mesh lon_range lat_range xsize aspect = Ok (lon_raster, lat_raster) ->
  let ysize := Np.int (aspect * inject_Z xsize) in
  (forall r c, (r < Z.to_nat ysize)%nat -> (c < Z.to_nat xsize)%nat ->
     cell lon_raster r c = Some (linspace_node lon_range xsize c) /\
     cell lat_raster r c = Some (linspace_node lat_range ysize r)) /\
  (forall r c, (S r < Z.to_nat ysize)%nat -> (S c < Z.to_nat xsize)%nat ->
     cell (centers lon_raster) r c
     = Some ((linspace_node lon_range xsize (S c) + linspace_node lon_range xsize c) / 2) /\
     cell (centers lat_raster) r c
     = Some ((linspace_node lat_range ysize (S r) + linspace_node lat_range ysize r) / 2)) /\
  (forall (rg : range) (n : Z) (i : nat),
     (linspace_node rg n (S i) + linspace_node rg n i) / 2
     == fst rg + (inject_Z (Z.of_nat i) + (1 # 2)) * ((snd rg - fst rg) / inject_Z (n - 1))) /\
  (forall (rg : range) (n : Z), linspace_node rg n 0 == fst rg) /\
  (forall (rg : range) (n : Z), (2 <= n)%Z ->
     linspace_node rg n (Z.to_nat n - 1) == snd rg).
Proof.
  intros H ysize. unfold raster_mesh in H.
  apply bind_ok in H. destruct H as (xs & Hx & H).
  apply bind_ok in H. destruct H as (ys & Hy & H).
  assert (M : meshgrid xs ys = (lon_raster, lat_raster)) by congruence. clear H.
  replace lon_raster with (fst (meshgrid xs ys)) by (rewrite M; reflexivity).
  replace lat_raster with (snd (meshgrid xs ys)) by (rewrite M; reflexivity).
  clear M lon_raster lat_raster.
  fold ysize in Hy.
  destruct lon_range as [a b], lat_range as [a' b']. cbn [fst snd] in Hx, Hy.
  assert (N : forall r c, (r < Z.to_nat ysize)%nat -> (c < Z.to_nat xsize)%nat ->
            cell (fst (meshgrid xs ys)) r c = Some (linspace_node (a, b) xsize c) /\
            cell (snd (meshgrid xs ys)) r c = Some (linspace_node (a', b') ysize r)).
  { intros r c Hr Hc. apply cell_meshgrid; eapply linspace_nth; eassumption. }
  destruct (linspace_ok _ _ _ _ Hx) as [_ Lx]. destruct (linspace_ok _ _ _ _ Hy) as [_ Ly].
  split; [exact N |]. split; [| split; [| split]].
  - intros r c Hr Hc. unfold centers. rewrite !cell_amap2, !cell_drop_first.
    destruct (N (S r) (S c) Hr Hc) as [E1 E2]. rewrite E1, E2.
    destruct (N r c ltac:(lia) ltac:(lia)) as [F1 F2].
    rewrite (cell_drop_last _ r c _ F1), (cell_drop_last _ r c _ F2); [auto | | | |].
    + cbn [snd meshgrid cells]. rewrite length_map. lia.
    + cbn [snd meshgrid cells]. intros row Hrow. rewrite nth_error_map in Hrow.
      destruct (nth_error ys r); [| discriminate]. injection Hrow as <-.
      rewrite length_map. lia.
    + cbn [fst meshgrid cells]. rewrite length_map. lia.
    + cbn [fst meshgrid cells]. intros row Hrow. rewrite nth_error_map in Hrow.
      destruct (nth_error ys r); [| discriminate]. injection Hrow as <-. lia.
  - intros rg n i. unfold linspace_node. rewrite Nat2Z.inj_succ, <- Z.add_1_r, inject_Z_plus.
    change (inject_Z 1) with 1. set (step := (snd rg - fst rg) / inject_Z (n - 1)). field.
  - intros rg n. unfold linspace_node. cbn. ring.
  - intros rg n Hn. unfold linspace_node.
    rewrite Nat2Z.inj_sub, Z2Nat.id by lia. change (Z.of_nat 1) with 1%Z.
    assert (D : ~ inject_Z (n - 1) == 0).
    { change 0 with (inject_Z 0). rewrite inject_Z_injective. lia. }
    field. exact D.
Qed.

(** Three columns over [0, 90] and three rows over [0, 10]: the first
    centre is at (45/2, 5/2). *)
Lemma raster_mesh_centers_witness :
  exists lon_raster lat_raster x y,
    raster_mesh (0, 90) (0, 10) 3 1 = Ok (lon_raster, lat_raster) /\
    cell (centers lon_raster) 0 0 = Some x /\ x == 45 # 2 /\
    cell (centers lat_raster) 0 0 = Some y /\ y == 5 # 2.
Proof.
  destruct (raster_mesh (0, 90) (0, 10) 3 1) as [[lo la] | e] eqn:E.
  - destruct (raster_mesh_centers (0, 90) (0, 10) 3 1 lo la E) as (_ & C & _).
    destruct (C 0%nat 0%nat) as [C1 C2]; [vm_compute; lia | vm_compute; lia |].
    do 4 eexists. split; [reflexivity |].
    split; [exact C1 |]. split; [vm_compute; reflexivity |].
    split; [exact C2 |]. vm_compute. reflexivity.
  - vm_compute in E. discriminate.
Defined.

End MeshFacts.

(** ** hspmap_to_xy cell by cell *)

Module SparseFacts.

Import HpxUtils ArrayFacts.




End SparseFacts.

(** ** healpix_to_xy: edge cases and the whole map *)

Module EmptyFacts.

Import HpxUtils ArrayFacts SearchFacts Fixtures.

Lemma flatten_empty {A : Type} (a : array2 A) :
  well_shaped a -> (nrows a = 0 \/ ncols a = 0)%nat -> flatten a = [].
Proof.
  intros [H1 H2] H. unfold flatten. destruct H as [H | H].
  - rewrite H in H1. apply length_zero_iff_nil in H1. now rewrite H1.
  - rewrite H in H2. clear H1 H. induction H2 as [| row rows Hr _ IH]; [reflexivity |].
    apply length_zero_iff_nil in Hr. cbn. now rewrite Hr, IH.
Qed.

Lemma amax_raise (l : list Z) (e : exn) :
  amax l = Raise e -> l = [] /\ e = ValueError_empty_reduction.
Proof. destruct l; cbn; [intro H; injection H as <-; auto | discriminate]. Qed.

Section Facts.
Variable angle_to_pixel : Z -> bool -> Q -> Q -> Z.
Variable V : Type.
Variable zero : V.

(** X15: healpix_to_xy with an empty pixels array, or with a mesh of fewer
    than two columns or rows (so that there is no cell), raises the
    ValueError of max() on an array without elements: it returns no empty
    raster. *)
Theorem healpix_to_xy_empty nside pixels values lon_range lat_range nest xsize aspect :
  NoDup pixels ->
  (0 <= xsize)%Z -> (0 <= Np.int (aspect * inject_Z xsize))%Z ->
  pixels = [] \/ (xsize <= 1)%Z \/ (Np.int (aspect * inject_Z xsize) <= 1)%Z ->
  healpix_to_xy angle_to_pixel V zero nside pixels values lon_range lat_range nest xsize aspect
  = Raise ValueError_empty_reduction.
Proof.
  intros Hnd Hx Hy H. unfold healpix_to_xy.
  apply unique_length_NoDup in Hnd. rewrite Hnd, Nat.eqb_refl. cbn [negb].
  destruct (raster_mesh_total lon_range lat_range xsize aspect Hx Hy) as ([lo la] & E).
  rewrite E. cbn [bind].
  set (pix_raster := amap2 (angle_to_pixel nside nest) (centers lo) (centers la)).
  destruct (amax (flatten pix_raster)) as [rmax | e] eqn:A; cbn [bind].
  - destruct H as [-> | H]; [reflexivity |]. exfalso.
    assert (F : flatten pix_raster = []).
    { apply flatten_empty.
      - apply raster_mesh_ok in E. destruct E as (_ & _ & S1 & S2 & W1 & W2).
        apply well_shaped_amap2; [apply well_shaped_centers, W1
                                 | apply well_shaped_centers, W2 |].
        rewrite !shape_centers. injection S1 as -> ->. injection S2 as -> ->. reflexivity.
      - apply raster_mesh_ok in E. destruct E as (_ & _ & S1 & _).
        injection S1 as R C. unfold pix_raster; cbn [amap2 nrows ncols centers drop_first].
        rewrite R, C. unfold mesh_rows. lia. }
    rewrite F in A. discriminate.
  - apply amax_raise in A. destruct A as [_ ->]. reflexivity.
Qed.

End Facts.

(** No pixels at all, on a mesh of three columns and three rows. *)
Lemma healpix_to_xy_empty_witness :
  healpix_to_xy equator_angle_to_pixel Q 0 1 [] [] (0, 90) (0, 10) false 3 1
  = Raise ValueError_empty_reduction.
Proof.
  apply (healpix_to_xy_empty equator_angle_to_pixel Q 0 1 [] [] (0, 90) (0, 10) false 3 1).
  - constructor.
  - lia.
  - vm_compute. discriminate.
  - left. reflexivity.
Defined.

End EmptyFacts.

Module DenseFacts.

Import HpxUtils ArrayFacts SearchFacts Fixtures.

Lemma nth_error_indices (n j : nat) :
  (j < n)%nat -> nth_error (map Z.of_nat (seq 0 n)) j = Some (Z.of_nat j).
Proof.
  intro H. rewrite nth_error_map, nth_error_seq.
  destruct (Nat.ltb_spec j n); [reflexivity | lia].
Qed.

Lemma NoDup_indices (n : nat) : NoDup (map Z.of_nat (seq 0 n)).
Proof.
  apply Finite.Injective_map_NoDup; [| apply seq_NoDup].
  intros x y. apply Nat2Z.inj.
Qed.

Section Facts.
Variable angle_to_pixel : Z -> bool -> Q -> Q -> Z.
Variable npixel_to_nside : Z -> result Z.
Variable UNSEEN : Q.

(** X16: for a dense map, healpix_to_xy given all the pixel numbers
    0 .. npix-1 and the map as values returns the mesh and the data of
    hpxmap_to_xy, and masks no cell (whereas hpxmap_to_xy masks the cells
    that hold the sentinel or a NaN). *)
Theorem healpix_to_xy_whole_map hpxmap zero nside lon_range lat_range nest xsize aspect :
  npixel_to_nside (Z.of_nat (length hpxmap)) = Ok nside ->
  (forall lon lat, (0 <= angle_to_pixel nside nest lon lat < Z.of_nat (length hpxmap))%Z) ->
  (2 <= xsize)%Z -> (2 <= Np.int (aspect * inject_Z xsize))%Z ->
  exists lon_raster lat_raster m m',
    hpxmap_to_xy angle_to_pixel npixel_to_nside UNSEEN hpxmap lon_range lat_range
      nest xsize aspect = Ok (lon_raster, lat_raster, m) /\
    healpix_to_xy angle_to_pixel float64 zero nside
      (map Z.of_nat (seq 0 (length hpxmap))) hpxmap lon_range lat_range nest xsize aspect
    = Ok (lon_raster, lat_raster, m') /\
    shape (data m') = shape (data m) /\
    forall r c v,
      cell (data m) r c = Some v ->
      cell (data m') r c = Some v /\ cell (mask m') r c = Some false.
Proof.
  intros Hn Hpix Hx Hy.
  set (pixels := map Z.of_nat (seq 0 (length hpxmap))).
  assert (Hpos : (0 < length hpxmap)%nat) by (specialize (Hpix 0 0); lia).
  assert (Lp : length pixels = length hpxmap) by (unfold pixels; now rewrite length_map, length_seq).
  destruct (RasterFacts.hpxmap_to_xy_total angle_to_pixel npixel_to_nside UNSEEN hpxmap
              lon_range lat_range nest xsize aspect nside ltac:(lia) ltac:(lia) Hn Hpix)
    as (lo & la & m & E).
  destruct (ExplicitPixelsFacts.healpix_to_xy_total angle_to_pixel float64 zero nside pixels
              hpxmap lon_range lat_range nest xsize aspect
              (NoDup_indices _) ltac:(intro C; rewrite C in Lp; cbn in Lp; lia)
              ltac:(lia) Hx Hy)
    as (lo' & la' & m' & E').
  pose proof (RasterFacts.hpxmap_to_xy_ok _ _ _ _ _ _ _ _ _ _ _ _ E) as (ns & M & Hns & T & _).
  assert (ns = nside) by congruence. subst ns.
  pose proof (ExplicitPixelsFacts.healpix_to_xy_ok _ _ _ _ _ _ _ _ _ _ _ _ _ _ E') as O.
  cbv zeta in O. destruct O as (rmax & pmax & sp & fd & _ & M' & _ & _ & Hs & Hf & _ & Hv).
  assert (lo' = lo /\ la' = la) as [-> ->] by (split; congruence).
  exists lo, la, m, m'. split; [exact E |]. split; [exact E' |].
  set (pix_raster := amap2 (angle_to_pixel nside nest) (centers lo) (centers la)) in *.
  split.
  - apply traverse_ok in T, Hs, Hf, Hv.
    destruct T as (St & _). destruct Hs as (Ss & _). destruct Hf as (Sf & _).
    destruct Hv as (Sv & _).
    rewrite St, Sv.
    replace (shape (amap2 pair (amap2 Z.eqb fd pix_raster) sp)) with (shape fd) by reflexivity.
    rewrite Sf, Ss. reflexivity.
  - intros r c v Hc.
    apply traverse_ok in T. destruct T as (_ & _ & Tc & _).
    destruct (Tc r c v Hc) as (q & Hq & Hi).
    unfold pix_raster in Hq. rewrite cell_amap2 in Hq.
    destruct (cell (centers lo) r c) as [lon |] eqn:Clon; [| discriminate].
    destruct (cell (centers la) r c) as [lat |] eqn:Clat; [| discriminate].
    injection Hq as <-.
    destruct (ExplicitPixelsFacts.healpix_to_xy_cells _ _ _ _ _ _ _ _ _ _ _ _ _ _ E'
                r c lon lat Clon Clat) as (masked & v' & Hm & Hd & Hin & Hval & _).
    specialize (Hpix lon lat).
    set (q := angle_to_pixel nside nest lon lat) in *.
    assert (Hj : nth_error pixels (Z.to_nat q) = Some q).
    { unfold pixels. rewrite nth_error_indices by lia. f_equal. lia. }
    assert (Hf' : masked = false) by (apply Hin; eapply nth_error_In, Hj).
    subst masked. specialize (Hval eq_refl _ Hj).
    unfold np_index in Hi.
    destruct (Z.leb_spec 0 q); [| lia]. destruct (Z.ltb_spec q (Z.of_nat (length hpxmap))); [| lia].
    cbn [andb] in Hi. rewrite Hval in Hi. cbn in Hi. injection Hi as <-. auto.
Qed.

End Facts.

(** The map at nside 1 that holds a value near the sentinel everywhere:
    hpxmap_to_xy masks its cells, healpix_to_xy with all twelve pixels does
    not. *)
Lemma healpix_to_xy_whole_map_witness :
  exists lon_raster lat_raster m m',
    hpxmap_to_xy equator_angle_to_pixel hpg_npixel_to_nside hpg_UNSEEN near_unseen_map
      (0, 90) (0, 10) false 3 1 = Ok (lon_raster, lat_raster, m) /\
    healpix_to_xy equator_angle_to_pixel float64 (Finite 0) 1
      (map Z.of_nat (seq 0 (length near_unseen_map))) near_unseen_map
      (0, 90) (0, 10) false 3 1 = Ok (lon_raster, lat_raster, m') /\
    shape (data m') = shape (data m).
Proof.
  destruct (healpix_to_xy_whole_map equator_angle_to_pixel hpg_npixel_to_nside hpg_UNSEEN
              near_unseen_map (Finite 0) 1 (0, 90) (0, 10) false 3 1)
    as (lo & la & m & m' & E & E' & S & _).
  - vm_compute. reflexivity.
  - intros lo la. unfold equator_angle_to_pixel.
    pose proof (Z.mod_pos_bound (Qfloor ((lo + 45) / 90)) 4).
    change (Z.of_nat (length near_unseen_map)) with 12%Z. lia.
  - lia.
  - vm_compute. discriminate.
  - exists lo, la, m, m'. split; [exact E |]. split; [exact E' |]. exact S.
Defined.

End DenseFacts.

(** ** healpix_bin: the order of the samples, and the raster of its map *)

Module BinOrderFacts.

Import HpxUtils ArrayFacts SearchFacts BinFacts Fixtures.

Lemma zip_with_combine {A B C : Type} (f : A -> B -> C) (l : list A) (m : list B) :
  zip_with f l m = map (fun p => f (fst p) (snd p)) (combine l m).
Proof.
  revert m. induction l as [| x l IH]; intros [| y m]; cbn; try reflexivity.
  now rewrite IH.
Qed.

Lemma samples_in_perm (pix pix' : list Z) (p : Z) :
  Permutation pix pix' -> samples_in pix p = samples_in pix' p.
Proof.
  intro H. unfold samples_in. f_equal.
  revert p. apply (Permutation_count_occ Z.eq_dec). exact H.
Qed.

Lemma nth_error_eq_ext {A : Type} (l l' : list A) :
  (forall k, nth_error l k = nth_error l' k) -> l = l'.
Proof.
  revert l'. induction l as [| x l IH]; intros [| y l'] H.
  - reflexivity.
  - specialize (H O). discriminate.
  - specialize (H O). discriminate.
  - pose proof (H O) as H0. injection H0 as ->. f_equal.
    apply IH. intro k. exact (H (S k)).
Qed.

Section Facts.
Variable angle_to_pixel : Z -> bool -> Q -> Q -> Z.
Variable nside_to_npixel : Z -> Z.
Variable UNSEEN : Q.

(** X17: without per-sample values, healpix_bin gives the same map for two
    sample lists that are permutations of each other (the pairs (lon, lat)
    in another order): the map of counts does not depend on the order of
    the samples. *)
Theorem healpix_bin_order lon lat lon' lat' nside nest :
  length lon = length lat -> length lon' = length lat' ->
  Permutation (combine lon lat) (combine lon' lat') ->
  (forall lo la, (0 <= angle_to_pixel nside nest lo la < nside_to_npixel nside)%Z) ->
  exists hpxmap,
    healpix_bin angle_to_pixel nside_to_npixel UNSEEN lon lat None nside nest = Ok hpxmap /\
    healpix_bin angle_to_pixel nside_to_npixel UNSEEN lon' lat' None nside nest = Ok hpxmap.
Proof.
  intros L L' P Hpix.
  destruct (BinningFacts.healpix_bin_pixel angle_to_pixel nside_to_npixel UNSEEN
              lon lat None nside nest L Hpix I) as (h & E & Lh & Hh).
  destruct (BinningFacts.healpix_bin_pixel angle_to_pixel nside_to_npixel UNSEEN
              lon' lat' None nside nest L' Hpix I) as (h' & E' & Lh' & Hh').
  exists h. split; [exact E |]. rewrite E'. f_equal.
  apply nth_error_eq_ext. intro k.
  destruct (Nat.lt_ge_cases k (length h)) as [Hk | Hk].
  - assert (R : (0 <= Z.of_nat k < nside_to_npixel nside)%Z) by lia.
    destruct (Hh _ R) as (v & Hv & V). destruct (Hh' _ R) as (v' & Hv' & V').
    rewrite Nat2Z.id in Hv, Hv'. rewrite Hv, Hv'. f_equal.
    cbv zeta in V, V'.
    rewrite (samples_in_perm (zip_with (angle_to_pixel nside nest) lon lat)
               (zip_with (angle_to_pixel nside nest) lon' lat')) in V
      by (rewrite !zip_with_combine; apply Permutation_map, P).
    destruct (0 <? _)%Z; congruence.
  - destruct (nth_error_None h k) as [_ ->]; [| exact Hk].
    destruct (nth_error_None h' k) as [_ ->]; [reflexivity | lia].
Qed.

End Facts.

(** Two samples at longitudes 0 and 90, in both orders. *)
Lemma healpix_bin_order_witness :
  exists hpxmap,
    healpix_bin equator_angle_to_pixel hpg_nside_to_npixel hpg_UNSEEN
      [0; 90] [0; 0] None 1 false = Ok hpxmap /\
    healpix_bin equator_angle_to_pixel hpg_nside_to_npixel hpg_UNSEEN
      [90; 0] [0; 0] None 1 false = Ok hpxmap.
Proof.
  apply (healpix_bin_order equator_angle_to_pixel hpg_nside_to_npixel hpg_UNSEEN
           [0; 90] [0; 0] [90; 0] [0; 0] 1 false).
  - reflexivity.
  - reflexivity.
  - apply perm_swap.
  - intros lo la. unfold equator_angle_to_pixel, hpg_nside_to_npixel.
    pose proof (Z.mod_pos_bound (Qfloor ((lo + 45) / 90)) 4). lia.
Defined.

End BinOrderFacts.

Module BinRasterFacts.

Import HpxUtils ArrayFacts SearchFacts BinFacts Fixtures.

Lemma isclose_self (u : Q) : isclose (Finite u) (Finite u) = true.
Proof.
  unfold isclose. apply NpFacts.leb_spec.
  assert (E : Qabs (u - u) == 0).
  { assert (Z0 : u - u == 0) by ring. rewrite Z0. reflexivity. }
  rewrite E. pose proof (Qabs_nonneg u). unfold atol, rtol. nra.
Qed.

Lemma isclose_count (n : Z) (u : Q) :
  (0 < n)%Z -> u < 0 -> isclose (Finite (inject_Z n)) (Finite u) = false.
Proof.
  intros Hn Hu. unfold isclose. apply NpFacts.leb_false.
  assert (N : 1 <= inject_Z n).
  { change 1 with (inject_Z 1). rewrite <- Zle_Qle. lia. }
  rewrite (Qabs_pos (inject_Z n - u)) by lra.
  rewrite (Qabs_neg u) by lra. unfold atol, rtol. lra.
Qed.

Section Facts.
Variable angle_to_pixel : Z -> bool -> Q -> Q -> Z.
Variable nside_to_npixel : Z -> Z.
Variable npixel_to_nside : Z -> result Z.
Variable UNSEEN : Q.

(** X18: the map of counts of healpix_bin, passed to hpxmap_to_xy with the
    same nside and ordering, gives a raster in which a cell is masked
    exactly when no sample fell into the pixel of its centre, and holds the
    number of samples of that pixel otherwise.  (The sentinel is negative,
    as hpgeom's is, npixel_to_nside inverts nside_to_npixel at this nside,
    and there are fewer than 2^31 samples.) *)
Theorem healpix_bin_then_raster lon lat nside nest lon_range lat_range xsize aspect :
  length lon = length lat ->
  (forall lo la, (0 <= angle_to_pixel nside nest lo la < nside_to_npixel nside)%Z) ->
  npixel_to_nside (nside_to_npixel nside) = Ok nside ->
  UNSEEN < 0 ->
  (Z.of_nat (length lon) < 2147483648)%Z ->
  (0 <= xsize)%Z -> (0 <= Np.int (aspect * inject_Z xsize))%Z ->
  let pix := zip_with (angle_to_pixel nside nest) lon lat in
  exists hpxmap lon_raster lat_raster m,
    healpix_bin angle_to_pixel nside_to_npixel UNSEEN lon lat None nside nest = Ok hpxmap /\
    hpxmap_to_xy angle_to_pixel npixel_to_nside UNSEEN (map Finite hpxmap)
      lon_range lat_range nest xsize aspect = Ok (lon_raster, lat_raster, m) /\
    forall r c clon clat,
      cell (centers lon_raster) r c = Some clon ->
      cell (centers lat_raster) r c = Some clat ->
      let n := samples_in pix (angle_to_pixel nside nest clon clat) in
      cell (mask m) r c = Some (n =? 0)%Z /\
      cell (data m) r c = Some (Finite (if (n =? 0)%Z then UNSEEN else inject_Z n)).
Proof.
  intros L Hpix Hns Hu Hlen Hx Hy pix.
  destruct (BinningFacts.healpix_bin_pixel angle_to_pixel nside_to_npixel UNSEEN
              lon lat None nside nest L Hpix I) as (h & E & Lh & Hh).
  fold pix in Hh.
  assert (Hnp : (0 < nside_to_npixel nside)%Z) by (specialize (Hpix 0 0); lia).
  assert (Lm : Z.of_nat (length (map Finite h)) = nside_to_npixel nside).
  { rewrite length_map, Lh. lia. }
  assert (Hns' : npixel_to_nside (Z.of_nat (length (map Finite h))) = Ok nside)
    by (rewrite Lm; exact Hns).
  assert (Hpix' : forall lo la,
            (0 <= angle_to_pixel nside nest lo la < Z.of_nat (length (map Finite h)))%Z)
    by (intros; rewrite Lm; apply Hpix).
  destruct (RasterFacts.hpxmap_to_xy_total angle_to_pixel npixel_to_nside UNSEEN (map Finite h)
              lon_range lat_range nest xsize aspect nside Hx Hy Hns' Hpix')
    as (lo & la & m & Em).
  exists h, lo, la, m. split; [exact E |]. split; [exact Em |].
  intros r c clon clat Clon Clat n.
  pose proof (RasterFacts.hpxmap_to_xy_ok _ _ _ _ _ _ _ _ _ _ _ _ Em) as (ns & _ & Hns2 & T & Hmask).
  assert (ns = nside) by congruence. subst ns.
  apply traverse_ok in T. destruct T as (_ & _ & _ & Tc).
  set (q := angle_to_pixel nside nest clon clat) in *.
  destruct (Tc r c q) as (v & Hv & Hi).
  { rewrite cell_amap2, Clon, Clat. reflexivity. }
  rewrite Hmask, cell_amap, Hv. cbn [option_map].
  assert (Hq : (0 <= q < nside_to_npixel nside)%Z) by apply Hpix.
  destruct (Hh q Hq) as (w & Hw & Hval). cbv zeta in Hval.
  assert (Hv' : v = Finite w).
  { unfold np_index in Hi. rewrite Lm in Hi.
    destruct (Z.leb_spec 0 q); [| lia].
    destruct (Z.ltb_spec q (nside_to_npixel nside)); [| lia]. cbn [andb] in Hi.
    rewrite nth_error_map, Hw in Hi. cbn in Hi. congruence. }
  subst v.
  assert (Hn : (0 <= n < 2147483648)%Z).
  { unfold n, samples_in. split; [lia |].
    pose proof (count_occ_bound Z.eq_dec q pix) as B.
    assert (length pix = length lon).
    { unfold pix. rewrite zip_with_length. lia. }
    lia. }
  rewrite BinningFacts.wrap_int32_small in Hval by (fold n; lia). fold n in Hval.
  destruct (Z.eqb_spec n 0) as [Z0 | Z0].
  - rewrite Z0 in Hval. cbn in Hval. subst w.
    rewrite isclose_self. auto.
  - destruct (Z.ltb_spec 0 n); [| lia]. subst w.
    rewrite isclose_count by (lia || assumption). cbn. auto.
Qed.

End Facts.

(** Three samples at nside 1, two of them in pixel 4, rasterised on a mesh
    of three columns over [0, 180]: the first cell (pixel 4) holds 2. *)
Lemma healpix_bin_then_raster_witness :
  exists hpxmap lon_raster lat_raster m,
    healpix_bin equator_angle_to_pixel hpg_nside_to_npixel hpg_UNSEEN
      [0; 0; 90] [0; 0; 0] None 1 false = Ok hpxmap /\
    hpxmap_to_xy equator_angle_to_pixel hpg_npixel_to_nside hpg_UNSEEN (map Finite hpxmap)
      (0, 180) (0, 10) false 3 1 = Ok (lon_raster, lat_raster, m) /\
    cell (mask m) 0 0 = Some false.
Proof.
  destruct (healpix_bin_then_raster equator_angle_to_pixel hpg_nside_to_npixel
              hpg_npixel_to_nside hpg_UNSEEN [0; 0; 90] [0; 0; 0] 1 false
              (0, 180) (0, 10) 3 1)
    as (h & lo & la & m & E & Em & H).
  - reflexivity.
  - intros lo la. unfold equator_angle_to_pixel, hpg_nside_to_npixel.
    pose proof (Z.mod_pos_bound (Qfloor ((lo + 45) / 90)) 4). lia.
  - vm_compute. reflexivity.
  - vm_compute. reflexivity.
  - vm_compute. reflexivity.
  - lia.
  - vm_compute. discriminate.
  - exists h, lo, la, m. split; [exact E |]. split; [exact Em |].
    pose proof (RasterFacts.hpxmap_to_xy_ok _ _ _ _ _ _ _ _ _ _ _ _ Em) as (ns & M & _).
    vm_compute in M. injection M as <- <-.
    edestruct (H 0%nat 0%nat) as [Hm _];
      [vm_compute; reflexivity | vm_compute; reflexivity |].
    rewrite Hm. vm_compute. reflexivity.
Defined.

End BinRasterFacts.

(** ** healpix_to_xy: the order of the pixels *)

Module PixelOrderFacts.

Import HpxUtils ArrayFacts SearchFacts Fixtures.

Lemma In_combine_nth_error {A B : Type} (l : list A) (m : list B) (x : A) (y : B) :
  In (x, y) (combine l m) <-> exists j, nth_error l j = Some x /\ nth_error m j = Some y.
Proof.
  revert m. induction l as [| a l IH]; intros [| b m]; cbn [combine In].
  - split; [contradiction | intros ([| j] & H & _); discriminate].
  - split; [contradiction | intros ([| j] & H & _); discriminate].
  - split; [contradiction | intros ([| j] & _ & H); discriminate].
  - split.
    + intros [E | H].
      * injection E as -> ->. exists O. auto.
      * apply IH in H. destruct H as (j & H1 & H2). exists (S j). auto.
    + intros ([| j] & H1 & H2); cbn in H1, H2.
      * left. congruence.
      * right. apply IH. eauto.
Qed.

Lemma combine_fst {A B : Type} (l : list A) (m : list B) :
  length l = length m -> map fst (combine l m) = l.
Proof.
  revert m. induction l as [| a l IH]; intros [| b m] H; cbn in *; try reflexivity; try lia.
  f_equal. apply IH. lia.
Qed.

Section Facts.
Variable angle_to_pixel : Z -> bool -> Q -> Q -> Z.
Variable V : Type.
Variable zero : V.

(** X19: healpix_to_xy gives the same raster for two lists of (pixel,
    value) pairs that are permutations of each other: for unique pixels,
    with as many values as pixels and a mesh of at least two columns and
    rows, both calls return the same mesh, and in every cell the same value
    and the same mask bit. *)
Theorem healpix_to_xy_order nside pixels values pixels' values' lon_range lat_range nest
    xsize aspect :
  NoDup pixels -> pixels <> [] ->
  length pixels = length values -> length pixels' = length values' ->
  Permutation (combine pixels values) (combine pixels' values') ->
  (2 <= xsize)%Z -> (2 <= Np.int (aspect * inject_Z xsize))%Z ->
  exists lon_raster lat_raster m m',
    healpix_to_xy angle_to_pixel V zero nside pixels values lon_range lat_range nest
      xsize aspect = Ok (lon_raster, lat_raster, m) /\
    healpix_to_xy angle_to_pixel V zero nside pixels' values' lon_range lat_range nest
      xsize aspect = Ok (lon_raster, lat_raster, m') /\
    forall r c lon lat,
      cell (centers lon_raster) r c = Some lon ->
      cell (centers lat_raster) r c = Some lat ->
      cell (data m') r c = cell (data m) r c /\ cell (mask m') r c = cell (mask m) r c.
Proof.
  intros Hnd Hne L L' P Hx Hy.
  assert (Pp : Permutation pixels pixels').
  { rewrite <- (combine_fst pixels values L), <- (combine_fst pixels' values' L').
    apply Permutation_map, P. }
  assert (Hnd' : NoDup pixels') by (eapply Permutation_NoDup; eassumption).
  assert (Hne' : pixels' <> []).
  { intro E. rewrite E in Pp. apply Permutation_sym, Permutation_nil in Pp. contradiction. }
  destruct (ExplicitPixelsFacts.healpix_to_xy_total angle_to_pixel V zero nside pixels values
              lon_range lat_range nest xsize aspect Hnd Hne ltac:(lia) Hx Hy)
    as (lo & la & m & E).
  destruct (ExplicitPixelsFacts.healpix_to_xy_total angle_to_pixel V zero nside pixels' values'
              lon_range lat_range nest xsize aspect Hnd' Hne' ltac:(lia) Hx Hy)
    as (lo' & la' & m' & E').
  pose proof (ExplicitPixelsFacts.healpix_to_xy_ok _ _ _ _ _ _ _ _ _ _ _ _ _ _ E) as O.
  pose proof (ExplicitPixelsFacts.healpix_to_xy_ok _ _ _ _ _ _ _ _ _ _ _ _ _ _ E') as O'.
  cbv zeta in O, O'.
  destruct O as (_ & _ & _ & _ & _ & M & _). destruct O' as (_ & _ & _ & _ & _ & M' & _).
  assert (lo' = lo /\ la' = la) as [-> ->] by (split; congruence).
  exists lo, la, m, m'. split; [exact E |]. split; [exact E' |].
  intros r c lon lat Clon Clat.
  destruct (ExplicitPixelsFacts.healpix_to_xy_cells _ _ _ _ _ _ _ _ _ _ _ _ _ _ E
              r c lon lat Clon Clat) as (k & v & Hm & Hd & Hin & Hval & Hz).
  destruct (ExplicitPixelsFacts.healpix_to_xy_cells _ _ _ _ _ _ _ _ _ _ _ _ _ _ E'
              r c lon lat Clon Clat) as (k' & v' & Hm' & Hd' & Hin' & Hval' & Hz').
  set (q := angle_to_pixel nside nest lon lat) in *.
  assert (K : k' = k).
  { destruct k, k'; try reflexivity.
    - assert (In q pixels') by (apply Hin'; reflexivity).
      assert (In q pixels) by (eapply Permutation_in; [symmetry; exact Pp | assumption]).
      apply Hin in H0. discriminate.
    - assert (In q pixels) by (apply Hin; reflexivity).
      assert (In q pixels') by (eapply Permutation_in; [exact Pp | assumption]).
      apply Hin' in H0. discriminate. }
  subst k'. rewrite Hm, Hm', Hd, Hd'. split; [| reflexivity]. f_equal.
  destruct k.
  - rewrite (Hz eq_refl), (Hz' eq_refl). reflexivity.
  - assert (Hq : In q pixels) by (apply Hin; reflexivity).
    apply In_nth_error in Hq. destruct Hq as (j & Hj).
    pose proof (Hval eq_refl j Hj) as Hv.
    assert (Hc : In (q, v) (combine pixels' values')).
    { eapply Permutation_in; [exact P |]. apply In_combine_nth_error. eauto. }
    apply In_combine_nth_error in Hc. destruct Hc as (j' & Hj' & Hv').
    pose proof (Hval' eq_refl j' Hj') as Hv2. congruence.
Qed.

End Facts.

(** Two pixels with their values, in both orders. *)
Lemma healpix_to_xy_order_witness :
  exists lon_raster lat_raster m m',
    healpix_to_xy equator_angle_to_pixel Q 0 1 [5; 4]%Z [10; 20] (0, 180) (0, 10) false 3 1
    = Ok (lon_raster, lat_raster, m) /\
    healpix_to_xy equator_angle_to_pixel Q 0 1 [4; 5]%Z [20; 10] (0, 180) (0, 10) false 3 1
    = Ok (lon_raster, lat_raster, m').
Proof.
  destruct (healpix_to_xy_order equator_angle_to_pixel Q 0 1 [5; 4]%Z [10; 20]
              [4; 5]%Z [20; 10] (0, 180) (0, 10) false 3 1)
    as (lo & la & m & m' & E & E' & _).
  - repeat constructor; cbn; intuition discriminate.
  - discriminate.
  - reflexivity.
  - reflexivity.
  - apply perm_swap.
  - lia.
  - vm_compute. discriminate.
  - exists lo, la, m, m'. split; assumption.
Defined.

End PixelOrderFacts.
